(** * A labour market with wage discrimination: model and properties

    A shallow embedding of the simulation engine (models/firm.py,
    models/worker.py, models/market.py).

    Modelling choices.
    - Python numbers are exact rationals ([Q]); [==], [>] on numbers are
      [Qeq_bool] and the strict order.  The one non-rational value the code
      can produce, numpy's [nan] (mean of an empty list), is kept apart in
      [fnum].  The model therefore has no rounding, no overflow and no
      underflow: it stands for the doubles of the program where these do not
      decide the outcome.  Statements that would depend on them are given
      for magnitudes and gaps at which they cannot ([moderate], [ordinary],
      [exact_share] below), and identities that hold of exact sums only are
      not stated.
    - Agents live in two arenas owned by the model ([Market.workers],
      [Market.firms]); an object reference is an index into its arena, so the
      roster of a firm and the employer of a worker alias the same objects.
    - Methods are written in a state-and-exception monad over the model.
    - The random generator is a stream of raw draws with a cursor; [choice],
      [sample], [randint] and [uniform] consume it the way the Python
      generator is consumed, so every theorem quantified over the stream
      covers every seed. *)

From Stdlib Require Import QArith Qabs Qround ZArith Lia Lqa.
From stdpp Require Import base list option.

Local Open Scope nat_scope.

(** ** Numbers *)

Definition Qltb (x y : Q) : bool := negb (Qle_bool y x).
Definition Qgtb (x y : Q) : bool := Qltb y x.

(** [sum(xs)]: a left fold starting from [0]. *)
Definition Qsum (xs : list Q) : Q := fold_left Qplus xs 0%Q.

(** A float that may be numpy's [nan]. *)
Inductive fnum : Type :=
| Fin (q : Q)
| NaN.

Definition fmul (a b : fnum) : fnum :=
  match a, b with
  | Fin x, Fin y => Fin (x * y)%Q
  | _, _ => NaN
  end.

Definition fsub (a b : fnum) : fnum :=
  match a, b with
  | Fin x, Fin y => Fin (x - y)%Q
  | _, _ => NaN
  end.

(** Comparisons with [nan] are false. *)
Definition fgtb (a b : fnum) : bool :=
  match a, b with
  | Fin x, Fin y => Qgtb x y
  | _, _ => false
  end.

Definition feqb (a b : fnum) : bool :=
  match a, b with
  | Fin x, Fin y => Qeq_bool x y
  | _, _ => false
  end.

Definition is_numeric (a : fnum) : bool :=
  match a with Fin _ => true | NaN => false end.

(** [round(x)] to the nearest integer, ties to even. *)
Definition round_half_even (x : Q) : Z :=
  let f := Qfloor x in
  let d := (x - inject_Z f)%Q in
  if Qltb d (1 # 2) then f
  else if Qltb (1 # 2) d then (f + 1)%Z
  else if Z.even f then f else (f + 1)%Z.

(** [round(x, 2)]. *)
Definition round2 (x : Q) : Q :=
  (inject_Z (round_half_even (x * 100)) / 100)%Q.

(** ** Exceptions *)

Inductive exn : Type :=
| ZeroDivisionError
| ValueError
| IndexError
| AttributeError
| InvalidReference.

Inductive result (A : Type) : Type :=
| Ok (a : A)
| Raise (e : exn).
Arguments Ok {A} a.
Arguments Raise {A} e.

(** [x / y] on numbers. *)
Definition py_div (x y : Q) : result Q :=
  if Qeq_bool y 0 then Raise ZeroDivisionError else Ok (x / y)%Q.

(** [max(xs)]: the first maximal element; [ValueError] on an empty list. *)
Definition py_max (xs : list Q) : result Q :=
  match xs with
  | [] => Raise ValueError
  | x :: rest => Ok (fold_left (fun acc y => if Qgtb y acc then y else acc) rest x)
  end.

(** [xs.index(v)]: the first position whose element [== v]. *)
Fixpoint py_index (v : Q) (xs : list Q) : result nat :=
  match xs with
  | [] => Raise ValueError
  | x :: rest =>
      if Qeq_bool x v then Ok 0
      else match py_index v rest with
           | Ok i => Ok (S i)
           | Raise e => Raise e
           end
  end.

(** [numpy.mean(xs)]: [nan] on an empty list.  On an empty list numpy also
    emits a [RuntimeWarning] ("Mean of empty slice"); the warning is no part
    of the value returned and raises nothing, so it is kept apart in
    [np_mean_warns]. *)
Definition np_mean (xs : list Q) : fnum :=
  match xs with
  | [] => NaN
  | _ => Fin (Qsum xs / inject_Z (Z.of_nat (length xs)))%Q
  end.


(** ** The random source *)

Record RandomSource : Type := mkRandom { gen : nat -> N; pos : nat }.

Definition next (r : RandomSource) : N * RandomSource :=
  (gen r (pos r), mkRandom (gen r) (S (pos r))).

Definition randbelow (k : nat) (r : RandomSource) : nat * RandomSource :=
  let '(x, r') := next r in (N.to_nat (x mod N.of_nat k), r').

(** [random.choice(xs)]. *)
Definition choice {A} (xs : list A) (r : RandomSource) : result (A * RandomSource) :=
  let '(i, r') := randbelow (length xs) r in
  match xs !! i with
  | Some a => Ok (a, r')
  | None => Raise IndexError
  end.

(** Drawing [k] elements without replacement. *)
Fixpoint draw_distinct {A} (k : nat) (xs : list A) (r : RandomSource)
  : list A * RandomSource :=
  match k with
  | 0 => ([], r)
  | S k' =>
      let '(i, r1) := randbelow (length xs) r in
      match xs !! i with
      | Some a =>
          let '(rest, r2) := draw_distinct k' (delete i xs) r1 in
          (a :: rest, r2)
      | None => ([], r1)
      end
  end.

(** [random.sample(xs, k)]. *)
Definition sample {A} (xs : list A) (k : Z) (r : RandomSource)
  : result (list A * RandomSource) :=
  if ((k <? 0)%Z || (Z.of_nat (length xs) <? k)%Z)%bool then Raise ValueError
  else Ok (draw_distinct (Z.to_nat k) xs r).

(** [random.randint(a, b)], both ends included. *)
Definition randint (a b : Z) (r : RandomSource) : result (Z * RandomSource) :=
  if (b <? a)%Z then Raise ValueError
  else
    let '(x, r') := next r in
    Ok ((a + Z.of_N (x mod Z.to_N (b - a + 1)))%Z, r').

(** [random.uniform(a, b)] is [a + (b - a) * random()], and [random()] is a
    53-bit fraction. *)
Definition uniform (a b : Q) (r : RandomSource) : Q * RandomSource :=
  let '(x, r') := next r in
  let u := (Z.of_N (x mod 9007199254740992) # 9007199254740992)%Q in
  ((a + (b - a) * u)%Q, r').

(** ** The data model *)

Module Worker.
Record t : Type := mk {
  id : nat;
  d_class : Z;
  prod : Q;
  avg_prod : Q;
  hrs : Q;
  educ : bool;
  wage : Q;
  employer : option nat;       (* reference into [Market.firms] *)
  employer_id : option nat;
  employer_size : option nat;
  search : bool;
  switch : bool;
  switched : option bool       (* [None]: the attribute was never set *)
}.

Definition with_prod (x : Q) (w : t) : t :=
  mk (id w) (d_class w) x (avg_prod w) (hrs w) (educ w) (wage w)
     (employer w) (employer_id w) (employer_size w)
     (search w) (switch w) (switched w).
Definition with_educ (x : bool) (w : t) : t :=
  mk (id w) (d_class w) (prod w) (avg_prod w) (hrs w) x (wage w)
     (employer w) (employer_id w) (employer_size w)
     (search w) (switch w) (switched w).
Definition with_wage (x : Q) (w : t) : t :=
  mk (id w) (d_class w) (prod w) (avg_prod w) (hrs w) (educ w) x
     (employer w) (employer_id w) (employer_size w)
     (search w) (switch w) (switched w).
Definition with_employer (e eid esz : option nat) (w : t) : t :=
  mk (id w) (d_class w) (prod w) (avg_prod w) (hrs w) (educ w) (wage w)
     e eid esz (search w) (switch w) (switched w).
Definition with_employer_size (esz : option nat) (w : t) : t :=
  mk (id w) (d_class w) (prod w) (avg_prod w) (hrs w) (educ w) (wage w)
     (employer w) (employer_id w) esz (search w) (switch w) (switched w).
Definition with_search (x : bool) (w : t) : t :=
  mk (id w) (d_class w) (prod w) (avg_prod w) (hrs w) (educ w) (wage w)
     (employer w) (employer_id w) (employer_size w)
     x (switch w) (switched w).
Definition with_switch (x : bool) (w : t) : t :=
  mk (id w) (d_class w) (prod w) (avg_prod w) (hrs w) (educ w) (wage w)
     (employer w) (employer_id w) (employer_size w)
     (search w) x (switched w).
Definition with_switched (x : option bool) (w : t) : t :=
  mk (id w) (d_class w) (prod w) (avg_prod w) (hrs w) (educ w) (wage w)
     (employer w) (employer_id w) (employer_size w)
     (search w) (switch w) x.
End Worker.

Module Firm.
Record t : Type := mk {
  id : nat;
  d_factor : Q;
  d_class : Z;
  employees : list nat;        (* references into [Market.workers] *)
  size : nat;
  size_0 : nat;
  size_1 : nat;
  price : Q;
  costs : Q;
  revenue : Q;
  profit : Q;
  output : Q;
  output_0 : Q;
  output_1 : Q
}.

Definition with_employees (es : list nat) (f : t) : t :=
  mk (id f) (d_factor f) (d_class f) es (size f) (size_0 f) (size_1 f)
     (price f) (costs f) (revenue f) (profit f)
     (output f) (output_0 f) (output_1 f).
Definition with_sizes (s s0 s1 : nat) (f : t) : t :=
  mk (id f) (d_factor f) (d_class f) (employees f) s s0 s1
     (price f) (costs f) (revenue f) (profit f)
     (output f) (output_0 f) (output_1 f).
Definition with_outputs (o o0 o1 : Q) (f : t) : t :=
  mk (id f) (d_factor f) (d_class f) (employees f)
     (size f) (size_0 f) (size_1 f)
     (price f) (costs f) (revenue f) (profit f) o o0 o1.
Definition with_accounts (c r p : Q) (f : t) : t :=
  mk (id f) (d_factor f) (d_class f) (employees f)
     (size f) (size_0 f) (size_1 f)
     (price f) c r p (output f) (output_0 f) (output_1 f).
End Firm.

Module Params.
Record t : Type := mk {
  seed : N;
  steps : nat;
  n_workers : nat;
  prod_range : Z * Z;
  d_range : Q * Q;
  premium : Q;
  weighted : bool;
  d_class : Z;
  active : Q;
  sample : nat
}.
End Params.

(** One recorded row per agent and per call of [Market.update]. *)
Record WorkerRow : Type := mkWorkerRow {
  wr_t : nat;
  wr_obj_id : nat;
  wr_d_class : Z;
  wr_prod : Q;
  wr_hrs : Q;
  wr_employer : option nat;
  wr_employer_id : option nat;
  wr_employer_size : option nat;
  wr_wage : Q;
  wr_educ : bool;
  wr_search : bool;
  wr_switch : bool
}.

Record FirmRow : Type := mkFirmRow {
  fr_t : nat;
  fr_obj_id : nat;
  fr_d_factor : Q;
  fr_size : nat;
  fr_size_0 : nat;
  fr_size_1 : nat;
  fr_output : Q;
  fr_output_0 : Q;
  fr_output_1 : Q;
  fr_costs : Q;
  fr_revenue : Q;
  fr_profit : Q
}.

Module Market.
Record model : Type := mk {
  p : Params.t;
  workers : list Worker.t;
  firms : list Firm.t;
  random : RandomSource;
  t : nat;
  worker_log : list WorkerRow;
  firm_log : list FirmRow
}.

Definition with_workers (ws : list Worker.t) (m : model) : model :=
  mk (p m) ws (firms m) (random m) (t m) (worker_log m) (firm_log m).
Definition with_firms (fs : list Firm.t) (m : model) : model :=
  mk (p m) (workers m) fs (random m) (t m) (worker_log m) (firm_log m).
Definition with_random (r : RandomSource) (m : model) : model :=
  mk (p m) (workers m) (firms m) r (t m) (worker_log m) (firm_log m).
Definition with_t (n : nat) (m : model) : model :=
  mk (p m) (workers m) (firms m) (random m) n (worker_log m) (firm_log m).
Definition with_logs (wl : list WorkerRow) (fl : list FirmRow) (m : model) : model :=
  mk (p m) (workers m) (firms m) (random m) (t m) wl fl.
End Market.

(** ** The monad of methods: state passing over the model, with exceptions *)

Definition M (A : Type) : Type := Market.model -> result (A * Market.model).

Definition ret {A} (a : A) : M A := fun m => Ok (a, m).

Definition bind {A B} (c : M A) (k : A -> M B) : M B :=
  fun m => match c m with
           | Ok (a, m') => k a m'
           | Raise e => Raise e
           end.

Definition raise {A} (e : exn) : M A := fun _ => Raise e.

Definition lift {A} (r : result A) : M A :=
  fun m => match r with Ok a => Ok (a, m) | Raise e => Raise e end.

Notation "x <- c ;; k" := (bind c (fun x => k))
  (at level 100, c at next level, right associativity).
Notation "c ;;; k" := (bind c (fun _ => k))
  (at level 100, right associativity).

(** [for x in xs: body(x)]. *)
Fixpoint for_each {A} (xs : list A) (body : A -> M unit) : M unit :=
  match xs with
  | [] => ret tt
  | x :: rest => body x ;;; for_each rest body
  end.

(** [[f(x) for x in xs]]. *)
Fixpoint map_each {A B} (xs : list A) (f : A -> M B) : M (list B) :=
  match xs with
  | [] => ret []
  | x :: rest => y <- f x ;; ys <- map_each rest f ;; ret (y :: ys)
  end.

Definition get : M Market.model := fun m => Ok (m, m).

Definition get_worker (i : nat) : M Worker.t :=
  fun m => match Market.workers m !! i with
           | Some w => Ok (w, m)
           | None => Raise InvalidReference
           end.

Definition get_firm (j : nat) : M Firm.t :=
  fun m => match Market.firms m !! j with
           | Some f => Ok (f, m)
           | None => Raise InvalidReference
           end.

Definition put_worker (i : nat) (w : Worker.t) : M unit :=
  fun m => Ok (tt, Market.with_workers (<[i := w]> (Market.workers m)) m).

Definition put_firm (j : nat) (f : Firm.t) : M unit :=
  fun m => Ok (tt, Market.with_firms (<[j := f]> (Market.firms m)) m).

(** Running a generator operation on the model's random source. *)
Definition with_rng {A} (op : RandomSource -> result (A * RandomSource)) : M A :=
  fun m => match op (Market.random m) with
           | Ok (a, r') => Ok (a, Market.with_random r' m)
           | Raise e => Raise e
           end.

(** [AgentList.random(n)] of agentpy: one [choice] when [n == 1], a sample
    without replacement otherwise. *)
Definition agents_random {A} (xs : list A) (n : Z) : M (list A) :=
  if (n =? 1)%Z then a <- with_rng (choice xs) ;; ret [a]
  else with_rng (sample xs n).

(** List helpers used by the methods. *)

(** [xs[i]]. *)
Definition list_get {A} (xs : list A) (i : nat) : result A :=
  match xs !! i with
  | Some a => Ok a
  | None => Raise IndexError
  end.

(** [xs.remove(x)] when [x in xs]: drops the first occurrence. *)
Fixpoint remove_first (x : nat) (xs : list nat) : list nat :=
  match xs with
  | [] => []
  | y :: rest => if decide (y = x) then rest else y :: remove_first x rest
  end.

(** The references (positions from [j]) of the firms that [keep] holds of:
    [firms.select(...)]. *)
Fixpoint select_refs (keep : Firm.t -> bool) (fs : list Firm.t) (j : nat) : list nat :=
  match fs with
  | [] => []
  | f :: rest =>
      if keep f then j :: select_refs keep rest (S j)
      else select_refs keep rest (S j)
  end.

Fixpoint map_result {A B} (f : A -> result B) (xs : list A) : result (list B) :=
  match xs with
  | [] => Ok []
  | x :: rest =>
      match f x with
      | Ok y => match map_result f rest with
                | Ok ys => Ok (y :: ys)
                | Raise e => Raise e
                end
      | Raise e => Raise e
      end
  end.

(** ** Firm (models/firm.py) *)

(** The body of [Firm.calc_wage] on the two objects. *)
Definition wage_offer (f : Firm.t) (w : Worker.t) : Q :=
  let wage := (Firm.price f * Worker.prod w)%Q in
  if (Worker.d_class w =? Firm.d_class f)%Z
  then (wage * (1 - Firm.d_factor f))%Q
  else wage.

(** [Firm.calc_wage(self = firm j, worker = worker i)]. *)
Definition calc_wage (j i : nat) : M Q :=
  f <- get_firm j ;;
  w <- get_worker i ;;
  ret (wage_offer f w).

(** [Firm.set_size]. *)
Definition set_size (j : nat) : M unit :=
  f <- get_firm j ;;
  es <- map_each (Firm.employees f) get_worker ;;
  put_firm j
    (Firm.with_sizes
       (length (Firm.employees f))
       (length (filter (fun e => Worker.d_class e = 0%Z) es))
       (length (filter (fun e => Worker.d_class e = 1%Z) es))
       f).

(** [Firm.hire]. *)
Definition hire (j i : nat) : M unit :=
  f <- get_firm j ;;
  (if bool_decide (i ∈ Firm.employees f) then ret tt
   else put_firm j (Firm.with_employees (Firm.employees f ++ [i]) f)) ;;;
  set_size j.

(** [Firm.separate]. *)
Definition separate (j i : nat) : M unit :=
  f <- get_firm j ;;
  (if bool_decide (i ∈ Firm.employees f)
   then put_firm j (Firm.with_employees (remove_first i (Firm.employees f)) f)
   else ret tt) ;;;
  set_size j.

(** [Firm.produce]. *)
Definition produce (j : nat) : M unit :=
  f <- get_firm j ;;
  es <- map_each (Firm.employees f) get_worker ;;
  let made (e : Worker.t) := (Worker.prod e * Worker.hrs e)%Q in
  put_firm j
    (Firm.with_outputs
       (Qsum (map made es))
       (Qsum (map made (filter (fun e => Worker.d_class e = 0%Z) es)))
       (Qsum (map made (filter (fun e => Worker.d_class e = 1%Z) es)))
       f).

(** [Firm.calc_profit]. *)
Definition calc_profit (j : nat) : M unit :=
  f <- get_firm j ;;
  es <- map_each (Firm.employees f) get_worker ;;
  let revenue := (Firm.output f * Firm.price f)%Q in
  let costs := Qsum (map (fun e => (Worker.wage e * Worker.hrs e)%Q) es) in
  put_firm j (Firm.with_accounts costs revenue (revenue - costs)%Q f).

(** [Firm.setup], for the firm created with identifier [fid]. *)
Definition firm_setup (fid : nat) : M Firm.t :=
  m <- get ;;
  let range := Params.d_range (Market.p m) in
  u <- with_rng (fun r => Ok (uniform (fst range) (snd range) r)) ;;
  ret (Firm.mk fid (round2 u) (Params.d_class (Market.p m))
         [] 0 0 0 1 0 0 0 0 0 0).

(** ** Worker (models/worker.py) *)

(** [Worker.setup], for the worker created with identifier [wid]. *)
Definition worker_setup (wid : nat) : M Worker.t :=
  m <- get ;;
  let range := Params.prod_range (Market.p m) in
  c <- with_rng (choice [1%Z; 0%Z]) ;;
  x <- with_rng (randint (fst range) (snd range)) ;;
  ret (Worker.mk wid c (inject_Z x)
         ((inject_Z (snd range) + inject_Z (fst range)) / 2)%Q
         8 false 0 None None None false false None).

(** [Worker.update_employer]. *)
Definition update_employer (i : nat) (firm : option nat) : M unit :=
  w <- get_worker i ;;
  match firm with
  | Some j =>
      f <- get_firm j ;;
      put_worker i
        (Worker.with_employer (Some j) (Some (Firm.id f)) (Some (Firm.size f)) w)
  | None => put_worker i (Worker.with_employer None None None w)
  end.

(** [Worker.switch_employer]. *)
Definition switch_employer (i j : nat) : M unit :=
  w <- get_worker i ;;
  match Worker.employer w with
  | Some old => separate old i
  | None => ret tt
  end ;;;
  hire j i ;;;
  update_employer i (Some j).

(** The computation of [Worker.calc_avg_d] on the firms of the model. *)
Definition avg_d (fs : list Firm.t) (weighted : bool) : result fnum :=
  let firms := filter (fun f => 0 < Firm.size f) fs in
  if weighted then
    let size := sum_list (map Firm.size firms) in
    match
      map_result
        (fun f =>
           match py_div (inject_Z (Z.of_nat (Firm.size f)))
                        (inject_Z (Z.of_nat size)) with
           | Ok share => Ok (Firm.d_factor f * share)%Q
           | Raise e => Raise e
           end)
        firms
    with
    | Ok terms => Ok (Fin (Qsum terms))
    | Raise e => Raise e
    end
  else Ok (np_mean (map Firm.d_factor firms)).

(** [Worker.calc_avg_d]. *)
Definition calc_avg_d (weighted : bool) : M fnum :=
  m <- get ;;
  lift (avg_d (Market.firms m) weighted).

(** [Worker.get_education]. *)
Definition get_education (i : nat) (premium : Q) : M unit :=
  w <- get_worker i ;;
  let w1 := Worker.with_prod (Worker.prod w * (1 + premium))%Q
              (Worker.with_educ true w) in
  put_worker i w1 ;;;
  match Worker.employer w1 with
  | Some j =>
      wage <- calc_wage j i ;;
      put_worker i (Worker.with_wage wage w1)
  | None => ret tt
  end.

(** The two terms of the cost-benefit test of [Worker.education_decision]. *)
Definition education_cost (w : Worker.t) (premium : Q) : result Q :=
  py_div (Worker.avg_prod w ^ 2 * premium)%Q (Worker.prod w).

Definition education_benefit (w : Worker.t) (premium : Q) (weighted : bool) : M fnum :=
  let benefit := Fin (Worker.prod w * premium)%Q in
  if (Worker.d_class w =? 1)%Z then
    d_avg <- calc_avg_d weighted ;;
    ret (fmul benefit (fsub (Fin 1) d_avg))
  else ret benefit.

(** [Worker.education_decision]. *)
Definition education_decision (i : nat) (premium : Q) (weighted : bool) : M unit :=
  w <- get_worker i ;;
  cost <- lift (education_cost w premium) ;;
  benefit <- education_benefit w premium weighted ;;
  if fgtb benefit (Fin cost) then get_education i premium
  else if feqb benefit (Fin cost) then
    c <- with_rng (choice [true; false]) ;;
    if c : bool then get_education i premium else ret tt
  else ret tt.

(** The test [firm.id != self.employer_id] of [select_firms]. *)
Definition other_firm (w : Worker.t) (f : Firm.t) : bool :=
  negb (bool_decide (Some (Firm.id f) = Worker.employer_id w)).

(** [Worker.select_firms]. *)
Definition select_firms (i : nat) (n : Z) : M (list nat) :=
  w <- get_worker i ;;
  m <- get ;;
  agents_random (select_refs (other_firm w) (Market.firms m) 0) n.

(** [Worker.rank_firms]. *)
Definition rank_firms (i : nat) (n : Z) : M (nat * Q) :=
  firms <- select_firms i n ;;
  wages <- map_each firms (fun j => calc_wage j i) ;;
  top <- lift (py_max wages) ;;
  max_idx <- lift (py_index top wages) ;;
  firm <- lift (list_get firms max_idx) ;;
  wage <- lift (list_get wages max_idx) ;;
  ret (firm, wage).

(** [Worker.firm_selection]. *)
Definition firm_selection (i : nat) (n : Z) : M unit :=
  w <- get_worker i ;;
  put_worker i (Worker.with_search true w) ;;;
  best <- rank_firms i n ;;
  w <- get_worker i ;;
  if Qgtb (snd best) (Worker.wage w) then
    put_worker i (Worker.with_wage (snd best) (Worker.with_switched (Some true) w)) ;;;
    switch_employer i (fst best)
  else ret tt.

(** ** Market (models/market.py) *)

Module MarketOps.

(** The model before [setup]: no agents yet. *)
Definition init (p : Params.t) (r : RandomSource) : Market.model :=
  Market.mk p [] [] r 0 [] [].

(** The body of the loop of [Market.setup]: worker [i] joins firm [i] and
    is paid by it. *)
Definition setup_pair (i : nat) : M unit :=
  update_employer i (Some i) ;;;
  hire i i ;;;
  wage <- calc_wage i i ;;
  w <- get_worker i ;;
  put_worker i (Worker.with_wage wage w).

(** [Market.setup]. Agent identifiers follow creation order; the model
    itself holds identifier 0. *)
Definition setup : M unit :=
  m <- get ;;
  let n := Params.n_workers (Market.p m) in
  ws <- map_each (seq 0 n) (fun k => worker_setup (1 + k)) ;;
  (fun m => Ok (tt, Market.with_workers ws m)) ;;;
  fs <- map_each (seq 0 (2 * n + 1)) (fun k => firm_setup (1 + n + k)) ;;
  (fun m => Ok (tt, Market.with_firms fs m)) ;;;
  for_each (seq 0 n) setup_pair.

(** [self.workers.employer_size = self.workers.employer.size]. *)
Definition refresh_employer_size (i : nat) : M unit :=
  w <- get_worker i ;;
  match Worker.employer w with
  | Some j =>
      f <- get_firm j ;;
      put_worker i (Worker.with_employer_size (Some (Firm.size f)) w)
  | None => raise AttributeError
  end.

(** [Market.step]. *)
Definition step : M unit :=
  m <- get ;;
  let prm := Market.p m in
  let everyone := seq 0 (length (Market.workers m)) in
  for_each everyone (fun i =>
    w <- get_worker i ;; put_worker i (Worker.with_search false w)) ;;;
  for_each everyone (fun i =>
    w <- get_worker i ;; put_worker i (Worker.with_switch false w)) ;;;
  workers_sel <-
    agents_random everyone
      (Qceiling (inject_Z (Z.of_nat (Params.n_workers prm)) * Params.active prm)) ;;
  for_each workers_sel (fun i =>
    w <- get_worker i ;;
    if Worker.educ w then ret tt
    else education_decision i (Params.premium prm) (Params.weighted prm)) ;;;
  for_each workers_sel (fun i =>
    firm_selection i (Z.of_nat (Params.sample prm))) ;;;
  for_each everyone refresh_employer_size ;;;
  m <- get ;;
  let every_firm := seq 0 (length (Market.firms m)) in
  for_each every_firm produce ;;;
  for_each every_firm calc_profit.

Definition worker_row (now : nat) (w : Worker.t) : WorkerRow :=
  mkWorkerRow now (Worker.id w) (Worker.d_class w) (Worker.prod w)
    (Worker.hrs w) (Worker.employer w) (Worker.employer_id w)
    (Worker.employer_size w) (Worker.wage w) (Worker.educ w)
    (Worker.search w) (Worker.switch w).

Definition firm_row (now : nat) (f : Firm.t) : FirmRow :=
  mkFirmRow now (Firm.id f) (Firm.d_factor f) (Firm.size f)
    (Firm.size_0 f) (Firm.size_1 f) (Firm.output f) (Firm.output_0 f)
    (Firm.output_1 f) (Firm.costs f) (Firm.revenue f) (Firm.profit f).

(** [Market.update]. *)
Definition update : M unit :=
  fun m =>
    Ok (tt,
        Market.with_logs
          (Market.worker_log m ++ map (worker_row (Market.t m)) (Market.workers m))
          (Market.firm_log m ++ map (firm_row (Market.t m)) (Market.firms m))
          m).

(** One iteration of the run loop of agentpy: advance the clock, [step],
    [update]. *)
Definition sim_step : M unit :=
  (fun m => Ok (tt, Market.with_t (S (Market.t m)) m)) ;;;
  step ;;;
  update.

Fixpoint sim_loop (k : nat) : M unit :=
  match k with
  | 0 => ret tt
  | S k' => sim_step ;;; sim_loop k'
  end.

(** [Market(parameters).run()]: [setup], a first [update], then [steps]
    iterations. *)
Definition run (p : Params.t) (r : RandomSource) : result Market.model :=
  match (setup ;;; update ;;; sim_loop (Params.steps p)) (init p r) with
  | Ok (_, m) => Ok m
  | Raise e => Raise e
  end.

End MarketOps.


(** * Predicates on the state of the model *)

(** How many of the workers referenced by [es] are of class [c]. *)
Definition class_count (ws : list Worker.t) (c : Z) (es : list nat) : nat :=
  length (filter (fun i => Worker.d_class <$> ws !! i = Some c) es).

(** The firm [f] after [set_size], with the workers [ws] in the arena. *)
Definition resized (ws : list Worker.t) (f : Firm.t) : Firm.t :=
  Firm.with_sizes (length (Firm.employees f))
    (class_count ws 0 (Firm.employees f))
    (class_count ws 1 (Firm.employees f)) f.

(** Every reference of a roster points to a worker. *)
Definition roster_valid (ws : list Worker.t) (es : list nat) : Prop :=
  Forall (fun i => is_Some (ws !! i)) es.

(** The roster after [hire]. *)
Definition hired (i : nat) (es : list nat) : list nat :=
  if bool_decide (i ∈ es) then es else es ++ [i].

(** The worker [w] after the first two assignments of [get_education]. *)
Definition educated (premium : Q) (w : Worker.t) : Worker.t :=
  Worker.with_prod (Worker.prod w * (1 + premium))%Q (Worker.with_educ true w).

(** The worker [w] after [get_education], with the firms [fs] in the arena:
    an employed worker is paid anew by its employer. *)
Definition educated_paid (premium : Q) (fs : list Firm.t) (w : Worker.t)
  : option Worker.t :=
  let w1 := educated premium w in
  match Worker.employer w with
  | Some j =>
      match fs !! j with
      | Some f => Some (Worker.with_wage (wage_offer f w1) w1)
      | None => None
      end
  | None => Some w1
  end.

(** The size fields of [f] agree with its roster. *)
Definition sizes_ok (ws : list Worker.t) (f : Firm.t) : Prop :=
  Firm.size f = length (Firm.employees f) /\
  Firm.size_0 f = class_count ws 0 (Firm.employees f) /\
  Firm.size_1 f = class_count ws 1 (Firm.employees f).

(** Rosters and employer references agree, except possibly for the worker
    [x] that is being moved. *)
Record linked_except (x : option nat) (ws : list Worker.t) (fs : list Firm.t)
  : Prop := mkLinked {
  le_class : forall i w, ws !! i = Some w ->
    Worker.d_class w = 0%Z \/ Worker.d_class w = 1%Z;
  le_link : forall i w j, Some i <> x -> ws !! i = Some w ->
    Worker.employer w = Some j ->
    exists f, fs !! j = Some f /\ Worker.employer_id w = Some (Firm.id f) /\
              i ∈ Firm.employees f;
  le_roster : forall j f i, Some i <> x -> fs !! j = Some f ->
    i ∈ Firm.employees f ->
    exists w, ws !! i = Some w /\ Worker.employer w = Some j;
  le_valid : forall j f, fs !! j = Some f -> roster_valid ws (Firm.employees f);
  le_nodup : forall j f, fs !! j = Some f -> NoDup (Firm.employees f);
  le_sizes : forall j f, fs !! j = Some f -> sizes_ok ws f;
  le_ids : forall j j' f f', fs !! j = Some f -> fs !! j' = Some f' ->
    Firm.id f = Firm.id f' -> j = j'
}.

(** The bidirectional consistency of rosters and employers. *)
Definition consistent (m : Market.model) : Prop :=
  linked_except None (Market.workers m) (Market.firms m).

Definition all_employed (m : Market.model) : Prop :=
  forall i w, Market.workers m !! i = Some w -> is_Some (Worker.employer w).

(** The model once worker [i] (currently [w]) has raised its [search] flag,
    the first assignment of [firm_selection]. *)
Definition searching (i : nat) (w : Worker.t) (m : Market.model) : Market.model :=
  Market.with_workers (<[i := Worker.with_search true w]> (Market.workers m)) m.

(** What employer search never touches in a worker. *)
Definition same_person (w w' : Worker.t) : Prop :=
  Worker.id w' = Worker.id w /\ Worker.d_class w' = Worker.d_class w /\
  Worker.prod w' = Worker.prod w /\ Worker.avg_prod w' = Worker.avg_prod w /\
  Worker.hrs w' = Worker.hrs w /\ Worker.educ w' = Worker.educ w.

(** What no method touches in a firm after its creation. *)
Definition same_firm (f f' : Firm.t) : Prop :=
  Firm.id f' = Firm.id f /\ Firm.d_factor f' = Firm.d_factor f /\
  Firm.d_class f' = Firm.d_class f /\ Firm.price f' = Firm.price f.

(** The state invariant of a run: rosters and employers agree, everybody is
    employed, and the population is the configured one. *)
Definition well_formed (m : Market.model) : Prop :=
  consistent m /\ all_employed m /\
  length (Market.workers m) = Params.n_workers (Market.p m).

(** The states at the boundary of a completed [setup], [step] or [update]
    (and of the clock tick of the run loop). *)
Inductive reachable : Market.model -> Prop :=
| reach_setup p r m :
    MarketOps.setup (MarketOps.init p r) = Ok (tt, m) -> reachable m
| reach_tick m :
    reachable m -> reachable (Market.with_t (S (Market.t m)) m)
| reach_step m m' :
    reachable m -> MarketOps.step m = Ok (tt, m') -> reachable m'
| reach_update m m' :
    reachable m -> MarketOps.update m = Ok (tt, m') -> reachable m'.

(** A worker as [Worker.setup] leaves it, for the productivity range
    [range]. *)
Definition fresh_worker (range : Z * Z) (w : Worker.t) : Prop :=
  (Worker.d_class w = 0%Z \/ Worker.d_class w = 1%Z) /\
  (exists x, Worker.prod w = inject_Z x /\ (fst range <= x <= snd range)%Z) /\
  Worker.avg_prod w = ((inject_Z (snd range) + inject_Z (fst range)) / 2)%Q /\
  Worker.hrs w = 8%Q /\ Worker.educ w = false /\ Worker.wage w = 0%Q /\
  Worker.employer w = None /\ Worker.employer_id w = None /\
  Worker.search w = false /\ Worker.switch w = false.

(** A firm as [Firm.setup] leaves it. *)
Definition fresh_firm (prm : Params.t) (fid : nat) (f : Firm.t) : Prop :=
  Firm.id f = fid /\ Firm.d_class f = Params.d_class prm /\
  Firm.employees f = [] /\ Firm.size f = 0 /\ Firm.size_0 f = 0 /\
  Firm.size_1 f = 0 /\ Firm.price f = 1%Q /\
  exists frac, (0 <= frac < 1)%Q /\
    Firm.d_factor f =
    round2 (fst (Params.d_range prm)
            + (snd (Params.d_range prm) - fst (Params.d_range prm)) * frac)%Q.

(** The invariant of the loop of [setup]: rosters and employers agree, and a
    worker is either unemployed or employed by the firm of its own index. *)
Definition setup_inv (m : Market.model) : Prop :=
  consistent m /\
  (forall i w, Market.workers m !! i = Some w ->
     Worker.employer w = None \/ Worker.employer w = Some i) /\
  length (Market.workers m) = Params.n_workers (Market.p m).

(** [later m m']: the run loop leads from [m] to [m'] through completed clock
    ticks, steps and updates. *)
Inductive later (m : Market.model) : Market.model -> Prop :=
| later_now : later m m
| later_tick m1 :
    later m m1 -> later m (Market.with_t (S (Market.t m1)) m1)
| later_step m1 m2 :
    later m m1 -> MarketOps.step m1 = Ok (tt, m2) -> later m m2
| later_update m1 m2 :
    later m m1 -> MarketOps.update m1 = Ok (tt, m2) -> later m m2.


(** What stays of [Firm.setup] in a firm for the whole run. *)
Definition static_firm (prm : Params.t) (f : Firm.t) : Prop :=
  Firm.price f = 1%Q /\ Firm.d_class f = Params.d_class prm /\
  exists frac, (0 <= frac < 1)%Q /\
    Firm.d_factor f =
    round2 (fst (Params.d_range prm)
            + (snd (Params.d_range prm) - fst (Params.d_range prm)) * frac)%Q.

(** What [Worker.setup] drew for a worker and never changes before its
    education. *)
Definition drawn_worker (prm : Params.t) (w : Worker.t) : Prop :=
  (exists x, Worker.prod w = inject_Z x /\
     (fst (Params.prod_range prm) <= x <= snd (Params.prod_range prm))%Z) /\
  Worker.hrs w = 8%Q /\ Worker.educ w = false.

(** A worker paid the offer of some firm of the run. *)
Definition paid_by_offer (prm : Params.t) (w : Worker.t) : Prop :=
  exists f, static_firm prm f /\ Worker.wage w = wage_offer f w.

(** The configuration of the worked example of the specification: two
    workers of productivity 10, no discount, no premium, everybody active,
    one firm sampled, one step.  The options the example leaves open are
    parameters. *)
Definition flat_params (seed : N) (weighted : bool) (d_class : Z) : Params.t :=
  Params.mk seed 1 2 (10, 10)%Z (0, 0)%Q 0 weighted d_class 1 1.

(** Every worker produces 10 per hour for 8 hours at the wage 10, and every
    firm sells at price 1 without discount. *)
Definition flat (m : Market.model) : Prop :=
  (forall i w, Market.workers m !! i = Some w ->
     (Worker.prod w == 10)%Q /\ Worker.hrs w = 8%Q /\ (Worker.wage w == 10)%Q) /\
  (forall j f, Market.firms m !! j = Some f ->
     Firm.price f = 1%Q /\ (Firm.d_factor f == 0)%Q).

Definition flat_inv (prm : Params.t) (m : Market.model) : Prop :=
  well_formed m /\ flat m /\ Market.p m = prm /\ 2 <= length (Market.firms m).

(** Firm [j] has produced 80 units per employee. *)
Definition output_flat (j : nat) (m : Market.model) : Prop :=
  forall f, Market.firms m !! j = Some f ->
    (Firm.output f == 80 * inject_Z (Z.of_nat (length (Firm.employees f))))%Q.

(** Firm [j] breaks even. *)
Definition profit_zero (j : nat) (m : Market.model) : Prop :=
  forall f, Market.firms m !! j = Some f -> (Firm.profit f == 0)%Q.

(** The clock and the recorded rows are the same in [m] and [m']. *)
Definition same_records (m m' : Market.model) : Prop :=
  Market.t m' = Market.t m /\
  Market.worker_log m' = Market.worker_log m /\
  Market.firm_log m' = Market.firm_log m.

(** Two moments of a run under a relation [R] on workers: same parameters,
    workers related one by one. *)
Definition evolved (R : Worker.t -> Worker.t -> Prop) (m m' : Market.model)
  : Prop :=
  Market.p m' = Market.p m /\ Forall2 R (Market.workers m) (Market.workers m').

(** No worker carries a raised [switch] flag. *)
Definition switch_reset (m : Market.model) : Prop :=
  forall i w, Market.workers m !! i = Some w -> Worker.switch w = false.

(** The outputs of [f] are those of its present roster, with the workers
    [ws] in the arena. *)
Definition produced (ws : list Worker.t) (f : Firm.t) : Prop :=
  exists es,
    Forall2 (fun i w => ws !! i = Some w) (Firm.employees f) es /\
    Firm.output f = Qsum (map (fun e => Worker.prod e * Worker.hrs e)%Q es) /\
    Firm.output_0 f =
      Qsum (map (fun e => Worker.prod e * Worker.hrs e)%Q
              (filter (fun e => Worker.d_class e = 0%Z) es)) /\
    Firm.output_1 f =
      Qsum (map (fun e => Worker.prod e * Worker.hrs e)%Q
              (filter (fun e => Worker.d_class e = 1%Z) es)).

(** The accounts of [f] are those of its present roster and output. *)
Definition accounted (ws : list Worker.t) (f : Firm.t) : Prop :=
  exists es,
    Forall2 (fun i w => ws !! i = Some w) (Firm.employees f) es /\
    Firm.revenue f = (Firm.output f * Firm.price f)%Q /\
    Firm.costs f = Qsum (map (fun e => Worker.wage e * Worker.hrs e)%Q es) /\
    Firm.profit f = (Firm.revenue f - Firm.costs f)%Q.

(** Worker [w] once [Market.setup] has paired it with firm [f], of index
    [i]: the employer fields are read off the firm as it is before it hires,
    the wage is the firm's offer. *)
Definition paired_worker (i : nat) (f : Firm.t) (w : Worker.t) : Worker.t :=
  let w1 := Worker.with_employer (Some i) (Some (Firm.id f))
              (Some (Firm.size f)) w in
  Worker.with_wage (wage_offer f w1) w1.

(** Firm [f] once it has hired the worker of its own index [i]. *)
Definition paired_firm (ws : list Worker.t) (i : nat) (f : Firm.t) : Firm.t :=
  resized ws (Firm.with_employees (hired i (Firm.employees f)) f).

(** The agents after the first [k] iterations of the loop of [Market.setup]
    on the workers [ws] and the firms [fs]. *)
Definition paired_upto (ws : list Worker.t) (fs : list Firm.t) (k : nat)
    (m : Market.model) : Prop :=
  length (Market.workers m) = length ws /\
  length (Market.firms m) = length fs /\
  (forall i w, ws !! i = Some w ->
     if i <? k
     then exists f, fs !! i = Some f /\
                    Market.workers m !! i = Some (paired_worker i f w)
     else Market.workers m !! i = Some w) /\
  (forall j f, fs !! j = Some f ->
     Market.firms m !! j = Some (if j <? k then paired_firm ws j f else f)).

(** What a worker of index [i] is at any moment of a run with parameters
    [prm]: the fields [Worker.setup] fixed, and a productivity that is the
    integer drawn at setup, raised by the premium exactly when the worker is
    educated. *)
Definition worker_shape (prm : Params.t) (i : nat) (w : Worker.t) : Prop :=
  Worker.id w = 1 + i /\ Worker.hrs w = 8%Q /\
  Worker.avg_prod w =
    ((inject_Z (snd (Params.prod_range prm))
      + inject_Z (fst (Params.prod_range prm))) / 2)%Q /\
  (Worker.d_class w = 0%Z \/ Worker.d_class w = 1%Z) /\
  exists x, (fst (Params.prod_range prm) <= x <= snd (Params.prod_range prm))%Z /\
    Worker.prod w = if Worker.educ w
                    then (inject_Z x * (1 + Params.premium prm))%Q
                    else inject_Z x.

(** The wage of [w] is the present offer of its employer among [fs]. *)
Definition paid_by_employer (fs : list Firm.t) (w : Worker.t) : Prop :=
  exists j f, Worker.employer w = Some j /\ fs !! j = Some f /\
              Worker.wage w = wage_offer f w.

(** The invariant of a run with parameters [prm]. *)
Definition sound (prm : Params.t) (m : Market.model) : Prop :=
  well_formed m /\ Market.p m = prm /\
  length (Market.firms m) = 2 * Params.n_workers prm + 1 /\
  (forall j f, Market.firms m !! j = Some f ->
     static_firm prm f /\ Firm.id f = 1 + Params.n_workers prm + j) /\
  (forall i w, Market.workers m !! i = Some w ->
     worker_shape prm i w /\ paid_by_employer (Market.firms m) w).

(** The configurations under which a run cannot fail: a productivity range
    of positive integers, a share of active workers between 0 and 1, a
    sample of at least one firm and at most all the firms but the employer,
    ranges and a premium of moderate magnitude, and a population that a
    double counts exactly. *)
Definition runnable (p : Params.t) : Prop :=
  (1 <= fst (Params.prod_range p))%Z /\
  (fst (Params.prod_range p) <= snd (Params.prod_range p))%Z /\
  (0 <= Params.active p)%Q /\ (Params.active p <= 1)%Q /\
  1 <= Params.sample p /\ Params.sample p <= 2 * Params.n_workers p /\
  (snd (Params.prod_range p) <= 10 ^ 100)%Z /\
  (Qabs (fst (Params.d_range p)) <= 10 ^ 100)%Q /\
  (Qabs (snd (Params.d_range p)) <= 10 ^ 100)%Q /\
  (Qabs (Params.premium p) <= 10 ^ 100)%Q /\
  (Z.of_nat (Params.n_workers p) < 2 ^ 53)%Z.

(** No worker of [m] is paid less than it was paid in [ws0]. *)
Definition no_pay_cut (ws0 : list Worker.t) (m : Market.model) : Prop :=
  Forall2 (fun w w' => (Worker.wage w <= Worker.wage w')%Q)
    ws0 (Market.workers m).

(** The workers of [m] whose [search] flag is raised are those of [xs]. *)
Definition searched (xs : list nat) (m : Market.model) : Prop :=
  forall i w, Market.workers m !! i = Some w ->
    (Worker.search w = true <-> i ∈ xs).

(** Nothing but the flags and the employer size differs between [w] and
    [w']. *)
Definition untouched (w w' : Worker.t) : Prop :=
  same_person w w' /\ Worker.wage w' = Worker.wage w /\
  Worker.employer w' = Worker.employer w /\
  Worker.employer_id w' = Worker.employer_id w.

(** The workers of [ws0] outside [xs] are untouched in [m]. *)
Definition untouched_outside (xs : list nat) (ws0 : list Worker.t)
    (m : Market.model) : Prop :=
  forall i w, i ∉ xs -> ws0 !! i = Some w ->
    exists w', Market.workers m !! i = Some w' /\ untouched w w'.

(** ** Magnitudes

    The program computes with doubles, the model with rationals.  The
    predicates below single out the inputs at which the two agree on what a
    statement says. *)

(** A magnitude far inside the range of the doubles: no power, product or
    conversion of such numbers overflows. *)
Definition moderate (q : Q) : Prop := (Qabs q <= 10 ^ 100)%Q.

(** The ranges of a configuration are of moderate magnitude. *)
Definition moderate_ranges (p : Params.t) : Prop :=
  (- 10 ^ 100 <= fst (Params.prod_range p))%Z /\
  (snd (Params.prod_range p) <= 10 ^ 100)%Z /\
  moderate (fst (Params.d_range p)) /\ moderate (snd (Params.d_range p)).

(** An ordinary configuration: discounts are fractions, productivities and
    the premium are not negative, and productivities, premium and population
    stay below a million, so that every integer of a run is a double and no
    product of a run overflows. *)
Definition ordinary (p : Params.t) : Prop :=
  (0 <= fst (Params.d_range p))%Q /\
  (fst (Params.d_range p) <= snd (Params.d_range p))%Q /\
  (snd (Params.d_range p) <= 1)%Q /\
  (0 <= fst (Params.prod_range p))%Z /\
  (snd (Params.prod_range p) <= 10 ^ 6)%Z /\
  (0 <= Params.premium p)%Q /\ (Params.premium p <= 10 ^ 6)%Q /\
  (Z.of_nat (Params.n_workers p) <= 10 ^ 6)%Z.

(** The share [a] of [n] workers is computed without rounding: [a] is a
    dyadic fraction [c / 2^k] and [n * c] is below [2^53], so that [a], [n]
    and [n * a] are doubles. *)
Definition exact_share (n : nat) (a : Q) : Prop :=
  (Z.of_nat n < 2 ^ 53)%Z /\
  exists c k : nat,
    (a == inject_Z (Z.of_nat c) / inject_Z (2 ^ Z.of_nat k))%Q /\
    (Z.of_nat (n * c) < 2 ^ 53)%Z /\ k <= 1000.

(** * Concrete runs *)

(** Two workers, equal productivity 10, discount factors drawn in [0, 1],
    no education premium, everybody active, one firm sampled per search. *)
Definition demo_params : Params.t :=
  Params.mk 92 1 2 (10, 10)%Z (0, 1)%Q 0 true 1 1 1.

(** A random source under which the first two firms draw the discount 1/2,
    the others 0, and worker 0 samples firm 2 when it searches. *)
Definition demo_random : RandomSource :=
  mkRandom (fun n => match n with
                     | 4 | 5 => 4503599627370496%N
                     | 13 => 1%N
                     | _ => 0%N
                     end) 0.

Definition state_of (r : result (unit * Market.model)) (otherwise : Market.model)
  : Market.model :=
  match r with
  | Ok (_, m) => m
  | Raise _ => otherwise
  end.

(** The model after [setup] under [demo_params] and [demo_random]. *)
Definition demo_market : Market.model :=
  Eval vm_compute in
    state_of (MarketOps.setup (MarketOps.init demo_params demo_random))
             (MarketOps.init demo_params demo_random).

(** The model after [setup] and one [step]. *)
Definition demo_market_1 : Market.model :=
  Eval vm_compute in state_of (MarketOps.step demo_market) demo_market.

Definition worker_of (m : Market.model) (i : nat) : Worker.t :=
  match Market.workers m !! i with
  | Some w => w
  | None => Worker.mk 0 0 0 0 0 false 0 None None None false false None
  end.

(** Worker 0 after [setup]. *)
Definition demo_worker : Worker.t := Eval vm_compute in worker_of demo_market 0.

(** [demo_market] with the random source advanced to the draw of the search
    of worker 0. *)
Definition demo_search_market : Market.model :=
  Eval vm_compute in
    Market.with_random (mkRandom (gen demo_random) 13) demo_market.

(** [demo_search_market] after the [firm_selection] of worker 0. *)
Definition demo_switched_market : Market.model :=
  Eval vm_compute in
    state_of (firm_selection 0 1 demo_search_market) demo_search_market.

(** A model with one firm and nobody employed. *)
Definition idle_market : Market.model :=
  Market.mk demo_params [] [Firm.mk 1 (1 # 2) 1 [] 0 0 0 1 0 0 0 0 0 0]
    demo_random 0 [] [].

(** A configuration that discriminates against class 0, a firm of that
    configuration with one employee, and one worker of each class. *)
Definition class0_params : Params.t :=
  Params.mk 92 1 2 (10, 10)%Z (0, 1)%Q (1 # 5) true 0 1 1.

Definition class0_worker : Worker.t :=
  Worker.mk 1 0 10 10 8 false 5 (Some 0) (Some 3) (Some 1) false false None.

Definition class1_worker : Worker.t :=
  Worker.mk 2 1 10 10 8 false 10 (Some 1) (Some 4) (Some 1) false false None.

Definition class0_market : Market.model :=
  Market.mk class0_params [class0_worker; class1_worker]
    [Firm.mk 3 (1 # 2) 0 [0] 1 1 0 1 0 0 0 0 0 0;
     Firm.mk 4 (1 # 2) 0 [1] 1 0 1 1 0 0 0 0 0 0]
    demo_random 0 [] [].

(** A configuration whose productivity range starts at 0, and a random
    source that draws that lower bound. *)
Definition zero_params : Params.t :=
  Params.mk 92 1 1 (0, 20)%Z (0, 1)%Q (1 # 5) true 1 1 1.

Definition zero_random : RandomSource := mkRandom (fun _ => 0%N) 0.

(** The model after [setup] under [zero_params] and [zero_random]. *)
Definition zero_market : Market.model :=
  Eval vm_compute in
    state_of (MarketOps.setup (MarketOps.init zero_params zero_random))
             (MarketOps.init zero_params zero_random).

Definition result_of (r : result Market.model) (otherwise : Market.model)
  : Market.model :=
  match r with
  | Ok m => m
  | Raise _ => otherwise
  end.

(** The end of the run of the worked example, for one choice of the options
    it leaves open and one random source. *)
Definition flat_market : Market.model :=
  Eval vm_compute in
    result_of (MarketOps.run (flat_params 92 true 1) zero_random)
              (MarketOps.init (flat_params 92 true 1) zero_random).

(** The two experiments of config/exp_config.py: the base parameters of
    config/base_config.py with the premium 0 and with the premium 0.20. *)
Definition pd_zp : Params.t :=
  Params.mk 92 500 1000 (1, 20)%Z (0, 1)%Q 0 true 1 (35 # 1000) 10.

Definition pd_pp : Params.t :=
  Params.mk 92 500 1000 (1, 20)%Z (0, 1)%Q (20 # 100) true 1 (35 # 1000) 10.

(** One worker and three firms as [Market.setup] has them once the agents are
    created and before the worker joins its firm: nobody is employed. *)
Definition unpaired_market : Market.model :=
  Market.mk demo_params
    [Worker.mk 1 1 10 10 8 false 0 None None None false false None]
    [Firm.mk 2 (1 # 2) 1 [] 0 0 0 1 0 0 0 0 0 0;
     Firm.mk 3 (1 # 2) 1 [] 0 0 0 1 0 0 0 0 0 0;
     Firm.mk 4 0 1 [] 0 0 0 1 0 0 0 0 0 0]
    demo_random 0 [] [].






(** The same with a negative premium, −0.5, and a worker of productivity 10,
    below the mean. *)
Definition cut_params : Params.t :=
  Params.mk 92 1 1 (10, 12)%Z (0, 0)%Q (- (1 # 2)) true 1 1 1.

Definition cut_market_0 : Market.model :=
  Eval vm_compute in
    state_of (MarketOps.setup (MarketOps.init cut_params zero_random))
             (MarketOps.init cut_params zero_random).

Definition cut_market_1 : Market.model :=
  Eval vm_compute in state_of (MarketOps.step cut_market_0) cut_market_0.

(** [class0_market] with a first worker of productivity 12, above its mean
    productivity 11. *)
Definition keen_worker : Worker.t :=
  Worker.mk 1 0 12 11 8 false 6 (Some 0) (Some 3) (Some 1) false false None.

Definition keen_market : Market.model :=
  Market.mk class0_params [keen_worker; class1_worker]
    [Firm.mk 3 (1 # 2) 0 [0] 1 1 0 1 0 0 0 0 0 0;
     Firm.mk 4 (1 # 2) 0 [1] 1 0 1 1 0 0 0 0 0 0]
    demo_random 0 [] [].
(** * Reasoning about the methods *)

(** ** Inversion of the monadic operators *)

Lemma bind_Ok {A B} (c : M A) (k : A -> M B) m b m' :
  bind c k m = Ok (b, m') <->
  exists a m1, c m = Ok (a, m1) /\ k a m1 = Ok (b, m').
Proof.
  unfold bind. split.
  - destruct (c m) as [[a m1]|e]; [eauto | discriminate].
  - intros (a & m1 & -> & Hk). exact Hk.
Qed.

Lemma bind_Raise {A B} (c : M A) (k : A -> M B) m e :
  c m = Raise e -> bind c k m = Raise e.
Proof. unfold bind. intros ->. reflexivity. Qed.

Lemma bind_step {A B} (c : M A) (k : A -> M B) m a m1 :
  c m = Ok (a, m1) -> bind c k m = k a m1.
Proof. unfold bind. intros ->. reflexivity. Qed.

Lemma ret_Ok {A} (a b : A) m m' : ret a m = Ok (b, m') <-> b = a /\ m' = m.
Proof. unfold ret. split; [intros [= <- <-] | intros [-> ->]]; auto. Qed.

Lemma get_Ok m x m' : get m = Ok (x, m') <-> x = m /\ m' = m.
Proof. unfold get. split; [intros [= <- <-] | intros [-> ->]]; auto. Qed.

Lemma lift_Ok {A} (r : result A) a m m' :
  lift r m = Ok (a, m') <-> r = Ok a /\ m' = m.
Proof.
  unfold lift. destruct r; split; try discriminate.
  - intros [= <- <-]; auto.
  - intros [[= ->] ->]; auto.
  - intros [? _]; discriminate.
Qed.

Lemma get_worker_Ok i m w m' :
  get_worker i m = Ok (w, m') <-> Market.workers m !! i = Some w /\ m' = m.
Proof.
  unfold get_worker. destruct (Market.workers m !! i); split; try discriminate.
  - intros [= <- <-]; auto.
  - intros [[= ->] ->]; auto.
  - intros [? _]; discriminate.
Qed.

Lemma get_firm_Ok j m f m' :
  get_firm j m = Ok (f, m') <-> Market.firms m !! j = Some f /\ m' = m.
Proof.
  unfold get_firm. destruct (Market.firms m !! j); split; try discriminate.
  - intros [= <- <-]; auto.
  - intros [[= ->] ->]; auto.
  - intros [? _]; discriminate.
Qed.

Lemma put_worker_Ok i w m u m' :
  put_worker i w m = Ok (u, m') <->
  m' = Market.with_workers (<[i := w]> (Market.workers m)) m.
Proof.
  unfold put_worker. destruct u. split; [intros [= <-] | intros ->]; auto.
Qed.

Lemma put_firm_Ok j f m u m' :
  put_firm j f m = Ok (u, m') <->
  m' = Market.with_firms (<[j := f]> (Market.firms m)) m.
Proof.
  unfold put_firm. destruct u. split; [intros [= <-] | intros ->]; auto.
Qed.

Lemma with_rng_Ok {A} (op : RandomSource -> result (A * RandomSource)) m a m' :
  with_rng op m = Ok (a, m') <->
  exists r', op (Market.random m) = Ok (a, r') /\ m' = Market.with_random r' m.
Proof.
  unfold with_rng. split.
  - destruct (op (Market.random m)) as [[a0 r']|e]; [|discriminate].
    intros [= <- <-]. eauto.
  - intros (r' & -> & ->). reflexivity.
Qed.

(** Breaks a successful run of a method into the runs of its parts. *)
Ltac inv_step H :=
  first
    [ apply bind_Ok in H;
      let a := fresh "a" in
      let m1 := fresh "m" in
      let H1 := fresh "Hc" in
      destruct H as (a & m1 & H1 & H); inv_step H1
    | apply ret_Ok in H; destruct H as [? ?]; subst
    | apply get_Ok in H; destruct H as [? ?]; subst
    | apply lift_Ok in H; destruct H as [H ?]; subst
    | apply get_worker_Ok in H; destruct H as [H ?]; subst
    | apply get_firm_Ok in H; destruct H as [H ?]; subst
    | apply put_worker_Ok in H; subst
    | apply put_firm_Ok in H; subst
    | idtac ].

Ltac inv_run H := repeat (progress inv_step H).

(** ** Loops *)

Lemma for_each_inv {A} (P : Market.model -> Prop) (xs : list A) (body : A -> M unit) :
  (forall x m m', x ∈ xs -> P m -> body x m = Ok (tt, m') -> P m') ->
  forall m m', P m -> for_each xs body m = Ok (tt, m') -> P m'.
Proof.
  induction xs as [|x xs IH]; intros Hbody m m' HP Hrun; simpl in Hrun.
  - apply ret_Ok in Hrun as [_ ->]. exact HP.
  - apply bind_Ok in Hrun as ([] & m1 & Hx & Hrest).
    eapply IH; [ | | exact Hrest].
    + intros y n n' Hy. apply Hbody. by right.
    + eapply Hbody; [by left | exact HP | exact Hx].
Qed.

Lemma for_each_total {A} (P : Market.model -> Prop) (xs : list A) (body : A -> M unit) :
  (forall x m, x ∈ xs -> P m -> exists m', body x m = Ok (tt, m') /\ P m') ->
  forall m, P m -> exists m', for_each xs body m = Ok (tt, m') /\ P m'.
Proof.
  induction xs as [|x xs IH]; intros Hbody m HP; simpl.
  - exists m. split; [reflexivity | exact HP].
  - destruct (Hbody x m) as (m1 & Hx & HP1); [by left | exact HP |].
    destruct (IH (fun y n Hy => Hbody y n (list_elem_of_further _ _ _ Hy)) m1 HP1)
      as (m' & Hrest & HP').
    exists m'. split; [| exact HP'].
    erewrite bind_step; [exact Hrest | exact Hx].
Qed.

Lemma map_each_get_worker es m ws m' :
  map_each es get_worker m = Ok (ws, m') <->
  m' = m /\ Forall2 (fun i w => Market.workers m !! i = Some w) es ws.
Proof.
  revert ws. induction es as [|i es IH]; intros ws; simpl.
  - rewrite ret_Ok. split.
    + intros [-> ->]. split; [reflexivity | constructor].
    + intros [-> Hall]. inversion Hall. auto.
  - split.
    + intros H. apply bind_Ok in H as (w & m1 & Hw & H).
      apply get_worker_Ok in Hw as [Hw ->].
      apply bind_Ok in H as (ws' & m2 & Hrest & H).
      apply ret_Ok in H as [-> ->].
      apply IH in Hrest as [-> Hall]. split; [reflexivity | by constructor].
    + intros [-> Hall]. inversion Hall as [|? w ? ws' Hw Hall']; subst.
      erewrite bind_step; [| apply get_worker_Ok; eauto].
      erewrite bind_step; [| apply IH; eauto]. reflexivity.
Qed.

(** ** Firm methods *)

Lemma calc_wage_Ok j i m x m' :
  calc_wage j i m = Ok (x, m') <->
  exists f w, Market.firms m !! j = Some f /\ Market.workers m !! i = Some w /\
              x = wage_offer f w /\ m' = m.
Proof.
  unfold calc_wage. split.
  - intros H. inv_run H. eauto 6.
  - intros (f & w & Hf & Hw & -> & ->).
    erewrite bind_step; [| apply get_firm_Ok; eauto].
    erewrite bind_step; [| apply get_worker_Ok; eauto]. reflexivity.
Qed.

Lemma roster_workers ws es :
  roster_valid ws es -> exists l, Forall2 (fun i w => ws !! i = Some w) es l.
Proof.
  induction 1 as [|i es [w Hw] _ [l IH]].
  - exists []. constructor.
  - exists (w :: l). by constructor.
Qed.

Lemma roster_workers_valid ws es l :
  Forall2 (fun i w => ws !! i = Some w) es l -> roster_valid ws es.
Proof. induction 1; constructor; eauto. Qed.

Lemma class_count_workers ws es l c :
  Forall2 (fun i w => ws !! i = Some w) es l ->
  length (filter (fun e => Worker.d_class e = c) l) = class_count ws c es.
Proof.
  unfold class_count. induction 1 as [|i w es l Hw _ IH]; [reflexivity|].
  rewrite !filter_cons, Hw. simpl.
  destruct (decide (Worker.d_class w = c)) as [->|Hne].
  - rewrite decide_True by reflexivity. simpl. by rewrite IH.
  - rewrite decide_False by congruence. exact IH.
Qed.

Lemma set_size_Ok j m m' :
  set_size j m = Ok (tt, m') <->
  exists f, Market.firms m !! j = Some f /\
            roster_valid (Market.workers m) (Firm.employees f) /\
            m' = Market.with_firms
                   (<[j := resized (Market.workers m) f]> (Market.firms m)) m.
Proof.
  unfold set_size. split.
  - intros H. apply bind_Ok in H as (f & m1 & Hf & H).
    apply get_firm_Ok in Hf as [Hf ->].
    apply bind_Ok in H as (l & m2 & Hl & H).
    apply map_each_get_worker in Hl as [-> Hl].
    apply put_firm_Ok in H. exists f. split; [exact Hf|].
    split; [eapply roster_workers_valid; eauto|].
    subst m'. unfold resized.
    by rewrite !(class_count_workers _ _ _ _ Hl).
  - intros (f & Hf & Hv & ->).
    destruct (roster_workers _ _ Hv) as [l Hl].
    erewrite bind_step; [| apply get_firm_Ok; eauto].
    erewrite bind_step; [| apply map_each_get_worker; eauto].
    unfold put_firm, resized.
    by rewrite !(class_count_workers _ _ _ _ Hl).
Qed.

Lemma hire_Ok j i m m' :
  hire j i m = Ok (tt, m') <->
  exists f, Market.firms m !! j = Some f /\
            roster_valid (Market.workers m) (hired i (Firm.employees f)) /\
            m' = Market.with_firms
                   (<[j := resized (Market.workers m)
                             (Firm.with_employees (hired i (Firm.employees f)) f)]>
                      (Market.firms m)) m.
Proof.
  unfold hire, hired. split.
  - intros H. apply bind_Ok in H as (f & m1 & Hf & H).
    apply get_firm_Ok in Hf as [Hf ->].
    apply bind_Ok in H as ([] & m2 & Hput & H).
    apply set_size_Ok in H as (f' & Hf' & Hv & ->).
    exists f. split; [exact Hf|].
    destruct (bool_decide (i ∈ Firm.employees f)).
    + apply ret_Ok in Hput as [_ ->]. rewrite Hf in Hf'. injection Hf' as <-.
      split; [exact Hv|]. by destruct f.
    + apply put_firm_Ok in Hput. subst m2. simpl in *.
      rewrite list_lookup_insert_eq in Hf' by (eapply lookup_lt_Some; eauto).
      injection Hf' as <-. split; [exact Hv|].
      by rewrite list_insert_insert_eq.
  - intros (f & Hf & Hv & ->).
    erewrite bind_step; [| apply get_firm_Ok; eauto].
    destruct (bool_decide (i ∈ Firm.employees f)).
    + erewrite bind_step; [| reflexivity].
      apply set_size_Ok. exists f. split; [exact Hf|]. split; [exact Hv|].
      by destruct f.
    + erewrite bind_step; [| reflexivity].
      apply set_size_Ok. exists (Firm.with_employees (Firm.employees f ++ [i]) f).
      simpl. rewrite list_lookup_insert_eq by (eapply lookup_lt_Some; eauto).
      split; [reflexivity|]. split; [exact Hv|].
      by rewrite list_insert_insert_eq.
Qed.

Lemma separate_Ok j i m m' :
  separate j i m = Ok (tt, m') <->
  exists f, Market.firms m !! j = Some f /\
            roster_valid (Market.workers m) (remove_first i (Firm.employees f)) /\
            m' = Market.with_firms
                   (<[j := resized (Market.workers m)
                             (Firm.with_employees
                                (remove_first i (Firm.employees f)) f)]>
                      (Market.firms m)) m.
Proof.
  assert (Hid : forall es : list nat, i ∉ es -> remove_first i es = es).
  { induction es as [|y es IH]; intros Hni; simpl; [reflexivity|].
    destruct (decide (y = i)) as [->|_].
    - exfalso. apply Hni. by left.
    - rewrite IH; [reflexivity|]. intros Hi. apply Hni. by right. }
  unfold separate. split.
  - intros H. apply bind_Ok in H as (f & m1 & Hf & H).
    apply get_firm_Ok in Hf as [Hf ->].
    apply bind_Ok in H as ([] & m2 & Hput & H).
    apply set_size_Ok in H as (f' & Hf' & Hv & ->).
    exists f. split; [exact Hf|].
    destruct (bool_decide_reflect (i ∈ Firm.employees f)) as [Hi|Hi].
    + apply put_firm_Ok in Hput. subst m2. simpl in *.
      rewrite list_lookup_insert_eq in Hf' by (eapply lookup_lt_Some; eauto).
      injection Hf' as <-. split; [exact Hv|].
      by rewrite list_insert_insert_eq.
    + apply ret_Ok in Hput as [_ ->]. rewrite Hf in Hf'. injection Hf' as <-.
      rewrite (Hid _ Hi). split; [exact Hv|]. by destruct f.
  - intros (f & Hf & Hv & ->).
    erewrite bind_step; [| apply get_firm_Ok; eauto].
    destruct (bool_decide_reflect (i ∈ Firm.employees f)) as [Hi|Hi].
    + erewrite bind_step; [| reflexivity].
      apply set_size_Ok.
      exists (Firm.with_employees (remove_first i (Firm.employees f)) f).
      simpl. rewrite list_lookup_insert_eq by (eapply lookup_lt_Some; eauto).
      split; [reflexivity|]. split; [exact Hv|].
      by rewrite list_insert_insert_eq.
    + erewrite bind_step; [| reflexivity].
      rewrite (Hid _ Hi) in *.
      apply set_size_Ok. exists f. split; [exact Hf|]. split; [exact Hv|].
      by destruct f.
Qed.

(** ** Numbers and lists of numbers *)

Lemma Qgtb_lt x y : Qgtb x y = true <-> (y < x)%Q.
Proof.
  unfold Qgtb, Qltb. rewrite negb_true_iff. split.
  - intros H. apply Qnot_le_lt. intros Hle.
    apply Qle_bool_iff in Hle. congruence.
  - intros H. destruct (Qle_bool x y) eqn:E; [|reflexivity].
    apply Qle_bool_iff in E. exfalso. exact (Qlt_not_le _ _ H E).
Qed.

Lemma Qgtb_le x y : Qgtb x y = false <-> (x <= y)%Q.
Proof.
  unfold Qgtb, Qltb. rewrite negb_false_iff. apply Qle_bool_iff.
Qed.

Lemma py_div_Ok x y : ~ (y == 0)%Q -> py_div x y = Ok (x / y)%Q.
Proof.
  intros H. unfold py_div. destruct (Qeq_bool y 0) eqn:E; [|reflexivity].
  apply Qeq_bool_iff in E. contradiction.
Qed.

Lemma py_div_zero x y : (y == 0)%Q -> py_div x y = Raise ZeroDivisionError.
Proof.
  intros H. unfold py_div. apply Qeq_bool_iff in H. by rewrite H.
Qed.

(** The running maximum of [max] is an element and dominates the list. *)
Lemma running_max_spec rest x :
  let top := fold_left (fun acc y => if Qgtb y acc then y else acc) rest x in
  top ∈ x :: rest /\ forall y, y ∈ x :: rest -> (y <= top)%Q.
Proof.
  revert x. induction rest as [|z rest IH]; intros x; simpl.
  - split; [by left|]. intros y Hy. apply list_elem_of_singleton in Hy as ->.
    apply Qle_refl.
  - destruct (Qgtb z x) eqn:E.
    + destruct (IH z) as [Hin Hmax]. split.
      * right. exact Hin.
      * intros y Hy. apply elem_of_cons in Hy as [->|Hy].
        -- apply Qgtb_lt in E. eapply Qle_trans; [apply Qlt_le_weak, E|].
           apply Hmax. by left.
        -- apply Hmax. exact Hy.
    + destruct (IH x) as [Hin Hmax]. split.
      * apply elem_of_cons in Hin as [->|Hin]; [by left | by do 2 right].
      * intros y Hy. apply elem_of_cons in Hy as [->|Hy].
        -- apply Hmax. by left.
        -- apply elem_of_cons in Hy as [->|Hy].
           ++ apply Qgtb_le in E. eapply Qle_trans; [exact E|].
              apply Hmax. by left.
           ++ apply Hmax. by right.
Qed.

Lemma py_max_Ok xs top :
  py_max xs = Ok top -> top ∈ xs /\ forall y, y ∈ xs -> (y <= top)%Q.
Proof.
  destruct xs as [|x rest]; simpl; [discriminate|].
  intros [= <-]. apply running_max_spec.
Qed.

Lemma py_max_total xs : xs <> [] -> exists top, py_max xs = Ok top.
Proof. destruct xs; [congruence|]. simpl. eauto. Qed.

Lemma py_index_Ok v xs k :
  py_index v xs = Ok k ->
  exists x, xs !! k = Some x /\ (x == v)%Q /\
            forall k' y, k' < k -> xs !! k' = Some y -> ~ (y == v)%Q.
Proof.
  revert k. induction xs as [|x xs IH]; intros k; simpl; [discriminate|].
  destruct (Qeq_bool x v) eqn:E.
  - intros [= <-]. exists x. split; [reflexivity|].
    split; [by apply Qeq_bool_iff|]. intros; lia.
  - destruct (py_index v xs) as [i|e] eqn:Ei; [|discriminate].
    intros [= <-]. destruct (IH i eq_refl) as (y & Hy & Hyv & Hfirst).
    exists y. split; [exact Hy|]. split; [exact Hyv|].
    intros [|k'] z Hlt Hz; simpl in Hz.
    + injection Hz as <-. by apply Qeq_bool_neq.
    + eapply Hfirst; [|exact Hz]. lia.
Qed.

Lemma py_index_total v xs : v ∈ xs -> exists k, py_index v xs = Ok k.
Proof.
  induction xs as [|x xs IH]; intros Hin; [by apply elem_of_nil in Hin|].
  simpl. destruct (Qeq_bool x v) eqn:E; [eauto|].
  apply elem_of_cons in Hin as [->|Hin].
  - rewrite Qeq_bool_refl in E. discriminate.
  - destruct (IH Hin) as [k ->]. eauto.
Qed.

(** ** The random source *)

Lemma randbelow_lt k r : 0 < k -> fst (randbelow k r) < k.
Proof.
  intros Hk. unfold randbelow, next. cbn [fst].
  assert (gen r (pos r) mod N.of_nat k < N.of_nat k)%N by (apply N.mod_lt; lia).
  lia.
Qed.

Arguments randbelow : simpl never.

Lemma choice_Ok {A} (xs : list A) r a r' :
  choice xs r = Ok (a, r') -> a ∈ xs.
Proof.
  unfold choice. destruct (randbelow (length xs) r) as [i r1].
  destruct (xs !! i) eqn:E; [|discriminate].
  intros [= <- <-]. eapply list_elem_of_lookup_2; eauto.
Qed.

Lemma choice_total {A} (xs : list A) r :
  xs <> [] -> exists a r', choice xs r = Ok (a, r').
Proof.
  intros Hne. unfold choice.
  pose proof (randbelow_lt (length xs) r) as Hlt.
  destruct (randbelow (length xs) r) as [i r1]. simpl in Hlt.
  destruct (lookup_lt_is_Some_2 xs i) as [a Ha].
  - apply Hlt. destruct xs; [congruence | simpl; lia].
  - rewrite Ha. eauto.
Qed.

Lemma draw_distinct_subset {A} k (xs : list A) r :
  forall a, a ∈ fst (draw_distinct k xs r) -> a ∈ xs.
Proof.
  revert xs r. induction k as [|k IH]; intros xs r a; cbn [draw_distinct].
  - intros H. by apply elem_of_nil in H.
  - destruct (randbelow (length xs) r) as [i r1].
    destruct (xs !! i) as [b|] eqn:E; simpl.
    + specialize (IH (delete i xs) r1 a).
      destruct (draw_distinct k (delete i xs) r1) as [rest r2]. simpl in *.
      intros H. apply elem_of_cons in H as [->|H].
      * eapply list_elem_of_lookup_2; eauto.
      * apply IH in H. eapply list_elem_of_delete_inv; eauto.
    + intros H. by apply elem_of_nil in H.
Qed.

Lemma draw_distinct_length {A} k (xs : list A) r :
  k <= length xs -> length (fst (draw_distinct k xs r)) = k.
Proof.
  revert xs r. induction k as [|k IH]; intros xs r Hk; cbn [draw_distinct];
    [reflexivity|].
  pose proof (randbelow_lt (length xs) r ltac:(lia)) as Hlt.
  destruct (randbelow (length xs) r) as [i r1]. simpl in Hlt.
  destruct (lookup_lt_is_Some_2 xs i Hlt) as [a Ha]. rewrite Ha.
  specialize (IH (delete i xs) r1).
  destruct (draw_distinct k (delete i xs) r1) as [rest r2]. simpl in *.
  rewrite IH; [reflexivity|]. rewrite length_delete; [lia | eauto].
Qed.

Lemma agents_random_Ok {A} (xs : list A) n m sel m' :
  agents_random xs n m = Ok (sel, m') ->
  (exists r', m' = Market.with_random r' m) /\ forall a, a ∈ sel -> a ∈ xs.
Proof.
  unfold agents_random. destruct (n =? 1)%Z.
  - intros H. apply bind_Ok in H as (a & m1 & Hc & H).
    apply ret_Ok in H as [-> ->].
    apply with_rng_Ok in Hc as (r' & Hc & ->). split; [eauto|].
    intros b Hb. apply list_elem_of_singleton in Hb as ->.
    eapply choice_Ok; eauto.
  - intros H. apply with_rng_Ok in H as (r' & Hs & ->). split; [eauto|].
    unfold sample in Hs. destruct (_ || _)%bool; [discriminate|].
    intros a Ha. eapply (draw_distinct_subset (Z.to_nat n) xs (Market.random m)).
    destruct (draw_distinct (Z.to_nat n) xs (Market.random m)).
    by injection Hs as -> ->.
Qed.

(** ** Worker methods *)

Lemma update_employer_Ok i j m m' :
  update_employer i (Some j) m = Ok (tt, m') <->
  exists w f, Market.workers m !! i = Some w /\ Market.firms m !! j = Some f /\
    m' = Market.with_workers
           (<[i := Worker.with_employer (Some j) (Some (Firm.id f))
                     (Some (Firm.size f)) w]> (Market.workers m)) m.
Proof.
  unfold update_employer. split.
  - intros H. inv_run H. eauto.
  - intros (w & f & Hw & Hf & ->).
    erewrite bind_step; [| apply get_worker_Ok; eauto].
    erewrite bind_step; [| apply get_firm_Ok; eauto]. reflexivity.
Qed.

(** *** The average discount *)

Lemma map_result_total {A B} (g : A -> result B) (xs : list A) :
  (forall x, x ∈ xs -> exists y, g x = Ok y) ->
  exists ys, map_result g xs = Ok ys.
Proof.
  induction xs as [|x xs IH]; intros Hg; simpl; [eauto|].
  destruct (Hg x) as [y ->]; [by left|].
  destruct IH as [ys ->]; [|eauto].
  intros z Hz. apply Hg. by right.
Qed.

Lemma sum_list_elem_le (x : nat) (l : list nat) : x ∈ l -> x <= sum_list l.
Proof.
  induction l as [|y l IH]; intros Hin; [by apply elem_of_nil in Hin|].
  simpl. apply elem_of_cons in Hin as [->|Hin]; [lia|].
  specialize (IH Hin). lia.
Qed.

Lemma inject_nat_nonzero (n : nat) : 0 < n -> ~ (inject_Z (Z.of_nat n) == 0)%Q.
Proof. intros Hn. unfold Qeq. simpl. lia. Qed.

(** [calc_avg_d] never raises: the weighted branch only divides by the total
    size of firms that have employees. *)
Lemma avg_d_total fs weighted : exists x, avg_d fs weighted = Ok x.
Proof.
  unfold avg_d. destruct weighted; [|eauto].
  set (firms := filter (fun f => 0 < Firm.size f) fs).
  edestruct (map_result_total
    (fun f => match py_div (inject_Z (Z.of_nat (Firm.size f)))
                     (inject_Z (Z.of_nat (sum_list (map Firm.size firms)))) with
              | Ok share => Ok (Firm.d_factor f * share)%Q
              | Raise e => Raise e
              end) firms) as [terms ->]; [|eauto].
  intros f Hf. rewrite py_div_Ok; [eauto|].
  apply inject_nat_nonzero.
  assert (0 < Firm.size f) by (apply list_elem_of_filter in Hf; tauto).
  assert (Firm.size f <= sum_list (map Firm.size firms)); [|lia].
  apply sum_list_elem_le. apply list_elem_of_fmap. eauto.
Qed.

Lemma calc_avg_d_Ok weighted m x m' :
  calc_avg_d weighted m = Ok (x, m') <->
  avg_d (Market.firms m) weighted = Ok x /\ m' = m.
Proof.
  unfold calc_avg_d. split.
  - intros H. inv_run H. auto.
  - intros [Ha ->]. erewrite bind_step; [| reflexivity].
    apply lift_Ok. auto.
Qed.

(** *** Education *)

Lemma get_education_Ok i premium m m' :
  get_education i premium m = Ok (tt, m') <->
  exists w w', Market.workers m !! i = Some w /\
    educated_paid premium (Market.firms m) w = Some w' /\
    m' = Market.with_workers (<[i := w']> (Market.workers m)) m.
Proof.
  unfold get_education, educated_paid, educated.
  split.
  - intros H. apply bind_Ok in H as (w & m1 & Hw & H).
    apply get_worker_Ok in Hw as [Hw ->].
    apply bind_Ok in H as ([] & m2 & Hput & H).
    apply put_worker_Ok in Hput. subst m2.
    exists w.
    change (Worker.employer (Worker.with_prod _ (Worker.with_educ true w)))
      with (Worker.employer w) in H.
    destruct (Worker.employer w) as [j|].
    + apply bind_Ok in H as (x & m3 & Hx & H).
      apply calc_wage_Ok in Hx as (f & w1 & Hf & Hw1 & -> & ->).
      apply put_worker_Ok in H. simpl in *.
      rewrite list_lookup_insert_eq in Hw1 by (eapply lookup_lt_Some; eauto).
      injection Hw1 as <-. rewrite Hf. eexists. split; [exact Hw|].
      split; [reflexivity|]. subst m'. simpl.
      by rewrite list_insert_insert_eq.
    + apply ret_Ok in H as [_ ->]. eauto.
  - intros (w & w' & Hw & Hpaid & ->).
    erewrite bind_step; [| apply get_worker_Ok; eauto].
    erewrite bind_step; [| reflexivity].
    change (Worker.employer (Worker.with_prod _ (Worker.with_educ true w)))
      with (Worker.employer w).
    destruct (Worker.employer w) as [j|].
    + destruct (Market.firms m !! j) as [f|] eqn:Hf; [|discriminate].
      injection Hpaid as <-.
      erewrite bind_step.
      2:{ apply calc_wage_Ok. exists f. eexists. simpl.
          rewrite list_lookup_insert_eq by (eapply lookup_lt_Some; eauto). eauto. }
      unfold put_worker. simpl. by rewrite list_insert_insert_eq.
    + injection Hpaid as <-. reflexivity.
Qed.

Lemma education_benefit_Ok w premium weighted m b m' :
  education_benefit w premium weighted m = Ok (b, m') -> m' = m.
Proof.
  unfold education_benefit. destruct (Worker.d_class w =? 1)%Z.
  - intros H. apply bind_Ok in H as (d & m1 & Hd & H).
    apply calc_avg_d_Ok in Hd as [_ ->]. by apply ret_Ok in H as [_ ->].
  - intros H. by apply ret_Ok in H as [_ ->].
Qed.

Lemma education_benefit_total w premium weighted m :
  exists b, education_benefit w premium weighted m = Ok (b, m).
Proof.
  unfold education_benefit. destruct (Worker.d_class w =? 1)%Z; [|eauto].
  destruct (avg_d_total (Market.firms m) weighted) as [d Hd].
  erewrite bind_step; [| apply calc_avg_d_Ok; eauto]. eauto.
Qed.

(** What a successful [education_decision] did. *)
Lemma education_decision_Ok i premium weighted m m' :
  education_decision i premium weighted m = Ok (tt, m') ->
  exists w, Market.workers m !! i = Some w /\ ~ (Worker.prod w == 0)%Q /\
    exists m0, (m0 = m \/ exists r', m0 = Market.with_random r' m) /\
               (m' = m0 \/ get_education i premium m0 = Ok (tt, m')).
Proof.
  unfold education_decision. intros H.
  apply bind_Ok in H as (w & m1 & Hw & H).
  apply get_worker_Ok in Hw as [Hw ->].
  apply bind_Ok in H as (cost & m1 & Hcost & H).
  apply lift_Ok in Hcost as [Hcost ->].
  apply bind_Ok in H as (benefit & m1 & Hben & H).
  apply education_benefit_Ok in Hben as ->.
  exists w. split; [exact Hw|]. split.
  { intros Hz. unfold education_cost in Hcost.
    rewrite py_div_zero in Hcost by exact Hz. discriminate. }
  destruct (fgtb benefit (Fin cost)).
  - exists m. eauto.
  - destruct (feqb benefit (Fin cost)).
    + apply bind_Ok in H as (c & m1 & Hc & H).
      apply with_rng_Ok in Hc as (r' & _ & ->).
      exists (Market.with_random r' m). split; [eauto|].
      destruct c; [by right|]. apply ret_Ok in H as [_ ->]. by left.
    + apply ret_Ok in H as [_ ->]. exists m. eauto.
Qed.

Lemma education_decision_zero i premium weighted m w :
  Market.workers m !! i = Some w -> (Worker.prod w == 0)%Q ->
  education_decision i premium weighted m = Raise ZeroDivisionError.
Proof.
  intros Hw Hz. unfold education_decision.
  erewrite bind_step; [| apply get_worker_Ok; eauto].
  apply bind_Raise. unfold lift, education_cost. by rewrite py_div_zero.
Qed.

Lemma get_education_total i premium m w :
  Market.workers m !! i = Some w ->
  (forall j, Worker.employer w = Some j -> is_Some (Market.firms m !! j)) ->
  exists m', get_education i premium m = Ok (tt, m').
Proof.
  intros Hw Hemp.
  assert (exists w', educated_paid premium (Market.firms m) w = Some w') as [w' Hp].
  { unfold educated_paid. destruct (Worker.employer w) as [j|]; [|eauto].
    destruct (Hemp j eq_refl) as [f ->]. eauto. }
  eexists. apply get_education_Ok. eauto.
Qed.

Lemma education_decision_total i premium weighted m w :
  Market.workers m !! i = Some w -> ~ (Worker.prod w == 0)%Q ->
  (forall j, Worker.employer w = Some j -> is_Some (Market.firms m !! j)) ->
  exists m', education_decision i premium weighted m = Ok (tt, m').
Proof.
  intros Hw Hnz Hemp. unfold education_decision.
  erewrite bind_step; [| apply get_worker_Ok; eauto].
  erewrite bind_step;
    [| apply lift_Ok; split; [apply py_div_Ok, Hnz | reflexivity]].
  destruct (education_benefit_total w premium weighted m) as [b Hb].
  erewrite bind_step; [| exact Hb].
  destruct (fgtb b _); [eapply get_education_total; eauto|].
  destruct (feqb b _); [|eauto].
  destruct (choice_total [true; false] (Market.random m)) as (c & r' & Hc);
    [discriminate|].
  erewrite bind_step; [| apply with_rng_Ok; eauto].
  destruct c; [|eauto].
  eapply get_education_total; eauto.
Qed.

(** *** Search *)

Lemma select_refs_elem keep fs j0 k :
  k ∈ select_refs keep fs j0 <->
  exists f, j0 <= k /\ fs !! (k - j0) = Some f /\ keep f = true.
Proof.
  revert j0. induction fs as [|f fs IH]; intros j0; simpl.
  - split; [intros H; by apply elem_of_nil in H | intros (f & _ & H & _); done].
  - assert (Hrest : k ∈ select_refs keep fs (S j0) <->
                     exists g, j0 < k /\ (f :: fs) !! (k - j0) = Some g /\ keep g = true).
    { rewrite IH. split; intros (g & Hle & Hg & Hk); exists g.
      - split; [lia|]. split; [|exact Hk].
        replace (k - j0) with (S (k - S j0)) by lia. exact Hg.
      - split; [lia|]. split; [|exact Hk].
        replace (k - j0) with (S (k - S j0)) in Hg by lia. exact Hg. }
    destruct (keep f) eqn:Ef.
    + rewrite elem_of_cons, Hrest. split.
      * intros [->|(g & Hlt & Hg & Hk)].
        -- exists f. rewrite Nat.sub_diag. auto.
        -- exists g. split; [lia | auto].
      * intros (g & Hle & Hg & Hk).
        destruct (decide (k = j0)) as [->|Hne]; [by left|].
        right. exists g. split; [lia | auto].
    + rewrite Hrest. split.
      * intros (g & Hlt & Hg & Hk). exists g. split; [lia | auto].
      * intros (g & Hle & Hg & Hk).
        destruct (decide (k = j0)) as [->|Hne].
        -- rewrite Nat.sub_diag in Hg. simpl in Hg. congruence.
        -- exists g. split; [lia | auto].
Qed.

Lemma select_firms_Ok i n m sel m' :
  select_firms i n m = Ok (sel, m') ->
  exists w, Market.workers m !! i = Some w /\
    (exists r', m' = Market.with_random r' m) /\
    forall j, j ∈ sel ->
      exists f, Market.firms m !! j = Some f /\ other_firm w f = true.
Proof.
  unfold select_firms. intros H.
  apply bind_Ok in H as (w & m1 & Hw & H).
  apply get_worker_Ok in Hw as [Hw ->].
  apply bind_Ok in H as (m0 & m1 & Hg & H).
  apply get_Ok in Hg as [-> ->].
  apply agents_random_Ok in H as [Hr Hsel].
  exists w. split; [exact Hw|]. split; [exact Hr|].
  intros j Hj. apply Hsel, select_refs_elem in Hj as (f & _ & Hf & Hk).
  rewrite Nat.sub_0_r in Hf. eauto.
Qed.

Lemma map_each_calc_wage js i m w xs m' :
  Market.workers m !! i = Some w ->
  map_each js (fun j => calc_wage j i) m = Ok (xs, m') <->
  m' = m /\
  Forall2 (fun j x => exists f, Market.firms m !! j = Some f /\ x = wage_offer f w)
    js xs.
Proof.
  intros Hw. revert xs. induction js as [|j js IH]; intros xs; simpl.
  - rewrite ret_Ok. split.
    + intros [-> ->]. split; [reflexivity | constructor].
    + intros [-> Hall]. inversion Hall. auto.
  - split.
    + intros H. apply bind_Ok in H as (x & m1 & Hx & H).
      apply calc_wage_Ok in Hx as (f & w0 & Hf & Hw0 & -> & ->).
      apply bind_Ok in H as (ys & m2 & Hrest & H).
      apply ret_Ok in H as [-> ->].
      apply IH in Hrest as [-> Hall]. split; [reflexivity|].
      constructor; [|exact Hall]. exists f. split; [exact Hf | congruence].
    + intros [-> Hall]. inversion Hall as [|? x ? ys (f & Hf & ->) Hall']; subst.
      erewrite bind_step; [| apply calc_wage_Ok; eauto 6].
      erewrite bind_step; [| apply IH; eauto]. reflexivity.
Qed.

(** [rank_firms] returns the first sampled firm whose offer is maximal. *)
Lemma rank_firms_Ok i n m w j x m' :
  Market.workers m !! i = Some w ->
  rank_firms i n m = Ok ((j, x), m') ->
  exists sampled k fj,
    select_firms i n m = Ok (sampled, m') /\
    sampled !! k = Some j /\
    Market.firms m !! j = Some fj /\
    x = wage_offer fj w /\
    forall k' j' f', sampled !! k' = Some j' -> Market.firms m !! j' = Some f' ->
      (wage_offer f' w <= x)%Q /\ (k' < k -> (wage_offer f' w < x)%Q).
Proof.
  intros Hw H. unfold rank_firms in H.
  apply bind_Ok in H as (sampled & m1 & Hsel & H).
  destruct (select_firms_Ok _ _ _ _ _ Hsel) as (w0 & Hw0 & [r' ->] & _).
  apply bind_Ok in H as (wages & m2 & Hwages & H).
  apply (map_each_calc_wage _ _ _ w) in Hwages as [-> Hwages]; [|exact Hw].
  simpl in Hwages.
  apply bind_Ok in H as (top & m2 & Htop & H). apply lift_Ok in Htop as [Htop ->].
  apply bind_Ok in H as (k & m2 & Hk & H). apply lift_Ok in Hk as [Hk ->].
  apply bind_Ok in H as (firm & m2 & Hfirm & H). apply lift_Ok in Hfirm as [Hfirm ->].
  apply bind_Ok in H as (wage & m2 & Hwage & H). apply lift_Ok in Hwage as [Hwage ->].
  apply ret_Ok in H as [[= -> ->] ->].
  unfold list_get in Hfirm, Hwage.
  destruct (sampled !! k) as [j0|] eqn:Hj; [|discriminate]. injection Hfirm as ->.
  destruct (wages !! k) as [x0|] eqn:Hx; [|discriminate]. injection Hwage as ->.
  destruct (Forall2_lookup_lr _ _ _ _ _ _ Hwages Hj Hx) as (fj & Hfj & ->).
  apply py_max_Ok in Htop as [_ Hmax].
  apply py_index_Ok in Hk as (y & Hy & Hytop & Hfirst).
  rewrite Hx in Hy. injection Hy as <-.
  exists sampled, k, fj. repeat split; auto.
  - destruct (Forall2_lookup_l _ _ _ _ _ Hwages H) as (x' & Hx' & f0 & Hf0 & ->).
    assert (f0 = f') as -> by congruence.
    rewrite Hytop. apply Hmax. eapply list_elem_of_lookup_2; eauto.
  - intros Hlt.
    destruct (Forall2_lookup_l _ _ _ _ _ Hwages H) as (x' & Hx' & f0 & Hf0 & ->).
    assert (f0 = f') as -> by congruence.
    assert (Hle : (wage_offer f' w <= top)%Q)
      by (apply Hmax; eapply list_elem_of_lookup_2; eauto).
    apply Qle_lteq in Hle as [Hlt'|Heq].
    + by rewrite Hytop.
    + exfalso. eapply Hfirst; eauto.
Qed.

(** ** Rosters and employers *)

Lemma remove_first_elem_ne (i i' : nat) es :
  i' <> i -> i' ∈ remove_first i es <-> i' ∈ es.
Proof.
  intros Hne. induction es as [|y es IH]; simpl; [reflexivity|].
  destruct (decide (y = i)) as [->|Hy].
  - rewrite elem_of_cons. split; [auto | intros [?|?]; [congruence | auto]].
  - rewrite !elem_of_cons, IH. reflexivity.
Qed.

Lemma remove_first_elem (i i' : nat) es : i' ∈ remove_first i es -> i' ∈ es.
Proof.
  induction es as [|y es IH]; simpl; [auto|].
  destruct (decide (y = i)) as [->|Hy].
  - intros H. by right.
  - rewrite !elem_of_cons. intros [->|H]; auto.
Qed.

Lemma remove_first_NoDup (i : nat) es :
  NoDup es -> NoDup (remove_first i es) /\ i ∉ remove_first i es.
Proof.
  induction 1 as [|y es Hy Hnd [IH1 IH2]]; simpl.
  - split; [constructor | apply not_elem_of_nil].
  - destruct (decide (y = i)) as [->|Hne]; [auto|].
    split.
    + constructor; [|exact IH1]. intros Hin. apply Hy.
      eapply remove_first_elem; eauto.
    + rewrite elem_of_cons. intros [?|?]; [congruence | auto].
Qed.

Lemma hired_elem (i i' : nat) es : i' ∈ hired i es <-> i' = i \/ i' ∈ es.
Proof.
  unfold hired. destruct (bool_decide_reflect (i ∈ es)) as [Hi|Hi].
  - split; [auto | intros [->|?]; auto].
  - rewrite elem_of_app, list_elem_of_singleton. tauto.
Qed.

Lemma hired_NoDup (i : nat) es : NoDup es -> NoDup (hired i es).
Proof.
  intros Hnd. unfold hired. destruct (bool_decide_reflect (i ∈ es)) as [Hi|Hi];
    [exact Hnd|].
  apply list.NoDup_app. split; [exact Hnd|]. split.
  - intros y Hy Hy'. apply list_elem_of_singleton in Hy' as ->. contradiction.
  - apply NoDup_singleton.
Qed.

Lemma roster_valid_elem ws es :
  roster_valid ws es <-> forall i, i ∈ es -> is_Some (ws !! i).
Proof. apply list.Forall_forall. Qed.

Lemma class_count_insert ws i w w' c es :
  ws !! i = Some w -> Worker.d_class w' = Worker.d_class w ->
  class_count (<[i := w']> ws) c es = class_count ws c es.
Proof.
  intros Hw Hc. unfold class_count. f_equal. apply list_filter_iff.
  intros k. destruct (decide (k = i)) as [->|Hne].
  - rewrite list_lookup_insert_eq by (eapply lookup_lt_Some; eauto).
    rewrite Hw. simpl. by rewrite Hc.
  - by rewrite list_lookup_insert_ne.
Qed.

Lemma sizes_ok_resized ws f : sizes_ok ws (resized ws f).
Proof. by repeat split. Qed.

Lemma linked_weaken x ws fs : linked_except None ws fs -> linked_except x ws fs.
Proof.
  intros [Hc Hl Hr Hv Hn Hs Hi].
  constructor; [exact Hc | | | exact Hv | exact Hn | exact Hs | exact Hi].
  - intros i w j _. by apply Hl.
  - intros j f i _. by apply Hr.
Qed.

(** Replacing a firm by one with the same identifier whose roster differs at
    most by the exempt worker. *)
Lemma linked_put_firm x ws fs j f f' :
  linked_except x ws fs ->
  fs !! j = Some f ->
  Firm.id f' = Firm.id f ->
  (forall i, Some i <> x -> i ∈ Firm.employees f' <-> i ∈ Firm.employees f) ->
  NoDup (Firm.employees f') ->
  roster_valid ws (Firm.employees f') ->
  sizes_ok ws f' ->
  linked_except x ws (<[j := f']> fs).
Proof.
  intros [Hc Hl Hr Hv Hn Hs Hi] Hf Hid Hes Hnd Hval Hsz.
  assert (Hlt : j < length fs) by (eapply lookup_lt_Some; eauto).
  assert (Hlook : forall k g, <[j := f']> fs !! k = Some g ->
            (k = j /\ g = f') \/ (k <> j /\ fs !! k = Some g)).
  { intros k g. destruct (decide (k = j)) as [->|Hne].
    - rewrite list_lookup_insert_eq by exact Hlt. intros [= <-]. auto.
    - rewrite list_lookup_insert_ne by congruence. auto. }
  constructor.
  - exact Hc.
  - intros i w k Hx Hw He. destruct (Hl i w k Hx Hw He) as (g & Hg & Heid & Hin).
    destruct (decide (k = j)) as [->|Hne].
    + exists f'. rewrite list_lookup_insert_eq by exact Hlt.
      assert (g = f) as -> by congruence.
      split; [reflexivity|]. split; [by rewrite Hid | by apply Hes].
    + exists g. rewrite list_lookup_insert_ne by congruence. auto.
  - intros k g i Hx Hg Hin. apply Hlook in Hg as [[-> ->]|[Hne Hg]].
    + apply Hes in Hin; [|exact Hx]. eapply Hr; eauto.
    + eapply Hr; eauto.
  - intros k g Hg. apply Hlook in Hg as [[-> ->]|[Hne Hg]]; eauto.
  - intros k g Hg. apply Hlook in Hg as [[-> ->]|[Hne Hg]]; eauto.
  - intros k g Hg. apply Hlook in Hg as [[-> ->]|[Hne Hg]]; eauto.
  - intros k k' g g' Hg Hg' Hgid.
    apply Hlook in Hg as [[-> ->]|[Hne Hg]];
      apply Hlook in Hg' as [[-> ->]|[Hne' Hg']]; auto.
    + eapply Hi; eauto. congruence.
    + eapply Hi; eauto. congruence.
    + eapply Hi; eauto.
Qed.

(** Replacing a worker by one of the same class; its employer may only change
    when it is the exempt worker. *)
Lemma linked_put_worker x ws fs i w w' :
  linked_except x ws fs ->
  ws !! i = Some w ->
  Worker.d_class w' = Worker.d_class w ->
  (Some i <> x -> Worker.employer w' = Worker.employer w /\
                  Worker.employer_id w' = Worker.employer_id w) ->
  linked_except x (<[i := w']> ws) fs.
Proof.
  intros [Hc Hl Hr Hv Hn Hs Hi] Hw Hcls Hemp.
  assert (Hlt : i < length ws) by (eapply lookup_lt_Some; eauto).
  constructor.
  - intros k v. destruct (decide (k = i)) as [->|Hne].
    + rewrite list_lookup_insert_eq by exact Hlt. intros [= <-].
      rewrite Hcls. eauto.
    + rewrite list_lookup_insert_ne by congruence. eauto.
  - intros k v j Hx. destruct (decide (k = i)) as [->|Hne].
    + rewrite list_lookup_insert_eq by exact Hlt. intros [= <-] He.
      destruct (Hemp Hx) as [He1 He2]. rewrite He1 in He. rewrite He2. eauto.
    + rewrite list_lookup_insert_ne by congruence. eauto.
  - intros j f k Hx Hf Hin. destruct (Hr j f k Hx Hf Hin) as (v & Hv' & He).
    destruct (decide (k = i)) as [->|Hne].
    + exists w'. rewrite list_lookup_insert_eq by exact Hlt.
      split; [reflexivity|]. destruct (Hemp Hx) as [-> _]. congruence.
    + exists v. by rewrite list_lookup_insert_ne by congruence.
  - intros j f Hf. apply roster_valid_elem. intros k Hk.
    apply list_lookup_insert_is_Some.
    specialize (Hv j f Hf). rewrite roster_valid_elem in Hv. auto.
  - exact Hn.
  - intros j f Hf. destruct (Hs j f Hf) as (H1 & H2 & H3).
    unfold sizes_ok. by rewrite !(class_count_insert _ _ w).
  - exact Hi.
Qed.

(** Closing the exemption, once the moved worker and its roster agree. *)
Lemma linked_close i ws fs w :
  linked_except (Some i) ws fs ->
  ws !! i = Some w ->
  (forall j, Worker.employer w = Some j ->
     exists f, fs !! j = Some f /\ Worker.employer_id w = Some (Firm.id f) /\
               i ∈ Firm.employees f) ->
  (forall j f, fs !! j = Some f -> i ∈ Firm.employees f ->
     Worker.employer w = Some j) ->
  linked_except None ws fs.
Proof.
  intros [Hc Hl Hr Hv Hn Hs Hi] Hw Hfwd Hback.
  constructor; [exact Hc | | | exact Hv | exact Hn | exact Hs | exact Hi].
  - intros k v j _ Hv' He. destruct (decide (k = i)) as [->|Hne].
    + assert (v = w) as -> by congruence. auto.
    + eapply Hl; eauto. congruence.
  - intros j f k _ Hf Hin. destruct (decide (k = i)) as [->|Hne].
    + eauto.
    + eapply Hr; eauto. congruence.
Qed.

(** *** Switching employers *)

Lemma switch_employer_Ok i j m m' :
  switch_employer i j m = Ok (tt, m') ->
  exists w fs1 fj,
    Market.workers m !! i = Some w /\
    match Worker.employer w with
    | Some old =>
        exists fo, Market.firms m !! old = Some fo /\
          roster_valid (Market.workers m) (remove_first i (Firm.employees fo)) /\
          fs1 = <[old := resized (Market.workers m)
                            (Firm.with_employees
                               (remove_first i (Firm.employees fo)) fo)]>
                  (Market.firms m)
    | None => fs1 = Market.firms m
    end /\
    fs1 !! j = Some fj /\
    roster_valid (Market.workers m) (hired i (Firm.employees fj)) /\
    let fj' := resized (Market.workers m)
                 (Firm.with_employees (hired i (Firm.employees fj)) fj) in
    m' = Market.with_workers
           (<[i := Worker.with_employer (Some j) (Some (Firm.id fj'))
                     (Some (Firm.size fj')) w]> (Market.workers m))
           (Market.with_firms (<[j := fj']> fs1) m).
Proof.
  unfold switch_employer. intros H.
  apply bind_Ok in H as (w & m1 & Hw & H).
  apply get_worker_Ok in Hw as [Hw ->].
  apply bind_Ok in H as ([] & m1 & Hsep & H).
  apply bind_Ok in H as ([] & m2 & Hhire & H).
  apply hire_Ok in Hhire as (fj & Hfj & Hvj & ->).
  apply update_employer_Ok in H as (w0 & fj' & Hw0 & Hfj' & ->).
  simpl in Hw0, Hfj'.
  rewrite list_lookup_insert_eq in Hfj' by (eapply lookup_lt_Some; eauto).
  injection Hfj' as <-.
  exists w, (Market.firms m1), fj.
  destruct (Worker.employer w) as [old|].
  - apply separate_Ok in Hsep as (fo & Hfo & Hvo & ->). simpl in *.
    assert (w0 = w) as -> by congruence.
    split; [exact Hw|]. split; [eauto|]. split; [exact Hfj|].
    split; [exact Hvj|]. reflexivity.
  - apply ret_Ok in Hsep as [_ ->].
    assert (w0 = w) as -> by congruence.
    split; [exact Hw|]. split; [reflexivity|]. split; [exact Hfj|].
    split; [exact Hvj|]. reflexivity.
Qed.

(** Moving an employed worker to another firm keeps rosters and employers
    in agreement. *)
Lemma switch_employer_consistent i j m m' w old :
  consistent m ->
  Market.workers m !! i = Some w ->
  Worker.employer w = Some old ->
  j <> old ->
  switch_employer i j m = Ok (tt, m') ->
  consistent m' /\
  (exists eid esz,
     Market.workers m' =
     <[i := Worker.with_employer (Some j) eid esz w]> (Market.workers m)) /\
  (forall fo', Market.firms m' !! old = Some fo' -> i ∉ Firm.employees fo') /\
  (exists fj', Market.firms m' !! j = Some fj' /\ i ∈ Firm.employees fj') /\
  Forall2 (fun f f' => exists es, f' = resized (Market.workers m)
                                         (Firm.with_employees es f))
    (Market.firms m) (Market.firms m').
Proof.
  intros Hcons Hw Hold Hne Hrun.
  apply switch_employer_Ok in Hrun
    as (w0 & fs1 & fj & Hw0 & Hsep & Hfj & Hvj & Hm').
  assert (w0 = w) as -> by congruence. rewrite Hold in Hsep.
  destruct Hsep as (fo & Hfo & Hvo & ->).
  set (ws := Market.workers m) in *. set (fs := Market.firms m) in *.
  set (fo1 := resized ws (Firm.with_employees (remove_first i (Firm.employees fo)) fo)) in *.
  set (fj1 := resized ws (Firm.with_employees (hired i (Firm.employees fj)) fj)) in *.
  assert (Hlto : old < length fs) by (eapply lookup_lt_Some; eauto).
  rewrite list_lookup_insert_ne in Hfj by congruence.
  assert (Hltj : j < length fs) by (eapply lookup_lt_Some; eauto).
  assert (Hlti : i < length ws) by (eapply lookup_lt_Some; eauto).
  assert (Hndo : NoDup (Firm.employees fo)) by (eapply le_nodup; eauto).
  assert (Hndj : NoDup (Firm.employees fj)) by (eapply le_nodup; eauto).
  assert (L1 : linked_except (Some i) ws (<[old := fo1]> fs)).
  { eapply (linked_put_firm _ _ _ _ fo);
      [apply linked_weaken, Hcons | exact Hfo | reflexivity | | | | ].
    - intros k Hk. apply remove_first_elem_ne. congruence.
    - apply remove_first_NoDup, Hndo.
    - exact Hvo.
    - apply sizes_ok_resized. }
  assert (L2 : linked_except (Some i) ws (<[j := fj1]> (<[old := fo1]> fs))).
  { eapply (linked_put_firm _ _ _ _ fj); [exact L1 | | reflexivity | | | | ].
    - rewrite list_lookup_insert_ne by congruence. exact Hfj.
    - intros k Hk. unfold fj1. simpl. rewrite hired_elem.
      split; [intros [->|?]; [congruence | auto] | auto].
    - apply hired_NoDup, Hndj.
    - exact Hvj.
    - apply sizes_ok_resized. }
  set (w1 := Worker.with_employer (Some j) (Some (Firm.id fj1)) (Some (Firm.size fj1)) w) in *.
  assert (L3 : linked_except (Some i) (<[i := w1]> ws) (<[j := fj1]> (<[old := fo1]> fs))).
  { eapply (linked_put_worker _ _ _ _ w); [exact L2 | exact Hw | reflexivity |].
    intros Hx. congruence. }
  cbv zeta in Hm'. subst m'. unfold consistent. simpl.
  assert (Hj1 : <[j := fj1]> (<[old := fo1]> fs) !! j = Some fj1).
  { apply list_lookup_insert_eq. by rewrite length_insert. }
  assert (Ho1 : <[j := fj1]> (<[old := fo1]> fs) !! old = Some fo1).
  { rewrite list_lookup_insert_ne by congruence.
    by apply list_lookup_insert_eq. }
  assert (Hnotin : i ∉ Firm.employees fo1).
  { unfold fo1. simpl. apply remove_first_NoDup, Hndo. }
  split; [|split; [|split; [|split]]].
  - eapply linked_close; [exact L3 | by apply list_lookup_insert_eq | | ].
    + intros k [= <-]. exists fj1. split; [exact Hj1|].
      split; [reflexivity|]. unfold fj1. simpl. apply hired_elem. by left.
    + intros k f Hk Hin. simpl. f_equal.
      destruct (decide (k = j)) as [->|Hkj]; [reflexivity|].
      rewrite list_lookup_insert_ne in Hk by congruence.
      destruct (decide (k = old)) as [->|Hko].
      * rewrite list_lookup_insert_eq in Hk by exact Hlto.
        injection Hk as <-. contradiction.
      * rewrite list_lookup_insert_ne in Hk by congruence.
        destruct (le_roster _ _ _ Hcons k f i) as (w' & Hw' & He);
          [discriminate | exact Hk | exact Hin |].
        fold ws in Hw'. congruence.
  - eauto.
  - intros fo' Hfo'. rewrite Ho1 in Hfo'. by injection Hfo' as <-.
  - exists fj1. split; [exact Hj1|]. unfold fj1. simpl. apply hired_elem. by left.
  - apply Forall2_same_length_lookup_2; [by rewrite !length_insert|].
    intros k f f' Hf Hf'.
    destruct (decide (k = j)) as [->|Hkj].
    + rewrite Hj1 in Hf'. injection Hf' as <-.
      assert (f = fj) as -> by congruence. eexists. reflexivity.
    + rewrite list_lookup_insert_ne in Hf' by congruence.
      destruct (decide (k = old)) as [->|Hko].
      * rewrite list_lookup_insert_eq in Hf' by exact Hlto.
        injection Hf' as <-. assert (f = fo) as -> by congruence.
        eexists. reflexivity.
      * rewrite list_lookup_insert_ne in Hf' by congruence.
        assert (f' = f) as -> by congruence.
        exists (Firm.employees f).
        destruct (le_sizes _ _ _ Hcons k f Hf) as (H1 & H2 & H3).
        fold ws in H2, H3. unfold resized. simpl.
        destruct f; simpl in *. by rewrite <- H1, <- H2, <- H3.
Qed.

(** *** Firm selection *)

Lemma rank_firms_state i n m w j x m' :
  Market.workers m !! i = Some w ->
  rank_firms i n m = Ok ((j, x), m') ->
  exists r', m' = Market.with_random r' m.
Proof.
  intros Hw H. apply (rank_firms_Ok _ _ _ w) in H as (s & k & fj & Hsel & _); [|exact Hw].
  apply select_firms_Ok in Hsel as (_ & _ & Hr & _). exact Hr.
Qed.

Lemma firm_selection_Ok i n m m' :
  firm_selection i n m = Ok (tt, m') ->
  exists w j x r',
    Market.workers m !! i = Some w /\
    rank_firms i n (searching i w m)
      = Ok ((j, x), Market.with_random r' (searching i w m)) /\
    if Qgtb x (Worker.wage w) then
      switch_employer i j
        (Market.with_workers
           (<[i := Worker.with_wage x
                     (Worker.with_switched (Some true)
                        (Worker.with_search true w))]> (Market.workers m))
           (Market.with_random r' m)) = Ok (tt, m')
    else m' = Market.with_random r' (searching i w m).
Proof.
  unfold firm_selection. intros H.
  apply bind_Ok in H as (w & m1 & Hw & H).
  apply get_worker_Ok in Hw as [Hw ->].
  apply bind_Ok in H as ([] & m1 & Hput & H).
  apply put_worker_Ok in Hput. subst m1. fold (searching i w m) in H.
  apply bind_Ok in H as ([j x] & m2 & Hrank & H).
  assert (Hlt : i < length (Market.workers m)) by (eapply lookup_lt_Some; eauto).
  assert (Hws : Market.workers (searching i w m) !! i = Some (Worker.with_search true w))
    by (simpl; by apply list_lookup_insert_eq).
  destruct (rank_firms_state _ _ _ _ _ _ _ Hws Hrank) as [r' ->].
  apply bind_Ok in H as (w1 & m3 & Hw1 & H).
  apply get_worker_Ok in Hw1 as [Hw1 ->]. simpl in Hw1.
  rewrite list_lookup_insert_eq in Hw1 by exact Hlt. injection Hw1 as <-.
  exists w, j, x, r'. split; [exact Hw|]. split; [exact Hrank|].
  simpl in H. change (Worker.wage (Worker.with_search true w)) with (Worker.wage w) in H.
  destruct (Qgtb x (Worker.wage w)).
  - apply bind_Ok in H as ([] & m4 & Hput & H).
    apply put_worker_Ok in Hput. subst m4. simpl in H.
    rewrite list_insert_insert_eq in H. exact H.
  - apply ret_Ok in H as [_ ->]. reflexivity.
Qed.

(** What [firm_selection] leaves alone, in any state. *)
Lemma firm_selection_frame i n m m' :
  firm_selection i n m = Ok (tt, m') ->
  Market.p m' = Market.p m /\ Market.t m' = Market.t m /\
  Market.worker_log m' = Market.worker_log m /\
  Market.firm_log m' = Market.firm_log m /\
  (exists w w', Market.workers m !! i = Some w /\
     Market.workers m' = <[i := w']> (Market.workers m) /\
     same_person w w' /\ Worker.search w' = true /\
     Worker.switch w' = Worker.switch w) /\
  Forall2 same_firm (Market.firms m) (Market.firms m').
Proof.
  intros H. apply firm_selection_Ok in H as (w & j & x & r' & Hw & _ & H).
  destruct (Qgtb x (Worker.wage w)).
  - apply switch_employer_Ok in H
      as (w0 & fs1 & fj & Hw0 & Hsep & Hfj & _ & Hm').
    cbv zeta in Hm'. subst m'. simpl in *.
    rewrite list_lookup_insert_eq in Hw0 by (eapply lookup_lt_Some; eauto).
    injection Hw0 as <-. rewrite list_insert_insert_eq.
    change (Worker.employer (Worker.with_wage _ _)) with (Worker.employer w) in Hsep.
    repeat split; try reflexivity.
    + eexists w, _. split; [exact Hw|]. split; [reflexivity|].
      by repeat split.
    + assert (Hfs1 : Forall2 same_firm (Market.firms m) fs1).
      { destruct (Worker.employer w) as [old|].
        - destruct Hsep as (fo & Hfo & _ & ->).
          apply Forall2_same_length_lookup_2; [by rewrite length_insert|].
          intros k f f' Hf Hf'. destruct (decide (k = old)) as [->|Hk].
          + rewrite list_lookup_insert_eq in Hf' by (eapply lookup_lt_Some; eauto).
            injection Hf' as <-. assert (f = fo) as -> by congruence.
            by repeat split.
          + rewrite list_lookup_insert_ne in Hf' by congruence.
            assert (f' = f) as -> by congruence. by repeat split.
        - subst fs1. apply Forall2_same_length_lookup_2; [reflexivity|].
          intros k f f' Hf Hf'. assert (f' = f) as -> by congruence.
          by repeat split. }
      apply Forall2_same_length_lookup_2.
      { rewrite length_insert. eapply Forall2_length; eauto. }
      intros k f f' Hf Hf'.
      destruct (Forall2_lookup_l _ _ _ _ _ Hfs1 Hf) as (f1 & Hf1 & Hs1).
      destruct (decide (k = j)) as [->|Hk].
      * rewrite list_lookup_insert_eq in Hf' by (eapply lookup_lt_Some; eauto).
        injection Hf' as <-. assert (f1 = fj) as -> by congruence.
        destruct Hs1 as (? & ? & ? & ?). by repeat split.
      * rewrite list_lookup_insert_ne in Hf' by congruence.
        assert (f' = f1) as -> by congruence. exact Hs1.
  - subst m'. simpl. repeat split; try reflexivity.
    + eexists w, _. split; [exact Hw|]. split; [reflexivity|]. by repeat split.
    + apply Forall2_same_length_lookup_2; [reflexivity|].
      intros k f f' Hf Hf'. assert (f' = f) as -> by congruence.
      by repeat split.
Qed.

Lemma consistent_put_worker m i w w' :
  consistent m -> Market.workers m !! i = Some w ->
  Worker.d_class w' = Worker.d_class w ->
  Worker.employer w' = Worker.employer w ->
  Worker.employer_id w' = Worker.employer_id w ->
  consistent (Market.with_workers (<[i := w']> (Market.workers m)) m).
Proof.
  intros Hc Hw H1 H2 H3. unfold consistent. simpl.
  eapply linked_put_worker; eauto.
Qed.

(** The two outcomes of a successful [firm_selection] for an employed worker
    of a consistent model. *)
Lemma firm_selection_cases i n m m' w old :
  consistent m ->
  Market.workers m !! i = Some w ->
  Worker.employer w = Some old ->
  firm_selection i n m = Ok (tt, m') ->
  exists sampled k j fj r',
    select_firms i n (searching i w m)
      = Ok (sampled, Market.with_random r' (searching i w m)) /\
    sampled !! k = Some j /\
    Market.firms m !! j = Some fj /\
    j <> old /\
    (forall k' j' f', sampled !! k' = Some j' -> Market.firms m !! j' = Some f' ->
       (wage_offer f' w <= wage_offer fj w)%Q /\
       (k' < k -> (wage_offer f' w < wage_offer fj w)%Q)) /\
    ((wage_offer fj w <= Worker.wage w)%Q /\
     m' = Market.with_random r' (searching i w m)
     \/
     (Worker.wage w < wage_offer fj w)%Q /\
     consistent m' /\
     (exists eid esz,
        Market.workers m' =
        <[i := Worker.with_employer (Some j) eid esz
                 (Worker.with_wage (wage_offer fj w)
                    (Worker.with_switched (Some true)
                       (Worker.with_search true w)))]> (Market.workers m)) /\
     (forall fo', Market.firms m' !! old = Some fo' -> i ∉ Firm.employees fo') /\
     (exists fj', Market.firms m' !! j = Some fj' /\ i ∈ Firm.employees fj')).
Proof.
  intros Hcons Hw Hold H.
  apply firm_selection_Ok in H as (w0 & j & x & r' & Hw0 & Hrank & H).
  assert (w0 = w) as -> by congruence.
  assert (Hlt : i < length (Market.workers m)) by (eapply lookup_lt_Some; eauto).
  assert (Hws : Market.workers (searching i w m) !! i = Some (Worker.with_search true w))
    by (simpl; by apply list_lookup_insert_eq).
  apply (rank_firms_Ok _ _ _ _ _ _ _ Hws) in Hrank
    as (sampled & k & fj & Hsel & Hk & Hfj & -> & Hbest).
  simpl in Hfj.
  change (wage_offer fj (Worker.with_search true w)) with (wage_offer fj w) in *.
  assert (Hne : j <> old).
  { destruct (select_firms_Ok _ _ _ _ _ Hsel) as (w1 & Hw1 & _ & Hothers).
    rewrite Hws in Hw1. injection Hw1 as <-.
    destruct (Hothers j) as (f & Hf & Hother);
      [eapply list_elem_of_lookup_2; eauto|].
    simpl in Hf. assert (f = fj) as -> by congruence.
    destruct (le_link _ _ _ Hcons i w old) as (fo & Hfo & Heid & _);
      [discriminate | exact Hw | exact Hold |].
    intros ->. assert (fo = fj) as -> by congruence.
    unfold other_firm in Hother. simpl in Hother. rewrite Heid in Hother.
    rewrite bool_decide_eq_true_2 in Hother by reflexivity. discriminate. }
  exists sampled, k, j, fj, r'.
  split; [exact Hsel|]. split; [exact Hk|]. split; [exact Hfj|].
  split; [exact Hne|]. split.
  { intros k' j' f' Hk' Hf'. apply (Hbest k' j' f' Hk'). exact Hf'. }
  destruct (Qgtb (wage_offer fj w) (Worker.wage w)) eqn:Egt.
  - right. apply Qgtb_lt in Egt. split; [exact Egt|].
    set (w2 := Worker.with_wage (wage_offer fj w)
                 (Worker.with_switched (Some true) (Worker.with_search true w))) in *.
    set (m0 := Market.with_workers (<[i := w2]> (Market.workers m))
                 (Market.with_random r' m)) in *.
    assert (Hc0 : consistent m0).
    { unfold consistent, m0. simpl.
      eapply (linked_put_worker _ _ _ _ w); [exact Hcons | exact Hw | reflexivity |].
      intros _. by split. }
    assert (Hw2 : Market.workers m0 !! i = Some w2)
      by (unfold m0; simpl; by apply list_lookup_insert_eq).
    destruct (switch_employer_consistent i j m0 m' w2 old Hc0 Hw2 Hold Hne H)
      as (Hc' & (eid & esz & Hws') & Hout & Hin & _).
    split; [exact Hc'|]. split.
    + exists eid, esz. rewrite Hws'. unfold m0. simpl.
      by rewrite list_insert_insert_eq.
    + split; [exact Hout | exact Hin].
  - left. apply Qgtb_le in Egt. auto.
Qed.

Lemma firm_selection_consistent i n m m' :
  consistent m -> all_employed m ->
  firm_selection i n m = Ok (tt, m') ->
  consistent m' /\ all_employed m'.
Proof.
  intros Hcons Hemp H.
  assert (exists w, Market.workers m !! i = Some w) as [w Hw].
  { apply firm_selection_Ok in H as (w & _ & _ & _ & Hw & _). eauto. }
  destruct (Hemp i w Hw) as [old Hold].
  assert (Hlt : i < length (Market.workers m)) by (eapply lookup_lt_Some; eauto).
  destruct (firm_selection_cases _ _ _ _ _ _ Hcons Hw Hold H)
    as (s & k & j & fj & r' & _ & _ & _ & _ & _ & [[_ ->]|(_ & Hc' & (eid & esz & Hws') & _)]).
  - split.
    + unfold consistent. simpl.
      eapply (linked_put_worker _ _ _ _ w); [exact Hcons | exact Hw | reflexivity |].
      intros _. by split.
    + intros k' v. simpl. destruct (decide (k' = i)) as [->|Hne].
      * rewrite list_lookup_insert_eq by exact Hlt. intros [= <-]. simpl. eauto.
      * rewrite list_lookup_insert_ne by congruence. apply Hemp.
  - split; [exact Hc'|].
    intros k' v. rewrite Hws'. destruct (decide (k' = i)) as [->|Hne].
    + rewrite list_lookup_insert_eq by exact Hlt. intros [= <-]. simpl. eauto.
    + rewrite list_lookup_insert_ne by congruence. apply Hemp.
Qed.

(** ** The state invariant through the phases of a step *)

Lemma wf_put_worker m i w w' :
  well_formed m -> Market.workers m !! i = Some w ->
  Worker.d_class w' = Worker.d_class w ->
  Worker.employer w' = Worker.employer w ->
  Worker.employer_id w' = Worker.employer_id w ->
  well_formed (Market.with_workers (<[i := w']> (Market.workers m)) m).
Proof.
  intros (Hc & He & Hn) Hw H1 H2 H3. split; [|split].
  - eapply consistent_put_worker; eauto.
  - intros k v. simpl. destruct (decide (k = i)) as [->|Hne].
    + rewrite list_lookup_insert_eq by (eapply lookup_lt_Some; eauto).
      intros [= <-]. rewrite H2. eauto.
    + rewrite list_lookup_insert_ne by congruence. apply He.
  - simpl. by rewrite length_insert.
Qed.

Lemma wf_put_firm m j f f' :
  well_formed m -> Market.firms m !! j = Some f ->
  Firm.id f' = Firm.id f -> Firm.employees f' = Firm.employees f ->
  Firm.size f' = Firm.size f -> Firm.size_0 f' = Firm.size_0 f ->
  Firm.size_1 f' = Firm.size_1 f ->
  well_formed (Market.with_firms (<[j := f']> (Market.firms m)) m).
Proof.
  intros (Hc & He & Hn) Hf H1 H2 H3 H4 H5. split; [|split].
  - unfold consistent. simpl.
    eapply (linked_put_firm _ _ _ _ f); [exact Hc | exact Hf | exact H1 | | | | ].
    + intros k _. by rewrite H2.
    + rewrite H2. eapply le_nodup; eauto.
    + rewrite H2. eapply le_valid; eauto.
    + destruct (le_sizes _ _ _ Hc j f Hf) as (S1 & S2 & S3).
      unfold sizes_ok. rewrite H2, H3, H4, H5. auto.
  - exact He.
  - exact Hn.
Qed.

Lemma wf_with_random r m : well_formed m -> well_formed (Market.with_random r m).
Proof. intros H. exact H. Qed.

Lemma educated_paid_fields premium fs w w' :
  educated_paid premium fs w = Some w' ->
  Worker.id w' = Worker.id w /\
  Worker.d_class w' = Worker.d_class w /\
  Worker.employer w' = Worker.employer w /\
  Worker.employer_id w' = Worker.employer_id w /\
  Worker.employer_size w' = Worker.employer_size w /\
  Worker.hrs w' = Worker.hrs w /\
  Worker.avg_prod w' = Worker.avg_prod w /\
  Worker.search w' = Worker.search w /\
  Worker.switch w' = Worker.switch w /\
  Worker.educ w' = true /\
  Worker.prod w' = (Worker.prod w * (1 + premium))%Q /\
  match Worker.employer w with
  | Some j => exists f, fs !! j = Some f /\ Worker.wage w' = wage_offer f w'
  | None => Worker.wage w' = Worker.wage w
  end.
Proof.
  unfold educated_paid. destruct (Worker.employer w) as [j|] eqn:E.
  - destruct (fs !! j) as [f|]; [|discriminate]. intros [= <-].
    simpl. repeat split; try assumption; try reflexivity. eauto.
  - intros [= <-]. simpl. repeat split; try assumption; try reflexivity.
Qed.

Lemma get_education_wf i premium m m' :
  well_formed m -> get_education i premium m = Ok (tt, m') -> well_formed m'.
Proof.
  intros Hwf H. apply get_education_Ok in H as (w & w' & Hw & Hp & ->).
  apply educated_paid_fields in Hp as (_ & H1 & H2 & H3 & _).
  eapply wf_put_worker; eauto.
Qed.

Lemma education_decision_wf i premium weighted m m' :
  well_formed m -> education_decision i premium weighted m = Ok (tt, m') ->
  well_formed m'.
Proof.
  intros Hwf H.
  apply education_decision_Ok in H as (w & Hw & _ & m0 & Hm0 & [->|H]).
  - destruct Hm0 as [->|[r' ->]]; exact Hwf.
  - eapply get_education_wf; [|exact H].
    destruct Hm0 as [->|[r' ->]]; exact Hwf.
Qed.

Lemma firm_selection_wf i n m m' :
  well_formed m -> firm_selection i n m = Ok (tt, m') -> well_formed m'.
Proof.
  intros (Hc & He & Hn) H.
  destruct (firm_selection_consistent _ _ _ _ Hc He H) as [Hc' He'].
  destruct (firm_selection_frame _ _ _ _ H)
    as (Hp & _ & _ & _ & (w & w' & Hw & Hws & _) & _).
  split; [exact Hc'|]. split; [exact He'|].
  by rewrite Hws, length_insert, Hp.
Qed.

Lemma refresh_employer_size_wf i m m' :
  well_formed m -> MarketOps.refresh_employer_size i m = Ok (tt, m') ->
  well_formed m'.
Proof.
  intros Hwf H. unfold MarketOps.refresh_employer_size in H.
  apply bind_Ok in H as (w & m1 & Hw & H).
  apply get_worker_Ok in Hw as [Hw ->].
  destruct (Worker.employer w) as [j|] eqn:E; [|discriminate].
  inv_run H. eapply wf_put_worker; eauto.
Qed.

Lemma produce_wf j m m' :
  well_formed m -> produce j m = Ok (tt, m') -> well_formed m'.
Proof.
  intros Hwf H. unfold produce in H.
  apply bind_Ok in H as (f & m1 & Hf & H). apply get_firm_Ok in Hf as [Hf ->].
  apply bind_Ok in H as (es & m1 & Hes & H).
  apply map_each_get_worker in Hes as [-> _].
  apply put_firm_Ok in H. subst m'. eapply wf_put_firm; eauto.
Qed.

Lemma calc_profit_wf j m m' :
  well_formed m -> calc_profit j m = Ok (tt, m') -> well_formed m'.
Proof.
  intros Hwf H. unfold calc_profit in H.
  apply bind_Ok in H as (f & m1 & Hf & H). apply get_firm_Ok in Hf as [Hf ->].
  apply bind_Ok in H as (es & m1 & Hes & H).
  apply map_each_get_worker in Hes as [-> _].
  apply put_firm_Ok in H. subst m'. eapply wf_put_firm; eauto.
Qed.

Lemma step_wf m m' :
  well_formed m -> MarketOps.step m = Ok (tt, m') -> well_formed m'.
Proof.
  intros Hwf H. unfold MarketOps.step in H.
  apply bind_Ok in H as (m0 & m1 & Hg & H). apply get_Ok in Hg as [-> ->].
  apply bind_Ok in H as ([] & m1 & H1 & H).
  apply (for_each_inv well_formed) in H1; [| |exact Hwf].
  2:{ intros i n n' _ Hn Hb. inv_run Hb. eapply wf_put_worker; eauto. }
  apply bind_Ok in H as ([] & m2 & H2 & H).
  apply (for_each_inv well_formed) in H2; [| |exact H1].
  2:{ intros i n n' _ Hn Hb. inv_run Hb. eapply wf_put_worker; eauto. }
  apply bind_Ok in H as (sel & m3 & H3 & H).
  apply agents_random_Ok in H3 as [[r' ->] _].
  apply bind_Ok in H as ([] & m4 & H4 & H).
  apply (for_each_inv well_formed) in H4; [| |exact H2].
  2:{ intros i n n' _ Hn Hb.
      apply bind_Ok in Hb as (w & n1 & Hw & Hb).
      apply get_worker_Ok in Hw as [Hw ->].
      destruct (Worker.educ w).
      - by apply ret_Ok in Hb as [_ ->].
      - eapply education_decision_wf; eauto. }
  apply bind_Ok in H as ([] & m5 & H5 & H).
  apply (for_each_inv well_formed) in H5; [| |exact H4].
  2:{ intros i n n' _ Hn Hb. eapply firm_selection_wf; eauto. }
  apply bind_Ok in H as ([] & m6 & H6 & H).
  apply (for_each_inv well_formed) in H6; [| |exact H5].
  2:{ intros i n n' _ Hn Hb. eapply refresh_employer_size_wf; eauto. }
  apply bind_Ok in H as (m7 & m8 & Hg & H). apply get_Ok in Hg as [-> ->].
  apply bind_Ok in H as ([] & m8 & H8 & H).
  apply (for_each_inv well_formed) in H8; [| |exact H6].
  2:{ intros i n n' _ Hn Hb. eapply produce_wf; eauto. }
  apply (for_each_inv well_formed) in H; [exact H | |exact H8].
  intros i n n' _ Hn Hb. eapply calc_profit_wf; eauto.
Qed.

(** ** Setup *)

Lemma map_each_inv {A B} (P : Market.model -> Prop) (Q : A -> B -> Prop)
    (xs : list A) (f : A -> M B) :
  (forall x m y m', x ∈ xs -> P m -> f x m = Ok (y, m') -> P m' /\ Q x y) ->
  forall m ys m', P m -> map_each xs f m = Ok (ys, m') ->
    P m' /\ Forall2 Q xs ys.
Proof.
  induction xs as [|x xs IH]; intros Hf m ys m' HP Hrun; simpl in Hrun.
  - apply ret_Ok in Hrun as [-> ->]. split; [exact HP | constructor].
  - apply bind_Ok in Hrun as (y & m1 & Hx & Hrun).
    apply bind_Ok in Hrun as (ys' & m2 & Hrest & Hrun).
    apply ret_Ok in Hrun as [-> ->].
    destruct (Hf x m y m1) as [HP1 HQ]; [by left | exact HP | exact Hx |].
    destruct (IH (fun z n v n' Hz => Hf z n v n' (list_elem_of_further _ _ _ Hz))
                m1 ys' m2 HP1 Hrest) as [HP2 Hall].
    split; [exact HP2 | by constructor].
Qed.

Lemma for_each_post {A} (P : Market.model -> Prop) (G : A -> Market.model -> Prop)
    (xs : list A) (body : A -> M unit) :
  (forall x m m', x ∈ xs -> P m -> body x m = Ok (tt, m') -> P m' /\ G x m') ->
  (forall x y m m', y ∈ xs -> P m -> G x m -> body y m = Ok (tt, m') -> G x m') ->
  forall m m', P m -> for_each xs body m = Ok (tt, m') ->
    P m' /\ forall x, x ∈ xs -> G x m'.
Proof.
  induction xs as [|x xs IH]; intros Hbody Hstable m m' HP Hrun; simpl in Hrun.
  - apply ret_Ok in Hrun as [_ ->]. split; [exact HP|].
    intros x Hx. by apply elem_of_nil in Hx.
  - apply bind_Ok in Hrun as ([] & m1 & Hx & Hrest).
    destruct (Hbody x m m1) as [HP1 HG1]; [by left | exact HP | exact Hx |].
    assert (Hgen : G x m').
    { apply (for_each_inv (fun n => P n /\ G x n) xs body) with (m := m1) (m' := m');
        [ | by split | exact Hrest].
      intros y n n' Hy [HPn HGn] Hb. split.
      - eapply Hbody; [by right | exact HPn | exact Hb].
      - eapply Hstable; [by right | exact HPn | exact HGn | exact Hb]. }
    destruct (IH (fun z n n' Hz => Hbody z n n' (list_elem_of_further _ _ _ Hz))
                 (fun z z' n n' Hz' => Hstable z z' n n' (list_elem_of_further _ _ _ Hz'))
                 m1 m' HP1 Hrest) as [HP' HG'].
    split; [exact HP'|]. intros z Hz.
    apply elem_of_cons in Hz as [->|Hz]; [exact Hgen | by apply HG'].
Qed.

Lemma worker_setup_Ok wid m w m' :
  worker_setup wid m = Ok (w, m') ->
  (exists r', m' = Market.with_random r' m) /\
  Worker.id w = wid /\ fresh_worker (Params.prod_range (Market.p m)) w.
Proof.
  unfold worker_setup. intros H.
  apply bind_Ok in H as (m0 & m1 & Hg & H). apply get_Ok in Hg as [-> ->].
  apply bind_Ok in H as (c & m1 & Hc & H).
  apply with_rng_Ok in Hc as (r1 & Hc & ->).
  apply bind_Ok in H as (x & m2 & Hx & H).
  apply with_rng_Ok in Hx as (r2 & Hx & ->).
  apply ret_Ok in H as [-> ->]. simpl in *.
  split; [by exists r2|]. split; [reflexivity|].
  unfold fresh_worker. simpl. split.
  { apply choice_Ok in Hc. apply elem_of_cons in Hc as [->|Hc]; [by right|].
    apply list_elem_of_singleton in Hc as ->. by left. }
  split; [|by repeat split].
  exists x. split; [reflexivity|].
  unfold randint in Hx.
  destruct (Z.ltb_spec (snd (Params.prod_range (Market.p m)))
                       (fst (Params.prod_range (Market.p m)))) as [Hlt|Hle];
    [discriminate|].
  unfold next in Hx. injection Hx as <- _.
  set (a := fst (Params.prod_range (Market.p m))) in *.
  set (b := snd (Params.prod_range (Market.p m))) in *.
  assert (gen r1 (pos r1) mod Z.to_N (b - a + 1) < Z.to_N (b - a + 1))%N
    by (apply N.mod_lt; lia).
  clearbody a b. set (q := (_ mod _)%N) in *. clearbody q. lia.
Qed.

Lemma unit_fraction (x : N) :
  (0 <= Z.of_N (x mod 9007199254740992) # 9007199254740992 < 1)%Q.
Proof.
  assert (x mod 9007199254740992 < 9007199254740992)%N by (by apply N.mod_lt).
  set (q := (x mod _)%N) in *. clearbody q.
  unfold Qle, Qlt. cbn [Qnum Qden]. lia.
Qed.

Lemma firm_setup_Ok fid m f m' :
  firm_setup fid m = Ok (f, m') ->
  (exists r', m' = Market.with_random r' m) /\ fresh_firm (Market.p m) fid f.
Proof.
  unfold firm_setup. intros H.
  apply bind_Ok in H as (m0 & m1 & Hg & H). apply get_Ok in Hg as [-> ->].
  apply bind_Ok in H as (u & m1 & Hu & H).
  apply with_rng_Ok in Hu as (r1 & Hu & ->).
  apply ret_Ok in H as [-> ->].
  split; [by exists r1|].
  unfold fresh_firm. simpl. repeat split.
  unfold uniform, next in Hu. injection Hu as <- _.
  eexists. split; [apply unit_fraction | reflexivity].
Qed.

(** What the body of the loop of [setup] does. *)
Lemma setup_pair_Ok i m m' :
  MarketOps.setup_pair i m = Ok (tt, m') ->
  exists w f,
    Market.workers m !! i = Some w /\ Market.firms m !! i = Some f /\
    let w1 := Worker.with_employer (Some i) (Some (Firm.id f))
                (Some (Firm.size f)) w in
    let f1 := resized (Market.workers m)
                (Firm.with_employees (hired i (Firm.employees f)) f) in
    roster_valid (Market.workers m) (hired i (Firm.employees f)) /\
    m' = Market.with_workers
           (<[i := Worker.with_wage (wage_offer f1 w1) w1]> (Market.workers m))
           (Market.with_firms (<[i := f1]> (Market.firms m)) m).
Proof.
  unfold MarketOps.setup_pair. intros H.
  apply bind_Ok in H as ([] & m1 & Hu & H).
  apply update_employer_Ok in Hu as (w & f & Hw & Hf & ->).
  apply bind_Ok in H as ([] & m2 & Hh & H).
  apply hire_Ok in Hh as (f0 & Hf0 & Hv & ->). simpl in Hf0, Hv.
  assert (f0 = f) as -> by congruence.
  assert (Hlt : i < length (Market.workers m)) by (eapply lookup_lt_Some; eauto).
  assert (Hltf : i < length (Market.firms m)) by (eapply lookup_lt_Some; eauto).
  apply bind_Ok in H as (x & m3 & Hx & H).
  apply calc_wage_Ok in Hx as (f1 & w1 & Hf1 & Hw1 & -> & ->). simpl in Hf1, Hw1.
  rewrite list_lookup_insert_eq in Hf1 by exact Hltf. injection Hf1 as <-.
  rewrite list_lookup_insert_eq in Hw1 by exact Hlt. injection Hw1 as <-.
  apply bind_Ok in H as (w2 & m4 & Hw2 & H).
  apply get_worker_Ok in Hw2 as [Hw2 ->]. simpl in Hw2.
  rewrite list_lookup_insert_eq in Hw2 by exact Hlt. injection Hw2 as <-.
  apply put_worker_Ok in H. subst m'. simpl.
  exists w, f. split; [exact Hw|]. split; [exact Hf|].
  assert (Hcc : forall c es,
            class_count (<[i := Worker.with_employer (Some i) (Some (Firm.id f))
                                   (Some (Firm.size f)) w]> (Market.workers m)) c es
            = class_count (Market.workers m) c es).
  { intros c es. by apply (class_count_insert _ _ w). }
  split.
  - apply roster_valid_elem. intros k Hk.
    rewrite roster_valid_elem in Hv. specialize (Hv k Hk).
    by apply list_lookup_insert_is_Some in Hv.
  - rewrite list_insert_insert_eq. unfold resized. simpl. by rewrite !Hcc.
Qed.

Lemma setup_pair_inv i m m' :
  setup_inv m -> MarketOps.setup_pair i m = Ok (tt, m') ->
  setup_inv m' /\
  exists w', Market.workers m' !! i = Some w' /\ Worker.employer w' = Some i.
Proof.
  intros (Hc & Hown & Hn) H.
  apply setup_pair_Ok in H as (w & f & Hw & Hf & Hv & ->).
  set (ws := Market.workers m) in *. set (fs := Market.firms m) in *.
  set (f1 := resized ws (Firm.with_employees (hired i (Firm.employees f)) f)) in *.
  set (w1 := Worker.with_wage _ _).
  assert (Hlt : i < length ws) by (eapply lookup_lt_Some; eauto).
  assert (Hltf : i < length fs) by (eapply lookup_lt_Some; eauto).
  assert (L1 : linked_except (Some i) ws (<[i := f1]> fs)).
  { eapply (linked_put_firm _ _ _ _ f);
      [apply linked_weaken, Hc | exact Hf | reflexivity | | | | ].
    - intros k Hk. unfold f1. simpl. rewrite hired_elem.
      split; [intros [->|?]; [congruence | auto] | auto].
    - apply hired_NoDup. eapply le_nodup; eauto.
    - exact Hv.
    - apply sizes_ok_resized. }
  assert (L2 : linked_except (Some i) (<[i := w1]> ws) (<[i := f1]> fs)).
  { eapply (linked_put_worker _ _ _ _ w); [exact L1 | exact Hw | reflexivity |].
    intros Hx. congruence. }
  split; [split; [|split]|].
  - unfold consistent. simpl.
    eapply linked_close; [exact L2 | by apply list_lookup_insert_eq | | ].
    + intros k [= <-]. exists f1. split; [by apply list_lookup_insert_eq|].
      split; [reflexivity|]. unfold f1. simpl. apply hired_elem. by left.
    + intros k g Hg Hin. simpl. f_equal.
      destruct (decide (k = i)) as [->|Hk]; [reflexivity|].
      rewrite list_lookup_insert_ne in Hg by congruence.
      destruct (le_roster _ _ _ Hc k g i) as (w' & Hw' & He);
        [discriminate | exact Hg | exact Hin |].
      fold ws in Hw'. assert (w' = w) as -> by congruence.
      destruct (Hown i w Hw) as [Hnone|Hsome]; congruence.
  - intros k v. simpl. destruct (decide (k = i)) as [->|Hk].
    + rewrite list_lookup_insert_eq by exact Hlt. intros [= <-]. by right.
    + rewrite list_lookup_insert_ne by congruence. apply Hown.
  - simpl. by rewrite length_insert.
  - exists w1. simpl. split; [by apply list_lookup_insert_eq | reflexivity].
Qed.

(** [setup] creates the agents and then pairs worker [i] with firm [i]. *)
Lemma setup_Ok p r m :
  MarketOps.setup (MarketOps.init p r) = Ok (tt, m) ->
  exists ws fs r',
    Forall2 (fun k w => Worker.id w = 1 + k /\ fresh_worker (Params.prod_range p) w)
      (seq 0 (Params.n_workers p)) ws /\
    Forall2 (fun k f => fresh_firm p (1 + Params.n_workers p + k) f)
      (seq 0 (2 * Params.n_workers p + 1)) fs /\
    for_each (seq 0 (Params.n_workers p)) MarketOps.setup_pair
      (Market.mk p ws fs r' 0 [] []) = Ok (tt, m).
Proof.
  unfold MarketOps.setup. intros H.
  apply bind_Ok in H as (m0 & m1 & Hg & H). apply get_Ok in Hg as [-> ->].
  simpl in H.
  apply bind_Ok in H as (ws & m1 & Hws & H).
  apply (map_each_inv (fun n => exists r', n = Market.mk p [] [] r' 0 [] [])
           (fun k w => Worker.id w = 1 + k /\ fresh_worker (Params.prod_range p) w))
    in Hws as [[r1 ->] Hws]; [ | | by exists r].
  2:{ intros k n w n' _ [r0 ->] Hk.
      apply worker_setup_Ok in Hk as ([r' ->] & Hid & Hfresh). split; [by eexists|].
      auto. }
  apply bind_Ok in H as ([] & m2 & Hput & H). injection Hput as <-.
  apply bind_Ok in H as (fs & m3 & Hfs & H).
  apply (map_each_inv (fun n => exists r', n = Market.mk p ws [] r' 0 [] [])
           (fun k f => fresh_firm p (1 + Params.n_workers p + k) f))
    in Hfs as [[r2 ->] Hfs]; [ | | by exists r1].
  2:{ intros k n f n' _ [r0 ->] Hk.
      apply firm_setup_Ok in Hk as ([r' ->] & Hfresh). split; [by eexists|].
      exact Hfresh. }
  apply bind_Ok in H as ([] & m4 & Hput & H). injection Hput as <-.
  exists ws, fs, r2. auto.
Qed.

Lemma fresh_agents_inv p ws fs r :
  Forall2 (fun k w => Worker.id w = 1 + k /\ fresh_worker (Params.prod_range p) w)
    (seq 0 (Params.n_workers p)) ws ->
  Forall2 (fun k f => fresh_firm p (1 + Params.n_workers p + k) f)
    (seq 0 (2 * Params.n_workers p + 1)) fs ->
  setup_inv (Market.mk p ws fs r 0 [] []).
Proof.
  intros Hws Hfs.
  assert (Hw : forall i w, ws !! i = Some w -> fresh_worker (Params.prod_range p) w).
  { intros i w Hi. destruct (Forall2_lookup_r _ _ _ _ _ Hws Hi) as (k & _ & _ & Hf).
    exact Hf. }
  assert (Hf : forall j f, fs !! j = Some f ->
                 fresh_firm p (1 + Params.n_workers p + j) f).
  { intros j f Hj. destruct (Forall2_lookup_r _ _ _ _ _ Hfs Hj) as (k & Hk & Hfr).
    apply lookup_seq in Hk as [-> _]. exact Hfr. }
  split; [|split].
  - constructor; simpl.
    + intros i w Hi. apply (Hw i w Hi).
    + intros i w j _ Hi He.
      destruct (Hw i w Hi) as (_ & _ & _ & _ & _ & _ & Hnone & _). congruence.
    + intros j f i _ Hj Hin.
      destruct (Hf j f Hj) as (_ & _ & Hes & _). rewrite Hes in Hin.
      by apply elem_of_nil in Hin.
    + intros j f Hj. destruct (Hf j f Hj) as (_ & _ & -> & _). constructor.
    + intros j f Hj. destruct (Hf j f Hj) as (_ & _ & -> & _). constructor.
    + intros j f Hj. destruct (Hf j f Hj) as (_ & _ & Hes & H0 & H1 & H2 & _).
      unfold sizes_ok, class_count. rewrite Hes, H0, H1, H2. auto.
    + intros j j' f f' Hj Hj' Hid.
      destruct (Hf j f Hj) as (Hid1 & _). destruct (Hf j' f' Hj') as (Hid2 & _). lia.
  - simpl. intros i w Hi.
    destruct (Hw i w Hi) as (_ & _ & _ & _ & _ & _ & Hnone & _). by left.
  - simpl. apply Forall2_length in Hws. by rewrite <- Hws, length_seq.
Qed.

Lemma setup_pair_frame i m m' :
  MarketOps.setup_pair i m = Ok (tt, m') ->
  Market.p m' = Market.p m /\
  forall k, k <> i -> Market.workers m' !! k = Market.workers m !! k.
Proof.
  intros H. apply setup_pair_Ok in H as (w & f & _ & _ & _ & ->). simpl.
  split; [reflexivity|]. intros k Hk. by rewrite list_lookup_insert_ne.
Qed.

Lemma setup_wf p r m :
  MarketOps.setup (MarketOps.init p r) = Ok (tt, m) ->
  well_formed m /\ Market.p m = p.
Proof.
  intros H. apply setup_Ok in H as (ws & fs & r' & Hws & Hfs & Hloop).
  pose proof (fresh_agents_inv p ws fs r' Hws Hfs) as Hinv.
  apply (for_each_post
           (fun n => setup_inv n /\ Market.p n = p)
           (fun i n => exists w, Market.workers n !! i = Some w /\
                                 Worker.employer w = Some i))
    in Hloop as [[(Hc & Hown & Hn) Hp] Hall]; [ | | | by split].
  - split; [|exact Hp]. split; [exact Hc|]. split; [|exact Hn].
    intros i w Hi.
    destruct (Hall i) as (w' & Hw' & He).
    + apply elem_of_seq. split; [lia|]. simpl. rewrite <- Hp, <- Hn.
      eapply lookup_lt_Some; eauto.
    + assert (w' = w) as -> by congruence. eauto.
  - intros i n n' _ [Hi Hpn] Hb.
    destruct (setup_pair_inv _ _ _ Hi Hb) as [Hi' HG].
    destruct (setup_pair_frame _ _ _ Hb) as [Hp' _].
    split; [split; [exact Hi' | congruence] | exact HG].
  - intros x y n n' _ [Hi Hpn] (w & Hw & He) Hb.
    destruct (decide (x = y)) as [->|Hxy].
    + by destruct (setup_pair_inv _ _ _ Hi Hb) as [_ HG].
    + destruct (setup_pair_frame _ _ _ Hb) as [_ Hk].
      exists w. rewrite Hk by exact Hxy. auto.
Qed.

(** ** Reachable states *)

Lemma update_frame m m' :
  MarketOps.update m = Ok (tt, m') ->
  Market.p m' = Market.p m /\ Market.workers m' = Market.workers m /\
  Market.firms m' = Market.firms m /\ Market.random m' = Market.random m /\
  Market.t m' = Market.t m.
Proof. unfold MarketOps.update. intros [= <-]. by repeat split. Qed.

Lemma reachable_wf m : reachable m -> well_formed m.
Proof.
  induction 1 as [p r m Hs | m _ IH | m m' _ IH Hstep | m m' _ IH Hup].
  - by apply setup_wf in Hs as [Hwf _].
  - exact IH.
  - eapply step_wf; eauto.
  - apply update_frame in Hup as (Hp & Hw & Hf & _).
    destruct IH as (Hc & He & Hn). unfold well_formed, consistent, all_employed.
    rewrite Hp, Hw, Hf. auto.
Qed.

(** ** Counting employees *)

Lemma class_count_split ws es :
  (forall i, i ∈ es -> exists w, ws !! i = Some w /\
      (Worker.d_class w = 0%Z \/ Worker.d_class w = 1%Z)) ->
  class_count ws 0 es + class_count ws 1 es = length es.
Proof.
  unfold class_count. induction es as [|i es IH]; intros Hes; [reflexivity|].
  rewrite !filter_cons.
  destruct (Hes i) as (w & Hw & Hc); [by left|].
  assert (IH' := IH (fun k Hk => Hes k (list_elem_of_further _ _ _ Hk))).
  rewrite Hw. simpl. destruct Hc as [Hc|Hc]; rewrite Hc.
  - rewrite decide_True by reflexivity. rewrite decide_False by discriminate.
    simpl. lia.
  - rewrite decide_False by discriminate. rewrite decide_True by reflexivity.
    simpl. lia.
Qed.

Lemma concat_length (ls : list (list nat)) :
  length (concat ls) = sum_list (map length ls).
Proof.
  induction ls as [|l ls IH]; simpl; [reflexivity|].
  rewrite length_app. lia.
Qed.

Lemma concat_elem (x : nat) (ls : list (list nat)) :
  x ∈ concat ls <-> exists j l, ls !! j = Some l /\ x ∈ l.
Proof.
  induction ls as [|l ls IH]; simpl.
  - split; [intros H; by apply elem_of_nil in H | intros (j & l & H & _); done].
  - rewrite elem_of_app, IH. split.
    + intros [H|(j & l' & Hj & H)]; [by exists 0, l | by exists (S j), l'].
    + intros ([|j] & l' & Hj & H); simpl in Hj.
      * injection Hj as <-. by left.
      * right. eauto.
Qed.

Lemma concat_NoDup (ls : list (list nat)) :
  (forall j l, ls !! j = Some l -> NoDup l) ->
  (forall j j' l l' x, ls !! j = Some l -> ls !! j' = Some l' ->
     x ∈ l -> x ∈ l' -> j = j') ->
  NoDup (concat ls).
Proof.
  induction ls as [|l ls IH]; intros Hnd Hdisj; simpl; [constructor|].
  apply list.NoDup_app. split; [by apply (Hnd 0)|]. split.
  - intros x Hx Hx'. apply concat_elem in Hx' as (j & l' & Hj & Hin).
    specialize (Hdisj 0 (S j) l l' x eq_refl Hj Hx Hin). discriminate.
  - apply IH.
    + intros j l' Hj. by apply (Hnd (S j)).
    + intros j j' l1 l2 x Hj Hj' H1 H2.
      specialize (Hdisj (S j) (S j') l1 l2 x Hj Hj' H1 H2). lia.
Qed.

(** In a well-formed model the rosters partition the workers. *)
Lemma rosters_partition m :
  well_formed m ->
  concat (map Firm.employees (Market.firms m))
    ≡ₚ seq 0 (length (Market.workers m)).
Proof.
  intros (Hc & He & _). apply NoDup_Permutation.
  - apply concat_NoDup.
    + intros j l Hj. rewrite list_lookup_fmap in Hj.
      destruct (Market.firms m !! j) as [f|] eqn:Hf; [|discriminate].
      injection Hj as <-. eapply le_nodup; eauto.
    + intros j j' l l' x Hj Hj' Hx Hx'. rewrite list_lookup_fmap in Hj, Hj'.
      destruct (Market.firms m !! j) as [f|] eqn:Hf; [|discriminate].
      destruct (Market.firms m !! j') as [f'|] eqn:Hf'; [|discriminate].
      injection Hj as <-. injection Hj' as <-.
      destruct (le_roster _ _ _ Hc j f x) as (w & Hw & Hwj); [discriminate | done | done |].
      destruct (le_roster _ _ _ Hc j' f' x) as (w' & Hw' & Hwj'); [discriminate | done | done |].
      congruence.
  - apply NoDup_seq.
  - intros x. rewrite concat_elem, elem_of_seq. split.
    + intros (j & l & Hj & Hx). rewrite list_lookup_fmap in Hj.
      destruct (Market.firms m !! j) as [f|] eqn:Hf; [|discriminate].
      injection Hj as <-.
      destruct (le_roster _ _ _ Hc j f x) as (w & Hw & _); [discriminate | done | done |].
      apply lookup_lt_Some in Hw. lia.
    + intros [_ Hlt]. destruct (lookup_lt_is_Some_2 (Market.workers m) x) as [w Hw]; [lia|].
      destruct (He x w Hw) as [j Hj].
      destruct (le_link _ _ _ Hc x w j) as (f & Hf & _ & Hin); [discriminate | done | done |].
      exists j, (Firm.employees f). rewrite list_lookup_fmap, Hf. auto.
Qed.

Lemma sizes_sum m :
  well_formed m ->
  sum_list (map Firm.size (Market.firms m)) = length (Market.workers m).
Proof.
  intros Hwf.
  transitivity (length (seq 0 (length (Market.workers m))));
    [| by rewrite length_seq].
  rewrite <- (Permutation_length (rosters_partition m Hwf)).
  rewrite concat_length. f_equal. rewrite map_map.
  destruct Hwf as (Hc & _ & _).
  apply list_eq. intros j. rewrite !list_lookup_fmap.
  destruct (Market.firms m !! j) as [f|] eqn:Hf; [|reflexivity].
  simpl. f_equal. by destruct (le_sizes _ _ _ Hc j f Hf) as [-> _].
Qed.

(** ** Relating the workers before and after a step *)

Section WorkerRelation.
Variable R : Worker.t -> Worker.t -> Prop.
Variable premium : Q.
Hypothesis R_refl : forall w, R w w.
Hypothesis R_trans : forall a b c, R a b -> R b c -> R a c.
Hypothesis R_same : forall w w', same_person w w' -> R w w'.
Hypothesis R_educ : forall fs w w',
  Worker.educ w = false -> educated_paid premium fs w = Some w' -> R w w'.

Local Abbreviation evolved := (evolved R).

Lemma evolved_refl m : evolved m m.
Proof.
  split; [reflexivity|]. apply Forall_Forall2_diag, list.Forall_forall. auto.
Qed.

Lemma evolved_trans a b c : evolved a b -> evolved b c -> evolved a c.
Proof.
  intros [Hp1 H1] [Hp2 H2]. split; [congruence|].
  eapply (Forall2_trans R R R); eauto.
Qed.

Lemma evolved_put_worker m i w w' :
  Market.workers m !! i = Some w -> R w w' ->
  evolved m (Market.with_workers (<[i := w']> (Market.workers m)) m).
Proof.
  intros Hw HR. split; [reflexivity|]. simpl.
  apply Forall2_same_length_lookup_2; [by rewrite length_insert|].
  intros k a b Ha Hb. destruct (decide (k = i)) as [->|Hne].
  - rewrite list_lookup_insert_eq in Hb by (eapply lookup_lt_Some; eauto).
    injection Hb as <-. congruence.
  - rewrite list_lookup_insert_ne in Hb by congruence.
    assert (b = a) as -> by congruence. apply R_refl.
Qed.

Lemma evolved_same_workers m m' :
  Market.p m' = Market.p m -> Market.workers m' = Market.workers m ->
  evolved m m'.
Proof.
  intros Hp Hw. split; [exact Hp|]. rewrite Hw.
  apply Forall_Forall2_diag, list.Forall_forall. auto.
Qed.

Lemma for_each_evolved {A} (xs : list A) (body : A -> M unit) :
  (forall x m m', body x m = Ok (tt, m') -> evolved m m') ->
  forall m m', for_each xs body m = Ok (tt, m') -> evolved m m'.
Proof.
  intros Hbody m m' Hrun.
  apply (for_each_inv (fun n => evolved m n) xs body) with (m := m);
    [ | apply evolved_refl | exact Hrun].
  intros x n n' _ Hn Hb. eapply evolved_trans; eauto.
Qed.

Lemma set_flag_evolved i (set : Worker.t -> Worker.t) m m' :
  (forall w, same_person w (set w)) ->
  (w <- get_worker i ;; put_worker i (set w)) m = Ok (tt, m') ->
  evolved m m'.
Proof.
  intros Hset H. inv_run H. eapply evolved_put_worker; eauto.
Qed.

Lemma education_evolved i weighted m m' :
  (w <- get_worker i ;;
   if Worker.educ w then ret tt
   else education_decision i premium weighted) m = Ok (tt, m') ->
  evolved m m'.
Proof.
  intros H. apply bind_Ok in H as (w & m1 & Hw & H).
  apply get_worker_Ok in Hw as [Hw ->].
  destruct (Worker.educ w) eqn:Ee.
  - apply ret_Ok in H as [_ ->]. apply evolved_refl.
  - apply education_decision_Ok in H as (w0 & Hw0 & _ & m0 & Hm0 & Hm').
    assert (w0 = w) as -> by congruence.
    assert (H0 : evolved m m0).
    { destruct Hm0 as [->|[r' ->]]; [apply evolved_refl|].
      by apply evolved_same_workers. }
    destruct Hm' as [->|Hed]; [exact H0|].
    eapply evolved_trans; [exact H0|].
    apply get_education_Ok in Hed as (w1 & w' & Hw1 & Hp & ->).
    eapply evolved_put_worker; [exact Hw1|].
    eapply R_educ; [|exact Hp].
    destruct Hm0 as [->|[r' ->]]; simpl in Hw1; congruence.
Qed.

Lemma firm_selection_evolved i n m m' :
  firm_selection i n m = Ok (tt, m') -> evolved m m'.
Proof.
  intros H. apply firm_selection_frame in H
    as (Hp & _ & _ & _ & (w & w' & Hw & Hws & Hsame & _) & _).
  split; [exact Hp|]. rewrite Hws.
  apply (evolved_put_worker m i w w' Hw). by apply R_same.
Qed.

Lemma refresh_employer_size_evolved i m m' :
  MarketOps.refresh_employer_size i m = Ok (tt, m') -> evolved m m'.
Proof.
  unfold MarketOps.refresh_employer_size. intros H.
  apply bind_Ok in H as (w & m1 & Hw & H).
  apply get_worker_Ok in Hw as [Hw ->].
  destruct (Worker.employer w) as [j|]; [|discriminate].
  inv_run H. eapply evolved_put_worker; [exact Hw|].
  apply R_same. by repeat split.
Qed.

Lemma produce_evolved j m m' : produce j m = Ok (tt, m') -> evolved m m'.
Proof.
  unfold produce. intros H.
  apply bind_Ok in H as (f & m1 & Hf & H). apply get_firm_Ok in Hf as [Hf ->].
  apply bind_Ok in H as (es & m1 & Hes & H).
  apply map_each_get_worker in Hes as [-> _].
  apply put_firm_Ok in H. subst m'. by apply evolved_same_workers.
Qed.

Lemma calc_profit_evolved j m m' : calc_profit j m = Ok (tt, m') -> evolved m m'.
Proof.
  unfold calc_profit. intros H.
  apply bind_Ok in H as (f & m1 & Hf & H). apply get_firm_Ok in Hf as [Hf ->].
  apply bind_Ok in H as (es & m1 & Hes & H).
  apply map_each_get_worker in Hes as [-> _].
  apply put_firm_Ok in H. subst m'. by apply evolved_same_workers.
Qed.

Lemma step_evolved m m' :
  Params.premium (Market.p m) = premium ->
  MarketOps.step m = Ok (tt, m') -> evolved m m'.
Proof.
  intros Hprem H. unfold MarketOps.step in H.
  apply bind_Ok in H as (m0 & m1 & Hg & H). apply get_Ok in Hg as [-> ->].
  rewrite Hprem in H.
  apply bind_Ok in H as ([] & m1 & H1 & H).
  apply for_each_evolved in H1.
  2:{ intros i n n'. apply set_flag_evolved. intros w. by repeat split. }
  apply bind_Ok in H as ([] & m2 & H2 & H).
  apply for_each_evolved in H2.
  2:{ intros i n n'. apply set_flag_evolved. intros w. by repeat split. }
  apply bind_Ok in H as (sel & m3 & H3 & H).
  apply agents_random_Ok in H3 as [[r' ->] _].
  apply bind_Ok in H as ([] & m4 & H4 & H).
  apply for_each_evolved in H4.
  2:{ intros i n n'. apply education_evolved. }
  apply bind_Ok in H as ([] & m5 & H5 & H).
  apply for_each_evolved in H5.
  2:{ intros i n n'. apply firm_selection_evolved. }
  apply bind_Ok in H as ([] & m6 & H6 & H).
  apply for_each_evolved in H6.
  2:{ intros i n n'. apply refresh_employer_size_evolved. }
  apply bind_Ok in H as (m7 & m8 & Hg & H). apply get_Ok in Hg as [-> ->].
  apply bind_Ok in H as ([] & m8 & H8 & H).
  apply for_each_evolved in H8.
  2:{ intros j n n'. apply produce_evolved. }
  apply for_each_evolved in H.
  2:{ intros j n n'. apply calc_profit_evolved. }
  eapply evolved_trans; [exact H1|].
  eapply evolved_trans; [exact H2|].
  eapply evolved_trans; [by apply (evolved_same_workers m2 (Market.with_random r' m2))|].
  eapply evolved_trans; [exact H4|].
  eapply evolved_trans; [exact H5|].
  eapply evolved_trans; [exact H6|].
  eapply evolved_trans; [exact H8 | exact H].
Qed.

End WorkerRelation.

(** ** The agents after setup *)

Lemma setup_agents p r m :
  MarketOps.setup (MarketOps.init p r) = Ok (tt, m) ->
  (forall i w, Market.workers m !! i = Some w ->
     drawn_worker p w /\ paid_by_offer p w) /\
  (forall j f, Market.firms m !! j = Some f -> static_firm p f).
Proof.
  intros H. apply setup_Ok in H as (ws & fs & r' & Hws & Hfs & Hloop).
  pose (P := fun n : Market.model =>
              (forall i w, Market.workers n !! i = Some w -> drawn_worker p w) /\
              (forall j f, Market.firms n !! j = Some f -> static_firm p f) /\
              length (Market.workers n) = Params.n_workers p).
  pose (G := fun (i : nat) (n : Market.model) =>
              exists w, Market.workers n !! i = Some w /\ paid_by_offer p w).
  assert (Hbody : forall i n n', P n -> MarketOps.setup_pair i n = Ok (tt, n') ->
                    P n' /\ G i n').
  { intros i n n' (Hd & Hs & Hl) Hb.
    apply setup_pair_Ok in Hb as (w & f & Hw & Hf & _ & ->). unfold P, G. simpl.
    assert (Hlt : i < length (Market.workers n)) by (eapply lookup_lt_Some; eauto).
    assert (Hltf : i < length (Market.firms n)) by (eapply lookup_lt_Some; eauto).
    split; [split; [|split]|].
    - intros k v. destruct (decide (k = i)) as [->|Hk].
      + rewrite list_lookup_insert_eq by exact Hlt. intros [= <-].
        exact (Hd i w Hw).
      + rewrite list_lookup_insert_ne by congruence. apply Hd.
    - intros k g. destruct (decide (k = i)) as [->|Hk].
      + rewrite list_lookup_insert_eq by exact Hltf. intros [= <-].
        exact (Hs i f Hf).
      + rewrite list_lookup_insert_ne by congruence. apply Hs.
    - by rewrite length_insert.
    - eexists. split; [by apply list_lookup_insert_eq|].
      eexists. split; [|reflexivity]. exact (Hs i f Hf). }
  destruct (for_each_post P G (seq 0 (Params.n_workers p)) MarketOps.setup_pair)
    with (m := Market.mk p ws fs r' 0 [] []) (m' := m)
    as [(Hdrawn & Hstatic & Hlen) Hall].
  - intros i n n' _. apply Hbody.
  - intros x y n n' _ HP (w & Hw & Hpaid) Hb.
    destruct (decide (x = y)) as [->|Hxy].
    + by destruct (Hbody y n n' HP Hb) as [_ HG].
    + destruct (setup_pair_frame _ _ _ Hb) as [_ Hk].
      exists w. rewrite Hk by exact Hxy. auto.
  - split; [|split].
    + intros i w Hw. simpl in Hw.
      destruct (Forall2_lookup_r _ _ _ _ _ Hws Hw) as (k & _ & _ & Hfr).
      destruct Hfr as (_ & Hx & _ & Hh & He & _). by repeat split.
    + intros j f Hf. simpl in Hf.
      destruct (Forall2_lookup_r _ _ _ _ _ Hfs Hf) as (k & _ & Hfr).
      destruct Hfr as (_ & Hc & _ & _ & _ & _ & Hp & Hd). by repeat split.
    + simpl. apply Forall2_length in Hws. by rewrite <- Hws, length_seq.
  - exact Hloop.
  - split; [|exact Hstatic]. intros i w Hw. split; [by eapply Hdrawn|].
    destruct (Hall i) as (w' & Hw' & Hpaid).
    + apply elem_of_seq. split; [lia|]. simpl. rewrite <- Hlen.
      eapply lookup_lt_Some; eauto.
    + congruence.
Qed.

(** ** Education over a run *)








(** ** The worked example: equal productivities, no discount, no premium *)

Lemma round2_zero x : (x == 0)%Q -> (round2 x == 0)%Q.
Proof.
  intros Hx. unfold round2, round_half_even.
  assert (H100 : (x * 100 == 0)%Q) by (rewrite Hx; reflexivity).
  assert (Hfloor : Qfloor (x * 100) = 0%Z) by (rewrite H100; reflexivity).
  rewrite Hfloor.
  assert (Hlt : Qltb (x * 100 - inject_Z 0) (1 # 2) = true).
  { apply Qgtb_lt. rewrite H100. reflexivity. }
  rewrite Hlt. reflexivity.
Qed.

Lemma wage_offer_flat f w :
  Firm.price f = 1%Q -> (Firm.d_factor f == 0)%Q -> (Worker.prod w == 10)%Q ->
  (wage_offer f w == 10)%Q.
Proof.
  intros Hp Hd Hw. unfold wage_offer. rewrite Hp.
  destruct (Worker.d_class w =? Firm.d_class f)%Z; rewrite ?Hd, Hw; reflexivity.
Qed.

Lemma fold_Qplus_const (c : Q) (l : list Q) (a : Q) :
  (forall x, x ∈ l -> (x == c)%Q) ->
  (fold_left Qplus l a == a + c * inject_Z (Z.of_nat (length l)))%Q.
Proof.
  revert a. induction l as [|x l IH]; intros a Hl; simpl fold_left.
  - simpl. ring.
  - rewrite IH by (intros y Hy; apply Hl; by right).
    rewrite (Hl x) by (by left).
    rewrite length_cons, Nat2Z.inj_succ. unfold Z.succ. rewrite inject_Z_plus.
    ring.
Qed.

Lemma Qsum_const (c : Q) (l : list Q) :
  (forall x, x ∈ l -> (x == c)%Q) ->
  (Qsum l == c * inject_Z (Z.of_nat (length l)))%Q.
Proof.
  intros Hl. unfold Qsum. rewrite (fold_Qplus_const c) by exact Hl. ring.
Qed.

Lemma flat_put_worker m i w' :
  flat m ->
  (Worker.prod w' == 10)%Q -> Worker.hrs w' = 8%Q -> (Worker.wage w' == 10)%Q ->
  flat (Market.with_workers (<[i := w']> (Market.workers m)) m).
Proof.
  intros [Hw Hf] H1 H2 H3. split; [|exact Hf]. simpl.
  intros k v Hk. apply list_lookup_insert_Some in Hk as [(_ & <- & _)|[_ Hk]]; eauto.
Qed.

Lemma flat_put_firm m j f' :
  flat m -> Firm.price f' = 1%Q -> (Firm.d_factor f' == 0)%Q ->
  flat (Market.with_firms (<[j := f']> (Market.firms m)) m).
Proof.
  intros [Hw Hf] H1 H2. split; [exact Hw|]. simpl.
  intros k v Hk. apply list_lookup_insert_Some in Hk as [(_ & <- & _)|[_ Hk]]; eauto.
Qed.

Lemma setup_flat seed weighted d_class r m :
  MarketOps.setup (MarketOps.init (flat_params seed weighted d_class) r) = Ok (tt, m) ->
  flat_inv (flat_params seed weighted d_class) m.
Proof.
  intros H. destruct (setup_wf _ _ _ H) as [Hwf Hp].
  destruct (setup_agents _ _ _ H) as [Hws Hfs].
  assert (Hstatic : forall f, static_firm (flat_params seed weighted d_class) f ->
            Firm.price f = 1%Q /\ (Firm.d_factor f == 0)%Q).
  { intros f (Hprice & _ & frac & _ & Hd). split; [exact Hprice|].
    rewrite Hd. apply round2_zero. simpl. ring. }
  split; [exact Hwf|]. split; [|split; [exact Hp|]].
  - split.
    + intros i w Hw. destruct (Hws i w Hw) as [((x & Hx & Hr) & Hh & _) (f & Hf & Hwage)].
      simpl in Hr. assert (x = 10%Z) as -> by lia.
      assert (Hprod : (Worker.prod w == 10)%Q) by (rewrite Hx; reflexivity).
      split; [exact Hprod|]. split; [exact Hh|].
      rewrite Hwage. destruct (Hstatic f Hf). by apply wage_offer_flat.
    + intros j f Hf. apply Hstatic. eauto.
  - apply setup_Ok in H as (ws & fs & r' & _ & Hfs' & Hloop).
    apply Forall2_length in Hfs'. rewrite length_seq in Hfs'. simpl in Hfs'.
    assert (Hlen : forall n n', length (Market.firms n) = 5 ->
              for_each (seq 0 2) MarketOps.setup_pair n = Ok (tt, n') ->
              length (Market.firms n') = 5).
    { intros n n' Hn Hrun.
      apply (for_each_inv (fun n => length (Market.firms n) = 5)) in Hrun;
        [exact Hrun | | exact Hn].
      intros i k k' _ Hk Hb. apply setup_pair_Ok in Hb as (w & f & _ & _ & _ & ->).
      simpl. by rewrite length_insert. }
    rewrite (Hlen (Market.mk _ ws fs r' 0 [] []) m (eq_sym Hfs') Hloop). lia.
Qed.

(** ** Runs that cannot fail *)

Lemma map_each_total {A B} (P : Market.model -> Prop) (xs : list A) (f : A -> M B) :
  (forall x m, x ∈ xs -> P m -> exists y m', f x m = Ok (y, m') /\ P m') ->
  forall m, P m -> exists ys m', map_each xs f m = Ok (ys, m') /\ P m'.
Proof.
  induction xs as [|x xs IH]; intros Hf m HP; simpl.
  - exists [], m. split; [reflexivity | exact HP].
  - destruct (Hf x m) as (y & m1 & Hx & HP1); [by left | exact HP |].
    destruct (IH (fun z n Hz => Hf z n (list_elem_of_further _ _ _ Hz)) m1 HP1)
      as (ys & m' & Hrest & HP').
    exists (y :: ys), m'. split; [|exact HP'].
    erewrite bind_step; [|exact Hx]. erewrite bind_step; [|exact Hrest].
    reflexivity.
Qed.

Lemma for_each_total_post {A} (P : Market.model -> Prop)
    (G : A -> Market.model -> Prop) (xs : list A) (body : A -> M unit) :
  (forall x m, x ∈ xs -> P m ->
     exists m', body x m = Ok (tt, m') /\ P m' /\ G x m') ->
  (forall x y m m', y ∈ xs -> P m -> G x m -> body y m = Ok (tt, m') -> G x m') ->
  forall m, P m ->
    exists m', for_each xs body m = Ok (tt, m') /\ P m' /\
               forall x, x ∈ xs -> G x m'.
Proof.
  intros Hbody Hstable m HP.
  destruct (for_each_total P xs body) with (m := m) as (m' & Hrun & HP').
  - intros x n Hx Hn. destruct (Hbody x n Hx Hn) as (n' & Hb & Hn' & _). eauto.
  - exact HP.
  - exists m'. split; [exact Hrun|].
    apply (for_each_post P G xs body) with (m := m); [ | exact Hstable | exact HP | exact Hrun].
    intros x n n' Hx Hn Hb.
    destruct (Hbody x n Hx Hn) as (n1 & Hb1 & Hn1 & HG1).
    rewrite Hb in Hb1. injection Hb1 as <-. auto.
Qed.

Lemma worker_setup_total wid m :
  (fst (Params.prod_range (Market.p m)) <= snd (Params.prod_range (Market.p m)))%Z ->
  exists w r', worker_setup wid m = Ok (w, Market.with_random r' m).
Proof.
  intros Hrange. unfold worker_setup.
  erewrite bind_step; [|reflexivity].
  destruct (choice_total [1%Z; 0%Z] (Market.random m)) as (c & r1 & Hc);
    [discriminate|].
  erewrite bind_step; [|apply with_rng_Ok; eauto].
  destruct (randint (fst (Params.prod_range (Market.p m)))
                    (snd (Params.prod_range (Market.p m))) r1) as [[x r2]|e] eqn:Hx.
  - erewrite bind_step; [|apply with_rng_Ok; exists r2; split; [exact Hx | reflexivity]].
    eexists. exists r2. reflexivity.
  - unfold randint in Hx.
    destruct (Z.ltb_spec (snd (Params.prod_range (Market.p m)))
                         (fst (Params.prod_range (Market.p m)))); [lia|].
    destruct (next r1). discriminate.
Qed.

Lemma firm_setup_total fid m :
  exists f r', firm_setup fid m = Ok (f, Market.with_random r' m).
Proof.
  unfold firm_setup. erewrite bind_step; [|reflexivity].
  destruct (uniform (fst (Params.d_range (Market.p m)))
                    (snd (Params.d_range (Market.p m))) (Market.random m))
    as [u r1] eqn:Hu.
  erewrite bind_step;
    [|apply with_rng_Ok; exists r1; split; [by rewrite Hu | reflexivity]].
  eexists. exists r1. reflexivity.
Qed.

Lemma setup_pair_total i m :
  consistent m ->
  i < length (Market.workers m) -> i < length (Market.firms m) ->
  exists m', MarketOps.setup_pair i m = Ok (tt, m').
Proof.
  intros Hc Hi Hj.
  destruct (lookup_lt_is_Some_2 _ _ Hi) as [w Hw].
  destruct (lookup_lt_is_Some_2 _ _ Hj) as [f Hf].
  unfold MarketOps.setup_pair.
  erewrite bind_step; [|apply update_employer_Ok; eauto].
  set (w1 := Worker.with_employer _ _ _ w).
  erewrite bind_step.
  2:{ apply hire_Ok. exists f. split; [exact Hf|]. split; [|reflexivity]. simpl.
      apply roster_valid_elem. intros k Hk.
      apply list_lookup_insert_is_Some. apply hired_elem in Hk as [->|Hk]; [eauto|].
      pose proof (le_valid _ _ _ Hc i f Hf) as Hv.
      rewrite roster_valid_elem in Hv. auto. }
  erewrite bind_step.
  2:{ apply calc_wage_Ok. simpl. eexists. exists w1.
      split; [by apply list_lookup_insert_eq|].
      split; [by apply list_lookup_insert_eq|]. split; reflexivity. }
  erewrite bind_step.
  2:{ apply get_worker_Ok. simpl. split; [by apply list_lookup_insert_eq | reflexivity]. }
  eexists. reflexivity.
Qed.

(** [setup] succeeds whenever the productivity range is not empty. *)
Lemma setup_total p r :
  (fst (Params.prod_range p) <= snd (Params.prod_range p))%Z ->
  exists m, MarketOps.setup (MarketOps.init p r) = Ok (tt, m).
Proof.
  intros Hrange. unfold MarketOps.setup.
  erewrite bind_step; [|reflexivity]. cbv beta zeta. simpl Market.p.
  destruct (map_each_total (fun n => exists r', n = Market.mk p [] [] r' 0 [] [])
              (seq 0 (Params.n_workers p)) (fun k => worker_setup (1 + k)))
    with (m := MarketOps.init p r) as (ws & m1 & Hws & [r1 ->]).
  { intros k n _ [r0 ->].
    destruct (worker_setup_total (1 + k) (Market.mk p [] [] r0 0 [] []) Hrange)
      as (w & r' & Hw). exists w. eexists. split; [exact Hw|]. by eexists. }
  { by exists r. }
  erewrite bind_step; [|exact Hws]. erewrite bind_step; [|reflexivity].
  cbv beta. unfold Market.with_workers at 1. simpl.
  destruct (map_each_total (fun n => exists r', n = Market.mk p ws [] r' 0 [] [])
              (seq 0 (2 * Params.n_workers p + 1))
              (fun k => firm_setup (1 + Params.n_workers p + k)))
    with (m := Market.mk p ws [] r1 0 [] []) as (fs & m2 & Hfs & [r2 ->]).
  { intros k n _ [r0 ->].
    destruct (firm_setup_total (1 + Params.n_workers p + k) (Market.mk p ws [] r0 0 [] []))
      as (f & r' & Hf). exists f. eexists. split; [exact Hf|]. by eexists. }
  { by exists r1. }
  erewrite bind_step; [|exact Hfs]. erewrite bind_step; [|reflexivity].
  cbv beta. unfold Market.with_firms at 1. simpl.
  assert (Hws' : Forall2 (fun k w => Worker.id w = 1 + k /\
                            fresh_worker (Params.prod_range p) w)
                   (seq 0 (Params.n_workers p)) ws).
  { apply (map_each_inv (fun n => exists r', n = Market.mk p [] [] r' 0 [] [])
             (fun k w => Worker.id w = 1 + k /\ fresh_worker (Params.prod_range p) w))
      in Hws as [_ Hws]; [exact Hws | | by exists r].
    intros k n w n' _ [r0 ->] Hk.
    apply worker_setup_Ok in Hk as ([r' ->] & Hid & Hfresh).
    split; [by eexists | auto]. }
  assert (Hfs' : Forall2 (fun k f => fresh_firm p (1 + Params.n_workers p + k) f)
                   (seq 0 (2 * Params.n_workers p + 1)) fs).
  { apply (map_each_inv (fun n => exists r', n = Market.mk p ws [] r' 0 [] [])
             (fun k f => fresh_firm p (1 + Params.n_workers p + k) f))
      in Hfs as [_ Hfs]; [exact Hfs | | by exists r1].
    intros k n f n' _ [r0 ->] Hk.
    apply firm_setup_Ok in Hk as ([r' ->] & Hfresh).
    split; [by eexists | auto]. }
  pose proof (fresh_agents_inv p ws fs r2 Hws' Hfs') as Hinv.
  apply Forall2_length in Hfs'. rewrite length_seq in Hfs'.
  destruct (for_each_total
              (fun n => setup_inv n /\ Market.p n = p /\
                        length (Market.firms n) = 2 * Params.n_workers p + 1)
              (seq 0 (Params.n_workers p)) MarketOps.setup_pair)
    with (m := Market.mk p ws fs r2 0 [] []) as (m & Hrun & _).
  - intros i n Hi (Hn & Hp & Hlen).
    apply elem_of_seq in Hi as [_ Hi]. simpl in Hi.
    destruct Hn as (Hc & Hown & Hl). rewrite Hp in Hl.
    destruct (setup_pair_total i n Hc) as [n' Hb]; [lia | lia |].
    exists n'. split; [exact Hb|].
    destruct (setup_pair_inv i n n') as [Hinv' _];
      [split; [exact Hc|]; split; [exact Hown | by rewrite Hp] | exact Hb |].
    destruct (setup_pair_frame _ _ _ Hb) as [Hp' _].
    split; [exact Hinv'|]. split; [congruence|].
    apply setup_pair_Ok in Hb as (w & f & _ & _ & _ & ->). simpl.
    by rewrite length_insert.
  - split; [exact Hinv|]. split; [reflexivity | by symmetry].
  - exists m. exact Hrun.
Qed.

(** ** A step of the worked example *)

Lemma flat_inv_put_worker prm m i w w' :
  flat_inv prm m -> Market.workers m !! i = Some w ->
  Worker.d_class w' = Worker.d_class w ->
  Worker.employer w' = Worker.employer w ->
  Worker.employer_id w' = Worker.employer_id w ->
  (Worker.prod w' == 10)%Q -> Worker.hrs w' = 8%Q -> (Worker.wage w' == 10)%Q ->
  flat_inv prm (Market.with_workers (<[i := w']> (Market.workers m)) m).
Proof.
  intros (Hwf & Hflat & Hp & Hlen) Hw H1 H2 H3 H4 H5 H6.
  split; [eapply wf_put_worker; eauto|].
  split; [by apply flat_put_worker|]. split; [exact Hp | exact Hlen].
Qed.

Lemma flat_inv_put_firm prm m j f f' :
  flat_inv prm m -> Market.firms m !! j = Some f ->
  Firm.id f' = Firm.id f -> Firm.employees f' = Firm.employees f ->
  Firm.size f' = Firm.size f -> Firm.size_0 f' = Firm.size_0 f ->
  Firm.size_1 f' = Firm.size_1 f ->
  Firm.price f' = Firm.price f -> Firm.d_factor f' = Firm.d_factor f ->
  flat_inv prm (Market.with_firms (<[j := f']> (Market.firms m)) m).
Proof.
  intros (Hwf & Hflat & Hp & Hlen) Hf H1 H2 H3 H4 H5 H6 H7.
  destruct (proj2 Hflat j f Hf) as [Hprice Hd].
  split; [eapply wf_put_firm; eauto|].
  split; [apply flat_put_firm; [exact Hflat | congruence | by rewrite H7]|].
  split; [exact Hp|]. simpl. by rewrite length_insert.
Qed.

Lemma flat_inv_workers prm m :
  flat_inv prm m -> length (Market.workers m) = Params.n_workers prm.
Proof. intros ((_ & _ & Hn) & _ & Hp & _). by rewrite Hn, Hp. Qed.

(** A worker of a well-formed model and its employer. *)
Lemma employed_at m i w :
  well_formed m -> Market.workers m !! i = Some w ->
  exists j f, Worker.employer w = Some j /\ Market.firms m !! j = Some f /\
              Worker.employer_id w = Some (Firm.id f).
Proof.
  intros (Hc & He & _) Hw. destruct (He i w Hw) as [j Hj].
  destruct (le_link _ _ _ Hc i w j) as (f & Hf & Hid & _);
    [discriminate | exact Hw | exact Hj |].
  eauto.
Qed.

Lemma set_flag_flat prm i (set : Worker.t -> Worker.t) m :
  (forall w, Worker.d_class (set w) = Worker.d_class w /\
             Worker.employer (set w) = Worker.employer w /\
             Worker.employer_id (set w) = Worker.employer_id w /\
             Worker.prod (set w) = Worker.prod w /\
             Worker.hrs (set w) = Worker.hrs w /\
             Worker.wage (set w) = Worker.wage w) ->
  flat_inv prm m -> i < length (Market.workers m) ->
  exists m', (w <- get_worker i ;; put_worker i (set w)) m = Ok (tt, m') /\
             flat_inv prm m'.
Proof.
  intros Hset Hinv Hi. destruct (lookup_lt_is_Some_2 _ _ Hi) as [w Hw].
  erewrite bind_step; [|apply get_worker_Ok; eauto].
  eexists. split; [reflexivity|].
  destruct (Hset w) as (H1 & H2 & H3 & H4 & H5 & H6).
  destruct (proj1 (proj1 (proj2 Hinv)) i w Hw) as (Hp & Hh & Hwg).
  eapply flat_inv_put_worker; eauto; congruence.
Qed.

Lemma education_flat prm weighted i m :
  Params.premium prm = 0%Q ->
  flat_inv prm m -> i < length (Market.workers m) ->
  exists m',
    (w <- get_worker i ;;
     if Worker.educ w then ret tt
     else education_decision i (Params.premium prm) weighted) m = Ok (tt, m') /\
    flat_inv prm m'.
Proof.
  intros Hprem Hinv Hi. destruct (lookup_lt_is_Some_2 _ _ Hi) as [w Hw].
  erewrite bind_step; [|apply get_worker_Ok; eauto].
  destruct (Worker.educ w); [exists m; split; [reflexivity | exact Hinv]|].
  pose proof Hinv as (Hwf & Hflat & Hp & Hlen).
  destruct (proj1 Hflat i w Hw) as (Hprod & Hhrs & Hwage).
  destruct (employed_at m i w Hwf Hw) as (j & f & Hj & Hf & _).
  destruct (education_decision_total i (Params.premium prm) weighted m w Hw)
    as [m' Hrun].
  { rewrite Hprod. discriminate. }
  { intros k Hk. rewrite Hj in Hk. injection Hk as <-. eauto. }
  exists m'. split; [exact Hrun|].
  apply education_decision_Ok in Hrun as (w0 & Hw0 & _ & m0 & Hm0 & Hm').
  assert (Hinv0 : flat_inv prm m0) by (destruct Hm0 as [->|[r' ->]]; exact Hinv).
  destruct Hm' as [->|Hed]; [exact Hinv0|].
  apply get_education_Ok in Hed as (w1 & w' & Hw1 & Hpaid & ->).
  assert (Hfs : Market.firms m0 = Market.firms m)
    by (destruct Hm0 as [->|[r' ->]]; reflexivity).
  assert (w1 = w) as ->.
  { destruct Hm0 as [->|[r' ->]]; simpl in Hw1; congruence. }
  rewrite Hfs in Hpaid.
  apply educated_paid_fields in Hpaid
    as (_ & H1 & H2 & H3 & _ & H5 & _ & _ & _ & _ & Hp' & Hwg').
  rewrite Hj in Hwg'. destruct Hwg' as (g & Hg & Hwg').
  assert (Hprod' : (Worker.prod w' == 10)%Q).
  { rewrite Hp', Hprem, Hprod. reflexivity. }
  destruct (proj2 Hflat j g Hg) as [Hprice Hd].
  eapply flat_inv_put_worker; eauto; [congruence|].
  rewrite Hwg'. by apply wage_offer_flat.
Qed.

Lemma select_firms_one_total i m w j f :
  Market.workers m !! i = Some w ->
  Market.firms m !! j = Some f -> other_firm w f = true ->
  exists k r', select_firms i 1 m = Ok ([k], Market.with_random r' m).
Proof.
  intros Hw Hf Hother. unfold select_firms.
  erewrite bind_step; [|apply get_worker_Ok; eauto].
  erewrite bind_step; [|reflexivity].
  unfold agents_random. simpl (1 =? 1)%Z. cbv iota.
  destruct (choice_total (select_refs (other_firm w) (Market.firms m) 0)
              (Market.random m)) as (k & r' & Hk).
  { intros Hnil.
    assert (Hin : j ∈ select_refs (other_firm w) (Market.firms m) 0).
    { apply select_refs_elem. exists f. rewrite Nat.sub_0_r.
      split; [lia | auto]. }
    rewrite Hnil in Hin. by apply elem_of_nil in Hin. }
  erewrite bind_step; [|apply with_rng_Ok; eauto].
  exists k, r'. reflexivity.
Qed.

Lemma rank_firms_one i m w k f m1 :
  Market.workers m !! i = Some w -> Market.firms m !! k = Some f ->
  select_firms i 1 m = Ok ([k], m1) ->
  rank_firms i 1 m = Ok ((k, wage_offer f w), m1).
Proof.
  intros Hw Hf Hsel. unfold rank_firms.
  destruct (select_firms_Ok _ _ _ _ _ Hsel) as (w0 & _ & [r' ->] & _).
  erewrite bind_step; [|exact Hsel].
  erewrite bind_step.
  2:{ apply (map_each_calc_wage _ _ _ w); [exact Hw|].
      split; [reflexivity|]. constructor; [|constructor]. eauto. }
  erewrite bind_step; [|reflexivity].
  erewrite bind_step.
  2:{ apply lift_Ok. split; [|reflexivity]. simpl.
      by rewrite Qeq_bool_refl. }
  erewrite bind_step; [|reflexivity].
  erewrite bind_step; [|reflexivity].
  reflexivity.
Qed.

Lemma firm_selection_flat prm i m :
  flat_inv prm m -> i < length (Market.workers m) ->
  exists m', firm_selection i 1 m = Ok (tt, m') /\ flat_inv prm m'.
Proof.
  intros Hinv Hi. destruct (lookup_lt_is_Some_2 _ _ Hi) as [w Hw].
  pose proof Hinv as (Hwf & Hflat & Hp & Hlen).
  destruct (proj1 Hflat i w Hw) as (Hprod & Hhrs & Hwage).
  destruct (employed_at m i w Hwf Hw) as (old & fo & Hold & Hfo & Heid).
  (* another firm exists *)
  assert (exists j f, Market.firms m !! j = Some f /\ other_firm w f = true)
    as (j & f & Hf & Hother).
  { set (j := if decide (old = 0) then 1 else 0).
    assert (Hj : j < length (Market.firms m))
      by (unfold j; destruct (decide (old = 0)); lia).
    assert (Hne : j <> old) by (unfold j; destruct (decide (old = 0)); lia).
    destruct (lookup_lt_is_Some_2 _ _ Hj) as [f Hf].
    exists j, f. split; [exact Hf|].
    unfold other_firm. rewrite Heid. apply negb_true_iff, bool_decide_eq_false.
    intros [= Hid]. apply Hne.
    destruct Hwf as (Hc & _). eapply le_ids; eauto. }
  set (ws := Worker.with_search true w).
  assert (Hws : Market.workers (searching i w m) !! i = Some ws)
    by (simpl; by apply list_lookup_insert_eq).
  destruct (select_firms_one_total i (searching i w m) ws j f Hws Hf Hother)
    as (k & r' & Hsel).
  destruct (select_firms_Ok _ _ _ _ _ Hsel) as (w0 & _ & _ & Hvalid).
  destruct (Hvalid k) as (g & Hg & _); [by left|]. simpl in Hg.
  pose proof (rank_firms_one i (searching i w m) ws k g _ Hws Hg Hsel) as Hrank.
  assert (Hoffer : (wage_offer g ws == 10)%Q).
  { destruct (proj2 Hflat k g Hg). by apply wage_offer_flat. }
  exists (Market.with_random r' (searching i w m)). split.
  - unfold firm_selection.
    erewrite bind_step; [|apply get_worker_Ok; eauto].
    erewrite bind_step; [|reflexivity].
    fold (searching i w m). erewrite bind_step; [|exact Hrank].
    erewrite bind_step; [|apply get_worker_Ok; split; [exact Hws | reflexivity]].
    cbn [fst snd]. change (Worker.wage ws) with (Worker.wage w).
    assert (Hno : Qgtb (wage_offer g ws) (Worker.wage w) = false).
    { apply Qgtb_le. rewrite Hoffer, Hwage. apply Qle_refl. }
    rewrite Hno. reflexivity.
  - apply (flat_inv_put_worker prm m i w ws); auto.
Qed.

Lemma refresh_employer_size_flat prm i m :
  flat_inv prm m -> i < length (Market.workers m) ->
  exists m', MarketOps.refresh_employer_size i m = Ok (tt, m') /\ flat_inv prm m'.
Proof.
  intros Hinv Hi. destruct (lookup_lt_is_Some_2 _ _ Hi) as [w Hw].
  pose proof Hinv as (Hwf & Hflat & Hp & Hlen).
  destruct (proj1 Hflat i w Hw) as (Hprod & Hhrs & Hwage).
  destruct (employed_at m i w Hwf Hw) as (j & f & Hj & Hf & _).
  unfold MarketOps.refresh_employer_size.
  erewrite bind_step; [|apply get_worker_Ok; eauto].
  rewrite Hj. erewrite bind_step; [|apply get_firm_Ok; eauto].
  eexists. split; [reflexivity|].
  apply (flat_inv_put_worker prm m i w); auto.
Qed.

Lemma produce_Ok j m m' :
  produce j m = Ok (tt, m') ->
  exists f es,
    Market.firms m !! j = Some f /\
    Forall2 (fun i w => Market.workers m !! i = Some w) (Firm.employees f) es /\
    m' = Market.with_firms
           (<[j := Firm.with_outputs
                     (Qsum (map (fun e => Worker.prod e * Worker.hrs e)%Q es))
                     (Qsum (map (fun e => Worker.prod e * Worker.hrs e)%Q
                              (filter (fun e => Worker.d_class e = 0%Z) es)))
                     (Qsum (map (fun e => Worker.prod e * Worker.hrs e)%Q
                              (filter (fun e => Worker.d_class e = 1%Z) es)))
                     f]> (Market.firms m)) m.
Proof.
  unfold produce. intros H.
  apply bind_Ok in H as (f & m1 & Hf & H). apply get_firm_Ok in Hf as [Hf ->].
  apply bind_Ok in H as (es & m1 & Hes & H).
  apply map_each_get_worker in Hes as [-> Hes].
  apply put_firm_Ok in H. eauto.
Qed.

Lemma calc_profit_Ok j m m' :
  calc_profit j m = Ok (tt, m') ->
  exists f es,
    Market.firms m !! j = Some f /\
    Forall2 (fun i w => Market.workers m !! i = Some w) (Firm.employees f) es /\
    let revenue := (Firm.output f * Firm.price f)%Q in
    let costs := Qsum (map (fun e => Worker.wage e * Worker.hrs e)%Q es) in
    m' = Market.with_firms
           (<[j := Firm.with_accounts costs revenue (revenue - costs)%Q f]>
              (Market.firms m)) m.
Proof.
  unfold calc_profit. intros H.
  apply bind_Ok in H as (f & m1 & Hf & H). apply get_firm_Ok in Hf as [Hf ->].
  apply bind_Ok in H as (es & m1 & Hes & H).
  apply map_each_get_worker in Hes as [-> Hes].
  apply put_firm_Ok in H. eauto.
Qed.

Lemma firm_workers m j f :
  well_formed m -> Market.firms m !! j = Some f ->
  exists es, Forall2 (fun i w => Market.workers m !! i = Some w)
               (Firm.employees f) es.
Proof.
  intros (Hc & _) Hf. apply roster_workers. eapply le_valid; eauto.
Qed.

Lemma flat_sum m (g : Worker.t -> Q) (es : list nat) (l : list Worker.t) :
  (forall i w, Market.workers m !! i = Some w -> (g w == 80)%Q) ->
  Forall2 (fun i w => Market.workers m !! i = Some w) es l ->
  (Qsum (map g l) == 80 * inject_Z (Z.of_nat (length es)))%Q.
Proof.
  intros Hg Hl.
  assert (Hlen : length es = length l) by (eapply Forall2_length; eauto).
  rewrite Hlen.
  rewrite <- (length_map g l). apply Qsum_const.
  intros x Hx. apply list_elem_of_fmap in Hx as (w & -> & Hw).
  apply list_elem_of_lookup_1 in Hw as [k Hk].
  destruct (Forall2_lookup_r _ _ _ _ _ Hl Hk) as (i & _ & Hi). eauto.
Qed.

Lemma produce_flat prm j m :
  flat_inv prm m -> j < length (Market.firms m) ->
  exists m', produce j m = Ok (tt, m') /\ flat_inv prm m' /\ output_flat j m'.
Proof.
  intros Hinv Hj. destruct (lookup_lt_is_Some_2 _ _ Hj) as [f Hf].
  pose proof Hinv as (Hwf & Hflat & Hp & Hlen).
  destruct (firm_workers m j f Hwf Hf) as [es Hes].
  unfold produce.
  erewrite bind_step; [|apply get_firm_Ok; eauto].
  erewrite bind_step; [|apply map_each_get_worker; eauto].
  eexists. split; [reflexivity|]. split.
  - eapply flat_inv_put_firm; eauto.
  - intros g. simpl. rewrite list_lookup_insert_eq by exact Hj.
    intros [= <-]. simpl. apply (flat_sum m); [|exact Hes].
    intros i w Hw. destruct (proj1 Hflat i w Hw) as (H1 & H2 & _).
    rewrite H1, H2. reflexivity.
Qed.

Lemma calc_profit_flat prm j m :
  flat_inv prm m -> (forall k, output_flat k m) -> j < length (Market.firms m) ->
  exists m', calc_profit j m = Ok (tt, m') /\
             (flat_inv prm m' /\ forall k, output_flat k m') /\ profit_zero j m'.
Proof.
  intros Hinv Hout Hj. destruct (lookup_lt_is_Some_2 _ _ Hj) as [f Hf].
  pose proof Hinv as (Hwf & Hflat & Hp & Hlen).
  destruct (firm_workers m j f Hwf Hf) as [es Hes].
  unfold calc_profit.
  erewrite bind_step; [|apply get_firm_Ok; eauto].
  erewrite bind_step; [|apply map_each_get_worker; eauto].
  eexists. split; [reflexivity|]. split; [split|].
  - eapply flat_inv_put_firm; eauto.
  - intros k g. simpl. intros Hg.
    apply list_lookup_insert_Some in Hg as [(_ & <- & _)|[_ Hg]].
    + simpl. by apply (Hout j).
    + by apply (Hout k).
  - intros g. simpl. rewrite list_lookup_insert_eq by exact Hj.
    intros [= <-]. simpl.
    destruct (proj2 Hflat j f Hf) as [Hprice _].
    rewrite (Hout j f Hf), Hprice.
    rewrite (flat_sum m (fun e => Worker.wage e * Worker.hrs e)%Q
               (Firm.employees f) es); [ring | | exact Hes].
    intros i w Hw. destruct (proj1 Hflat i w Hw) as (_ & H2 & H3).
    rewrite H2, H3. reflexivity.
Qed.

Lemma agents_random_total {A} (xs : list A) (n : Z) m :
  n <> 1%Z -> (0 <= n <= Z.of_nat (length xs))%Z ->
  exists sel r', agents_random xs n m = Ok (sel, Market.with_random r' m).
Proof.
  intros Hne Hn. unfold agents_random.
  destruct (Z.eqb_spec n 1) as [?|_]; [contradiction|].
  unfold with_rng, sample.
  destruct (Z.ltb_spec n 0) as [?|_]; [lia|].
  destruct (Z.ltb_spec (Z.of_nat (length xs)) n) as [?|_]; [lia|].
  simpl. destruct (draw_distinct (Z.to_nat n) xs (Market.random m)) as [sel r'].
  eauto.
Qed.

Lemma loop_flat prm (xs : list nat) (body : nat -> M unit) :
  (forall x, x ∈ xs -> x < Params.n_workers prm) ->
  (forall i m, flat_inv prm m -> i < length (Market.workers m) ->
     exists m', body i m = Ok (tt, m') /\ flat_inv prm m') ->
  forall m, flat_inv prm m ->
    exists m', for_each xs body m = Ok (tt, m') /\ flat_inv prm m'.
Proof.
  intros Hxs Hbody m Hinv.
  apply (for_each_total (flat_inv prm)); [|exact Hinv].
  intros x n Hx Hn. apply Hbody; [exact Hn|].
  rewrite (flat_inv_workers _ _ Hn). by apply Hxs.
Qed.

(** A step of the worked example succeeds, keeps every wage and productivity
    at 10 and leaves every firm with a profit of 0. *)
Lemma step_flat seed weighted d_class m :
  flat_inv (flat_params seed weighted d_class) m ->
  exists m', MarketOps.step m = Ok (tt, m') /\
             flat_inv (flat_params seed weighted d_class) m' /\
             forall j, profit_zero j m'.
Proof.
  set (prm := flat_params seed weighted d_class). intros Hinv.
  pose proof Hinv as (Hwf & Hflat & Hp & Hlen).
  pose proof (flat_inv_workers _ _ Hinv) as Hn.
  assert (Hevery : forall x, x ∈ seq 0 (length (Market.workers m)) ->
                     x < Params.n_workers prm).
  { intros x Hx. apply elem_of_seq in Hx. lia. }
  unfold MarketOps.step.
  erewrite bind_step; [|reflexivity]. cbv beta zeta. rewrite Hp.
  (* reset the flags *)
  destruct (loop_flat prm (seq 0 (length (Market.workers m)))
              (fun i => w <- get_worker i ;; put_worker i (Worker.with_search false w)))
    with (m := m) as (m1 & H1 & Hinv1); [exact Hevery | | exact Hinv |].
  { intros i n. apply set_flag_flat. intros w. by repeat split. }
  erewrite bind_step; [|exact H1].
  destruct (loop_flat prm (seq 0 (length (Market.workers m)))
              (fun i => w <- get_worker i ;; put_worker i (Worker.with_switch false w)))
    with (m := m1) as (m2 & H2 & Hinv2); [exact Hevery | | exact Hinv1 |].
  { intros i n. apply set_flag_flat. intros w. by repeat split. }
  erewrite bind_step; [|exact H2].
  (* the active workers *)
  change (Qceiling (inject_Z (Z.of_nat (Params.n_workers prm)) * Params.active prm))
    with 2%Z.
  destruct (agents_random_total (seq 0 (length (Market.workers m))) 2 m2)
    as (sel & r' & H3); [discriminate | rewrite length_seq, Hn; simpl; lia |].
  erewrite bind_step; [|exact H3].
  assert (Hsel : forall x, x ∈ sel -> x < Params.n_workers prm).
  { intros x Hx. apply Hevery. by apply (proj2 (agents_random_Ok _ _ _ _ _ H3)). }
  assert (Hinv3 : flat_inv prm (Market.with_random r' m2)) by exact Hinv2.
  (* education, then search *)
  destruct (loop_flat prm sel
              (fun i => w <- get_worker i ;;
                        if Worker.educ w then ret tt
                        else education_decision i (Params.premium prm)
                               (Params.weighted prm)))
    with (m := Market.with_random r' m2) as (m4 & H4 & Hinv4);
    [exact Hsel | | exact Hinv3 |].
  { intros i n. by apply education_flat. }
  erewrite bind_step; [|exact H4].
  destruct (loop_flat prm sel
              (fun i => firm_selection i (Z.of_nat (Params.sample prm))))
    with (m := m4) as (m5 & H5 & Hinv5); [exact Hsel | | exact Hinv4 |].
  { intros i n. apply firm_selection_flat. }
  erewrite bind_step; [|exact H5].
  destruct (loop_flat prm (seq 0 (length (Market.workers m)))
              MarketOps.refresh_employer_size)
    with (m := m5) as (m6 & H6 & Hinv6); [exact Hevery | | exact Hinv5 |].
  { intros i n. apply refresh_employer_size_flat. }
  erewrite bind_step; [|exact H6].
  erewrite bind_step; [|reflexivity]. cbv beta zeta.
  (* production and profit *)
  set (K := length (Market.firms m6)).
  destruct (for_each_total_post
              (fun n => flat_inv prm n /\ length (Market.firms n) = K)
              output_flat (seq 0 K) produce)
    with (m := m6) as (m7 & H7 & [Hinv7 HK7] & Hout7).
  { intros j n Hj [Hn' HK]. apply elem_of_seq in Hj.
    destruct (produce_flat prm j n Hn') as (n' & Hb & Hn'' & Ho); [lia|].
    exists n'. split; [exact Hb|]. split; [|exact Ho]. split; [exact Hn''|].
    apply produce_Ok in Hb as (f & es & _ & _ & ->). simpl.
    by rewrite length_insert. }
  { intros x y n n' Hy [Hn' HK] Hx Hb. apply elem_of_seq in Hy.
    destruct (decide (x = y)) as [->|Hxy].
    - destruct (produce_flat prm y n Hn') as (n1 & Hb1 & _ & Ho); [lia|].
      rewrite Hb in Hb1. by injection Hb1 as <-.
    - apply produce_Ok in Hb as (f & es & _ & _ & ->).
      intros g Hg. simpl in Hg. rewrite list_lookup_insert_ne in Hg by congruence.
      by apply Hx. }
  { by split. }
  erewrite bind_step; [|exact H7].
  assert (Hout : forall k, output_flat k m7).
  { intros k f Hf. apply (Hout7 k); [|exact Hf].
    apply elem_of_seq. apply lookup_lt_Some in Hf. lia. }
  destruct (for_each_total_post
              (fun n => (flat_inv prm n /\ forall k, output_flat k n) /\
                        length (Market.firms n) = K)
              profit_zero (seq 0 K) calc_profit)
    with (m := m7) as (m8 & H8 & [[Hinv8 _] HK8] & Hprofit).
  { intros j n Hj [[Hn' Ho] HK]. apply elem_of_seq in Hj.
    destruct (calc_profit_flat prm j n Hn' Ho) as (n' & Hb & Hn'' & Hz); [lia|].
    exists n'. split; [exact Hb|]. split; [|exact Hz]. split; [exact Hn''|].
    apply calc_profit_Ok in Hb as (f & es & _ & _ & ->). simpl.
    by rewrite length_insert. }
  { intros x y n n' Hy [[Hn' Ho] HK] Hx Hb. apply elem_of_seq in Hy.
    destruct (decide (x = y)) as [->|Hxy].
    - destruct (calc_profit_flat prm y n Hn' Ho) as (n1 & Hb1 & _ & Hz); [lia|].
      rewrite Hb in Hb1. by injection Hb1 as <-.
    - apply calc_profit_Ok in Hb as (f & es & _ & _ & ->).
      intros g Hg. simpl in Hg. rewrite list_lookup_insert_ne in Hg by congruence.
      by apply Hx. }
  { by split. }
  exists m8. split; [exact H8|]. split; [exact Hinv8|].
  intros j f Hf. apply (Hprofit j); [|exact Hf].
  apply elem_of_seq. apply lookup_lt_Some in Hf. lia.
Qed.

(** ** Only [update] records, only the run loop advances the clock *)

Lemma same_records_refl m : same_records m m.
Proof. by repeat split. Qed.

Lemma same_records_trans a b c :
  same_records a b -> same_records b c -> same_records a c.
Proof.
  intros (H1 & H2 & H3) (H4 & H5 & H6). repeat split; congruence.
Qed.

Lemma for_each_records {A} (xs : list A) (body : A -> M unit) :
  (forall x m m', body x m = Ok (tt, m') -> same_records m m') ->
  forall m m', for_each xs body m = Ok (tt, m') -> same_records m m'.
Proof.
  intros Hbody m m' Hrun.
  apply (for_each_inv (fun n => same_records m n) xs body) with (m := m);
    [ | apply same_records_refl | exact Hrun].
  intros x n n' _ Hn Hb. eapply same_records_trans; eauto.
Qed.

Lemma education_decision_records i premium weighted m m' :
  education_decision i premium weighted m = Ok (tt, m') -> same_records m m'.
Proof.
  intros H. apply education_decision_Ok in H as (w & _ & _ & m0 & Hm0 & Hm').
  assert (H0 : same_records m m0)
    by (destruct Hm0 as [->|[r' ->]]; by repeat split).
  destruct Hm' as [->|Hed]; [exact H0|].
  apply get_education_Ok in Hed as (w1 & w' & _ & _ & ->).
  destruct H0 as (H1 & H2 & H3). by repeat split.
Qed.

Lemma step_records m m' :
  MarketOps.step m = Ok (tt, m') -> same_records m m'.
Proof.
  intros H. unfold MarketOps.step in H.
  apply bind_Ok in H as (m0 & m1 & Hg & H). apply get_Ok in Hg as [-> ->].
  apply bind_Ok in H as ([] & m1 & H1 & H).
  apply for_each_records in H1.
  2:{ intros i n n' Hb. inv_run Hb. by repeat split. }
  apply bind_Ok in H as ([] & m2 & H2 & H).
  apply for_each_records in H2.
  2:{ intros i n n' Hb. inv_run Hb. by repeat split. }
  apply bind_Ok in H as (sel & m3 & H3 & H).
  apply agents_random_Ok in H3 as [[r' ->] _].
  apply bind_Ok in H as ([] & m4 & H4 & H).
  apply for_each_records in H4.
  2:{ intros i n n' Hb. apply bind_Ok in Hb as (w & n1 & Hw & Hb).
      apply get_worker_Ok in Hw as [Hw ->].
      destruct (Worker.educ w).
      - apply ret_Ok in Hb as [_ ->]. apply same_records_refl.
      - eapply education_decision_records; eauto. }
  apply bind_Ok in H as ([] & m5 & H5 & H).
  apply for_each_records in H5.
  2:{ intros i n n' Hb. apply firm_selection_frame in Hb as (_ & Ht & Hwl & Hfl & _).
      by repeat split. }
  apply bind_Ok in H as ([] & m6 & H6 & H).
  apply for_each_records in H6.
  2:{ intros i n n' Hb. unfold MarketOps.refresh_employer_size in Hb.
      apply bind_Ok in Hb as (w & n1 & Hw & Hb).
      apply get_worker_Ok in Hw as [Hw ->].
      destruct (Worker.employer w); [|discriminate].
      inv_run Hb. by repeat split. }
  apply bind_Ok in H as (m7 & m8 & Hg & H). apply get_Ok in Hg as [-> ->].
  apply bind_Ok in H as ([] & m8 & H8 & H).
  apply for_each_records in H8.
  2:{ intros j n n' Hb. apply produce_Ok in Hb as (f & es & _ & _ & ->).
      by repeat split. }
  apply for_each_records in H.
  2:{ intros j n n' Hb. apply calc_profit_Ok in Hb as (f & es & _ & _ & ->).
      by repeat split. }
  eapply same_records_trans; [exact H1|].
  eapply same_records_trans; [exact H2|].
  eapply same_records_trans; [|eapply same_records_trans; [exact H4|]].
  { by repeat split. }
  eapply same_records_trans; [exact H5|].
  eapply same_records_trans; [exact H6|].
  eapply same_records_trans; [exact H8 | exact H].
Qed.

Lemma setup_records p r m :
  MarketOps.setup (MarketOps.init p r) = Ok (tt, m) ->
  same_records (MarketOps.init p r) m.
Proof.
  intros H. apply setup_Ok in H as (ws & fs & r' & _ & _ & Hloop).
  apply for_each_records in Hloop.
  - destruct Hloop as (H1 & H2 & H3). by repeat split.
  - intros i n n' Hb. apply setup_pair_Ok in Hb as (w & f & _ & _ & _ & ->).
    by repeat split.
Qed.

(** ** The [switch] flag through a step *)

Lemma switch_reset_put_worker m i w' :
  switch_reset m -> Worker.switch w' = false ->
  switch_reset (Market.with_workers (<[i := w']> (Market.workers m)) m).
Proof.
  intros Hm Hw' k v Hk. simpl in Hk.
  apply list_lookup_insert_Some in Hk as [(_ & <- & _)|[_ Hk]]; eauto.
Qed.

Lemma education_decision_switch i premium weighted m m' :
  switch_reset m -> education_decision i premium weighted m = Ok (tt, m') ->
  switch_reset m'.
Proof.
  intros Hm H. apply education_decision_Ok in H as (w & _ & _ & m0 & Hm0 & Hm').
  assert (H0 : switch_reset m0) by (destruct Hm0 as [->|[r' ->]]; exact Hm).
  destruct Hm' as [->|Hed]; [exact H0|].
  apply get_education_Ok in Hed as (w1 & w' & Hw1 & Hpaid & ->).
  apply switch_reset_put_worker; [exact H0|].
  apply educated_paid_fields in Hpaid as (_ & _ & _ & _ & _ & _ & _ & _ & Hs & _).
  rewrite Hs. eauto.
Qed.

Lemma firm_selection_switch i n m m' :
  switch_reset m -> firm_selection i n m = Ok (tt, m') -> switch_reset m'.
Proof.
  intros Hm H. apply firm_selection_frame in H
    as (_ & _ & _ & _ & (w & w' & Hw & Hws & _ & _ & Hs) & _).
  intros k v Hk. rewrite Hws in Hk.
  apply list_lookup_insert_Some in Hk as [(_ & <- & _)|[_ Hk]]; [|eauto].
  rewrite Hs. eauto.
Qed.

(** After a step, the flag that [update] records is down for every worker. *)
Lemma step_switch_reset m m' :
  MarketOps.step m = Ok (tt, m') -> switch_reset m'.
Proof.
  intros H. unfold MarketOps.step in H.
  apply bind_Ok in H as (m0 & m1 & Hg & H). apply get_Ok in Hg as [-> ->].
  apply bind_Ok in H as ([] & m1 & H1 & H).
  assert (Hlen1 : length (Market.workers m1) = length (Market.workers m)).
  { apply (for_each_inv
             (fun n => length (Market.workers n) = length (Market.workers m)))
      in H1; [exact H1 | | reflexivity].
    intros i n n' _ Hn Hb. inv_run Hb. simpl. by rewrite length_insert. }
  apply bind_Ok in H as ([] & m2 & H2 & H).
  assert (Hreset : switch_reset m2).
  { apply (for_each_post
             (fun n => length (Market.workers n) = length (Market.workers m))
             (fun i n => forall w, Market.workers n !! i = Some w ->
                                   Worker.switch w = false))
      in H2 as [Hlen2 Hall]; [ | | | exact Hlen1].
    - intros i w Hw. apply (Hall i); [|exact Hw].
      apply elem_of_seq. apply lookup_lt_Some in Hw. lia.
    - intros i n n' _ Hn Hb. inv_run Hb. simpl. split.
      + by rewrite length_insert.
      + intros v. rewrite list_lookup_insert_eq by (eapply lookup_lt_Some; eauto).
        by intros [= <-].
    - intros x y n n' _ _ Hx Hb. inv_run Hb. simpl. intros v Hv.
      apply list_lookup_insert_Some in Hv as [(_ & <- & _)|[_ Hv]]; [reflexivity|].
      by apply Hx. }
  apply bind_Ok in H as (sel & m3 & H3 & H).
  apply agents_random_Ok in H3 as [[r' ->] _].
  apply bind_Ok in H as ([] & m4 & H4 & H).
  apply (for_each_inv switch_reset) in H4; [| |exact Hreset].
  2:{ intros i n n' _ Hn Hb.
      apply bind_Ok in Hb as (w & n1 & Hw & Hb).
      apply get_worker_Ok in Hw as [Hw ->].
      destruct (Worker.educ w).
      - by apply ret_Ok in Hb as [_ ->].
      - eapply education_decision_switch; eauto. }
  apply bind_Ok in H as ([] & m5 & H5 & H).
  apply (for_each_inv switch_reset) in H5; [| |exact H4].
  2:{ intros i n n' _ Hn Hb. eapply firm_selection_switch; eauto. }
  apply bind_Ok in H as ([] & m6 & H6 & H).
  apply (for_each_inv switch_reset) in H6; [| |exact H5].
  2:{ intros i n n' _ Hn Hb. unfold MarketOps.refresh_employer_size in Hb.
      apply bind_Ok in Hb as (w & n1 & Hw & Hb).
      apply get_worker_Ok in Hw as [Hw ->].
      destruct (Worker.employer w); [|discriminate].
      inv_run Hb. apply switch_reset_put_worker; [exact Hn|]. simpl. eauto. }
  apply bind_Ok in H as (m7 & m8 & Hg & H). apply get_Ok in Hg as [-> ->].
  apply bind_Ok in H as ([] & m8 & H8 & H).
  apply (for_each_inv switch_reset) in H8; [| |exact H6].
  2:{ intros j n n' _ Hn Hb. apply produce_Ok in Hb as (f & es & _ & _ & ->).
      exact Hn. }
  apply (for_each_inv switch_reset) in H; [exact H | |exact H8].
  intros j n n' _ Hn Hb. apply calc_profit_Ok in Hb as (f & es & _ & _ & ->).
  exact Hn.
Qed.

(** * Further properties of the methods *)

(** ** Hiring and separating *)

Lemma hired_hired (i : nat) es : hired i (hired i es) = hired i es.
Proof.
  unfold hired at 1. rewrite bool_decide_eq_true_2; [reflexivity|].
  apply hired_elem. by left.
Qed.

Lemma remove_first_absent (i : nat) es : i ∉ es -> remove_first i es = es.
Proof.
  induction es as [|y es IH]; intros Hni; simpl; [reflexivity|].
  destruct (decide (y = i)) as [->|_].
  - exfalso. apply Hni. by left.
  - rewrite IH; [reflexivity|]. intros Hi. apply Hni. by right.
Qed.

Lemma remove_first_app_new (i : nat) es :
  i ∉ es -> remove_first i (es ++ [i]) = es.
Proof.
  induction es as [|y es IH]; intros Hni; simpl.
  - by rewrite decide_True.
  - destruct (decide (y = i)) as [->|_].
    + exfalso. apply Hni. by left.
    + rewrite IH; [reflexivity|]. intros Hi. apply Hni. by right.
Qed.

Lemma resized_again ws es f :
  resized ws (Firm.with_employees es (resized ws (Firm.with_employees es f)))
  = resized ws (Firm.with_employees es f).
Proof. by destruct f. Qed.

Lemma resized_up_to_date ws f :
  sizes_ok ws f -> resized ws (Firm.with_employees (Firm.employees f) f) = f.
Proof.
  intros (H1 & H2 & H3). destruct f. unfold resized. simpl in *.
  by rewrite <- H1, <- H2, <- H3.
Qed.

Lemma with_firms_same m : Market.with_firms (Market.firms m) m = m.
Proof. by destruct m. Qed.

Lemma class_count_disjoint ws es :
  class_count ws 0 es + class_count ws 1 es <= length es.
Proof.
  unfold class_count. induction es as [|i es IH]; [reflexivity|].
  rewrite !filter_cons. simpl length.
  destruct (decide (Worker.d_class <$> ws !! i = Some 0%Z)) as [H0|H0];
    destruct (decide (Worker.d_class <$> ws !! i = Some 1%Z)) as [H1|H1];
    simpl; try lia.
  rewrite H0 in H1. discriminate.
Qed.

(** ** Sums *)

Lemma fold_Qplus_shift (l : list Q) (a : Q) :
  (fold_left Qplus l a == a + Qsum l)%Q.
Proof.
  unfold Qsum. revert a. induction l as [|x l IH]; intros a; simpl.
  - ring.
  - rewrite (IH (a + x)%Q), (IH (0 + x)%Q). ring.
Qed.

Lemma Qsum_cons (x : Q) (l : list Q) : (Qsum (x :: l) == x + Qsum l)%Q.
Proof. unfold Qsum at 1. simpl. rewrite fold_Qplus_shift. ring. Qed.

Lemma Qsum_nil : Qsum [] = 0%Q.
Proof. reflexivity. Qed.




(** ** Accounts at the end of a step *)

Lemma produce_loop_fresh K m m' :
  length (Market.firms m) = K ->
  for_each (seq 0 K) produce m = Ok (tt, m') ->
  Market.workers m' = Market.workers m /\ length (Market.firms m') = K /\
  forall j f, Market.firms m' !! j = Some f -> produced (Market.workers m) f.
Proof.
  intros HK Hrun.
  apply (for_each_post
           (fun n => Market.workers n = Market.workers m /\
                     length (Market.firms n) = K)
           (fun j n => forall f, Market.firms n !! j = Some f ->
                                 produced (Market.workers m) f))
    in Hrun as [[Hws HK'] Hall]; [ | | | by split].
  - split; [exact Hws|]. split; [exact HK'|].
    intros j f Hf. apply (Hall j); [|exact Hf].
    apply elem_of_seq. apply lookup_lt_Some in Hf. lia.
  - intros j n n' _ [Hn HKn] Hb.
    apply produce_Ok in Hb as (f & es & Hf & Hes & ->). simpl.
    split; [split; [exact Hn | by rewrite length_insert]|].
    intros g. rewrite list_lookup_insert_eq by (eapply lookup_lt_Some; eauto).
    intros [= <-]. exists es. simpl. rewrite <- Hn. auto.
  - intros x y n n' _ [Hn HKn] Hx Hb.
    apply produce_Ok in Hb as (f & es & Hf & Hes & ->). simpl.
    intros g Hg. apply list_lookup_insert_Some in Hg as [(-> & <- & _)|[_ Hg]];
      [|by apply Hx].
    exists es. simpl. rewrite <- Hn. auto.
Qed.

Lemma calc_profit_loop_fresh K m m' :
  length (Market.firms m) = K ->
  (forall j f, Market.firms m !! j = Some f -> produced (Market.workers m) f) ->
  for_each (seq 0 K) calc_profit m = Ok (tt, m') ->
  Market.workers m' = Market.workers m /\
  forall j f, Market.firms m' !! j = Some f ->
    produced (Market.workers m) f /\ accounted (Market.workers m) f.
Proof.
  intros HK Hprod Hrun.
  apply (for_each_post
           (fun n => Market.workers n = Market.workers m /\
                     length (Market.firms n) = K /\
                     forall j f, Market.firms n !! j = Some f ->
                                 produced (Market.workers m) f)
           (fun j n => forall f, Market.firms n !! j = Some f ->
                                 accounted (Market.workers m) f))
    in Hrun as [(Hws & HK' & Hp) Hall]; [ | | | by repeat split].
  - split; [exact Hws|]. intros j f Hf. split; [by eapply Hp|].
    apply (Hall j); [|exact Hf].
    apply elem_of_seq. apply lookup_lt_Some in Hf. lia.
  - intros j n n' _ (Hn & HKn & Hpn) Hb.
    apply calc_profit_Ok in Hb as (f & es & Hf & Hes & Hm'). cbv zeta in Hm'.
    subst n'. simpl.
    split; [split; [exact Hn|]; split; [by rewrite length_insert|]|].
    + intros k g Hg. apply list_lookup_insert_Some in Hg as [(-> & <- & _)|[_ Hg]];
        [|by eapply Hpn].
      destruct (Hpn _ _ Hf) as (es' & H1 & H2 & H3 & H4). by exists es'.
    + intros g. rewrite list_lookup_insert_eq by (eapply lookup_lt_Some; eauto).
      intros [= <-]. exists es. simpl. rewrite <- Hn. auto.
  - intros x y n n' _ (Hn & HKn & Hpn) Hx Hb.
    apply calc_profit_Ok in Hb as (f & es & Hf & Hes & Hm'). cbv zeta in Hm'.
    subst n'. simpl.
    intros g Hg. apply list_lookup_insert_Some in Hg as [(-> & <- & _)|[_ Hg]];
      [|by apply Hx].
    exists es. simpl. rewrite <- Hn. auto.
Qed.

(** The last two phases of a step, from the state they start in. *)
Lemma step_Ok_accounts m m' :
  MarketOps.step m = Ok (tt, m') ->
  exists m6 m8,
    for_each (seq 0 (length (Market.firms m6))) produce m6 = Ok (tt, m8) /\
    for_each (seq 0 (length (Market.firms m6))) calc_profit m8 = Ok (tt, m').
Proof.
  intros H. unfold MarketOps.step in H.
  apply bind_Ok in H as (m0 & m1 & Hg & H). apply get_Ok in Hg as [-> ->].
  apply bind_Ok in H as ([] & m1 & _ & H).
  apply bind_Ok in H as ([] & m2 & _ & H).
  apply bind_Ok in H as (sel & m3 & _ & H).
  apply bind_Ok in H as ([] & m4 & _ & H).
  apply bind_Ok in H as ([] & m5 & _ & H).
  apply bind_Ok in H as ([] & m6 & _ & H).
  apply bind_Ok in H as (m7 & m8 & Hg & H). apply get_Ok in Hg as [-> ->].
  apply bind_Ok in H as ([] & m8 & H8 & H).
  eauto.
Qed.

(** ** The average discount *)









(** ** Invariants of a step, phase by phase *)

Section StepPhases.
Variable I : Market.model -> Prop.
Variable prm : Params.t.
Hypothesis I_p : forall m, I m -> Market.p m = prm.
Hypothesis I_search : forall i w m,
  I m -> Market.workers m !! i = Some w ->
  I (Market.with_workers (<[i := Worker.with_search false w]> (Market.workers m)) m).
Hypothesis I_switch : forall i w m,
  I m -> Market.workers m !! i = Some w ->
  I (Market.with_workers (<[i := Worker.with_switch false w]> (Market.workers m)) m).
Hypothesis I_random : forall r m, I m -> I (Market.with_random r m).
Hypothesis I_education : forall i w m m',
  I m -> Market.workers m !! i = Some w -> Worker.educ w = false ->
  education_decision i (Params.premium prm) (Params.weighted prm) m = Ok (tt, m') ->
  I m'.
Hypothesis I_selection : forall i m m',
  I m -> firm_selection i (Z.of_nat (Params.sample prm)) m = Ok (tt, m') -> I m'.
Hypothesis I_refresh : forall i m m',
  I m -> MarketOps.refresh_employer_size i m = Ok (tt, m') -> I m'.
Hypothesis I_produce : forall j m m', I m -> produce j m = Ok (tt, m') -> I m'.
Hypothesis I_profit : forall j m m', I m -> calc_profit j m = Ok (tt, m') -> I m'.

Lemma step_phases m m' : I m -> MarketOps.step m = Ok (tt, m') -> I m'.
Proof.
  intros HI H. unfold MarketOps.step in H.
  apply bind_Ok in H as (m0 & m1 & Hg & H). apply get_Ok in Hg as [-> ->].
  rewrite (I_p _ HI) in H.
  apply bind_Ok in H as ([] & m1 & H1 & H).
  apply (for_each_inv I) in H1; [| |exact HI].
  2:{ intros i n n' _ Hn Hb. inv_run Hb. by apply I_search. }
  apply bind_Ok in H as ([] & m2 & H2 & H).
  apply (for_each_inv I) in H2; [| |exact H1].
  2:{ intros i n n' _ Hn Hb. inv_run Hb. by apply I_switch. }
  apply bind_Ok in H as (sel & m3 & H3 & H).
  apply agents_random_Ok in H3 as [[r' ->] _].
  apply bind_Ok in H as ([] & m4 & H4 & H).
  apply (for_each_inv I) in H4; [| |by apply I_random].
  2:{ intros i n n' _ Hn Hb.
      apply bind_Ok in Hb as (w & n1 & Hw & Hb).
      apply get_worker_Ok in Hw as [Hw ->].
      destruct (Worker.educ w) eqn:Ee.
      - by apply ret_Ok in Hb as [_ ->].
      - eapply I_education; eauto. }
  apply bind_Ok in H as ([] & m5 & H5 & H).
  apply (for_each_inv I) in H5; [| |exact H4].
  2:{ intros i n n' _ Hn Hb. eapply I_selection; eauto. }
  apply bind_Ok in H as ([] & m6 & H6 & H).
  apply (for_each_inv I) in H6; [| |exact H5].
  2:{ intros i n n' _ Hn Hb. eapply I_refresh; eauto. }
  apply bind_Ok in H as (m7 & m8 & Hg & H). apply get_Ok in Hg as [-> ->].
  apply bind_Ok in H as ([] & m8 & H8 & H).
  apply (for_each_inv I) in H8; [| |exact H6].
  2:{ intros i n n' _ Hn Hb. eapply I_produce; eauto. }
  apply (for_each_inv I) in H; [exact H | |exact H8].
  intros i n n' _ Hn Hb. eapply I_profit; eauto.
Qed.

Hypothesis I_tick : forall k m, I m -> I (Market.with_t k m).
Hypothesis I_logs : forall wl fl m, I m -> I (Market.with_logs wl fl m).

Lemma later_phases m m' : I m -> later m m' -> I m'.
Proof.
  intros HI. induction 1 as [|m1 _ IH|m1 m2 _ IH Hs|m1 m2 _ IH Hu].
  - exact HI.
  - by apply I_tick.
  - eapply step_phases; eauto.
  - unfold MarketOps.update in Hu. injection Hu as <-. by apply I_logs.
Qed.
End StepPhases.

(** A loop over consecutive indices, with an invariant that knows how far
    the loop has come. *)
Lemma for_each_seq_inv (P : nat -> Market.model -> Prop) (body : nat -> M unit)
    k a m m' :
  (forall i n n', a <= i < a + k -> P i n -> body i n = Ok (tt, n') -> P (S i) n') ->
  P a m -> for_each (seq a k) body m = Ok (tt, m') -> P (a + k) m'.
Proof.
  revert a m. induction k as [|k IH]; intros a m Hbody HP Hrun; simpl in Hrun.
  - apply ret_Ok in Hrun as [_ ->]. by rewrite Nat.add_0_r.
  - apply bind_Ok in Hrun as ([] & m1 & Hx & Hrest).
    replace (a + S k) with (S a + k) by lia.
    eapply IH; [ | | exact Hrest].
    + intros i n n' Hi. apply Hbody. lia.
    + eapply Hbody; [|exact HP|exact Hx]. lia.
Qed.

(** The phases of [Market.step], one after the other. *)
Lemma step_Ok m m' :
  MarketOps.step m = Ok (tt, m') <->
  exists m1 m2 sel m3 m4 m5 m6 m8,
    let prm := Market.p m in
    let everyone := seq 0 (length (Market.workers m)) in
    for_each everyone (fun i =>
      w <- get_worker i ;; put_worker i (Worker.with_search false w)) m
      = Ok (tt, m1) /\
    for_each everyone (fun i =>
      w <- get_worker i ;; put_worker i (Worker.with_switch false w)) m1
      = Ok (tt, m2) /\
    agents_random everyone
      (Qceiling (inject_Z (Z.of_nat (Params.n_workers prm)) * Params.active prm))
      m2 = Ok (sel, m3) /\
    for_each sel (fun i =>
      w <- get_worker i ;;
      if Worker.educ w then ret tt
      else education_decision i (Params.premium prm) (Params.weighted prm)) m3
      = Ok (tt, m4) /\
    for_each sel (fun i => firm_selection i (Z.of_nat (Params.sample prm))) m4
      = Ok (tt, m5) /\
    for_each everyone MarketOps.refresh_employer_size m5 = Ok (tt, m6) /\
    for_each (seq 0 (length (Market.firms m6))) produce m6 = Ok (tt, m8) /\
    for_each (seq 0 (length (Market.firms m6))) calc_profit m8 = Ok (tt, m').
Proof.
  unfold MarketOps.step. split.
  - intros H.
    apply bind_Ok in H as (m0 & m1 & Hg & H). apply get_Ok in Hg as [-> ->].
    apply bind_Ok in H as ([] & m1 & H1 & H).
    apply bind_Ok in H as ([] & m2 & H2 & H).
    apply bind_Ok in H as (sel & m3 & H3 & H).
    apply bind_Ok in H as ([] & m4 & H4 & H).
    apply bind_Ok in H as ([] & m5 & H5 & H).
    apply bind_Ok in H as ([] & m6 & H6 & H).
    apply bind_Ok in H as (m7 & m8 & Hg & H). apply get_Ok in Hg as [-> ->].
    apply bind_Ok in H as ([] & m8 & H8 & H).
    exists m1, m2, sel, m3, m4, m5, m6, m8. cbv zeta. auto 10.
  - intros (m1 & m2 & sel & m3 & m4 & m5 & m6 & m8 & H). cbv zeta in H.
    destruct H as (H1 & H2 & H3 & H4 & H5 & H6 & H8 & H9).
    erewrite bind_step; [|reflexivity]. cbv zeta.
    erewrite bind_step; [|exact H1].
    erewrite bind_step; [|exact H2].
    erewrite bind_step; [|exact H3].
    erewrite bind_step; [|exact H4].
    erewrite bind_step; [|exact H5].
    erewrite bind_step; [|exact H6].
    erewrite bind_step; [|reflexivity]. cbv zeta.
    erewrite bind_step; [|exact H8].
    exact H9.
Qed.

(** ** The pairs of [Market.setup] *)

Lemma class_count_same ws ws' c es :
  (forall i, Worker.d_class <$> ws !! i = Worker.d_class <$> ws' !! i) ->
  class_count ws c es = class_count ws' c es.
Proof.
  intros Hsame. unfold class_count. f_equal. apply list_filter_iff.
  intros k. by rewrite Hsame.
Qed.

Lemma paired_upto_class ws fs k m i :
  paired_upto ws fs k m ->
  Worker.d_class <$> Market.workers m !! i = Worker.d_class <$> ws !! i.
Proof.
  intros (Hlw & _ & Hw & _).
  destruct (ws !! i) as [w|] eqn:Ew.
  - specialize (Hw i w Ew). destruct (i <? k).
    + destruct Hw as (f & _ & ->). reflexivity.
    + by rewrite Hw.
  - apply lookup_ge_None in Ew. rewrite <- Hlw in Ew.
    apply lookup_ge_None in Ew. by rewrite Ew.
Qed.

Lemma setup_pair_upto ws fs i m m' :
  paired_upto ws fs i m ->
  MarketOps.setup_pair i m = Ok (tt, m') ->
  paired_upto ws fs (S i) m'.
Proof.
  intros Hup Hb. pose proof Hup as (Hlw & Hlf & Hw & Hf).
  apply setup_pair_Ok in Hb as (w0 & f0 & Hw0 & Hf0 & _ & ->).
  assert (Hiw : i < length (Market.workers m)) by (eapply lookup_lt_Some; eauto).
  assert (Hif : i < length (Market.firms m)) by (eapply lookup_lt_Some; eauto).
  destruct (lookup_lt_is_Some_2 ws i) as [w Ew]; [lia|].
  destruct (lookup_lt_is_Some_2 fs i) as [f Ef]; [lia|].
  pose proof (Hw i w Ew) as Hwi. rewrite Nat.ltb_irrefl in Hwi.
  pose proof (Hf i f Ef) as Hfi. rewrite Nat.ltb_irrefl in Hfi.
  assert (w0 = w) as -> by congruence.
  assert (f0 = f) as -> by congruence.
  assert (Hres : resized (Market.workers m)
                   (Firm.with_employees (hired i (Firm.employees f)) f)
                 = paired_firm ws i f).
  { unfold paired_firm, resized.
    rewrite !(class_count_same (Market.workers m) ws); [reflexivity| |];
      intros k; eapply paired_upto_class; eauto. }
  rewrite Hres. unfold paired_upto.
  cbn [Market.workers Market.firms Market.with_workers Market.with_firms].
  split; [by rewrite length_insert|]. split; [by rewrite length_insert|]. split.
  - intros k v Ev. destruct (decide (k = i)) as [->|Hne].
    + assert (v = w) as -> by congruence.
      rewrite (proj2 (Nat.ltb_lt i (S i))) by lia.
      exists f. split; [exact Ef|].
      by rewrite list_lookup_insert_eq.
    + rewrite list_lookup_insert_ne by congruence.
      specialize (Hw k v Ev).
      destruct (Nat.ltb_spec k i), (Nat.ltb_spec k (S i)); try lia; exact Hw.
  - intros k g Eg. destruct (decide (k = i)) as [->|Hne].
    + assert (g = f) as -> by congruence.
      rewrite (proj2 (Nat.ltb_lt i (S i))) by lia.
      by rewrite list_lookup_insert_eq.
    + rewrite list_lookup_insert_ne by congruence.
      specialize (Hf k g Eg).
      destruct (Nat.ltb_spec k i), (Nat.ltb_spec k (S i)); try lia; exact Hf.
Qed.

(** The state after [Market.setup], from the agents as their own [setup]
    methods leave them. *)
Lemma setup_pairs p r m :
  MarketOps.setup (MarketOps.init p r) = Ok (tt, m) ->
  exists ws fs,
    Forall2 (fun k w => Worker.id w = 1 + k /\ fresh_worker (Params.prod_range p) w)
      (seq 0 (Params.n_workers p)) ws /\
    Forall2 (fun k f => fresh_firm p (1 + Params.n_workers p + k) f)
      (seq 0 (2 * Params.n_workers p + 1)) fs /\
    paired_upto ws fs (Params.n_workers p) m.
Proof.
  intros H. apply setup_Ok in H as (ws & fs & r' & Hws & Hfs & Hloop).
  exists ws, fs. split; [exact Hws|]. split; [exact Hfs|].
  apply (for_each_seq_inv (paired_upto ws fs)) in Hloop; [exact Hloop| |].
  - intros i n n' _. apply setup_pair_upto.
  - split; [reflexivity|]. split; [reflexivity|]. split.
    + intros i w Ew. destruct (Nat.ltb_spec i 0); [lia | exact Ew].
    + intros j f Ef. destruct (Nat.ltb_spec j 0); [lia | exact Ef].
Qed.

Lemma class_count_singleton ws c i w :
  ws !! i = Some w ->
  class_count ws c [i] = if (Worker.d_class w =? c)%Z then 1 else 0.
Proof.
  intros Hw. unfold class_count. rewrite filter_cons, Hw. simpl.
  destruct (Z.eqb_spec (Worker.d_class w) c) as [->|Hne].
  - by rewrite decide_True.
  - rewrite decide_False by congruence. reflexivity.
Qed.

(** The agents a worker of the model after [setup] comes from. *)
Lemma setup_pairs_worker p r m i w :
  MarketOps.setup (MarketOps.init p r) = Ok (tt, m) ->
  Market.workers m !! i = Some w ->
  exists ws w0 f0,
    ws !! i = Some w0 /\
    Worker.id w0 = 1 + i /\ fresh_worker (Params.prod_range p) w0 /\
    fresh_firm p (1 + Params.n_workers p + i) f0 /\
    w = paired_worker i f0 w0 /\
    Market.firms m !! i = Some (paired_firm ws i f0) /\
    i < Params.n_workers p.
Proof.
  intros Hs Hw. apply setup_pairs in Hs as (ws & fs & Hws & Hfs & Hup).
  destruct Hup as (Hlw & Hlf & Hpw & Hpf).
  assert (Hn : length ws = Params.n_workers p).
  { apply Forall2_length in Hws. by rewrite length_seq in Hws. }
  assert (Hi : i < Params.n_workers p).
  { rewrite <- Hn, <- Hlw. eapply lookup_lt_Some; eauto. }
  destruct (lookup_lt_is_Some_2 ws i) as [w0 Ew0]; [lia|].
  specialize (Hpw i w0 Ew0). rewrite (proj2 (Nat.ltb_lt _ _) Hi) in Hpw.
  destruct Hpw as (f0 & Ef0 & Hw'). specialize (Hpf i f0 Ef0).
  rewrite (proj2 (Nat.ltb_lt _ _) Hi) in Hpf.
  exists ws, w0, f0.
  destruct (Forall2_lookup_r _ _ _ _ _ Hws Ew0) as (k & Hk & Hid & Hfw).
  apply lookup_seq in Hk as [-> _].
  destruct (Forall2_lookup_r _ _ _ _ _ Hfs Ef0) as (k & Hk & Hff).
  apply lookup_seq in Hk as [-> _].
  split; [exact Ew0|]. split; [exact Hid|]. split; [exact Hfw|].
  split; [exact Hff|]. split; [congruence|]. split; [exact Hpf | exact Hi].
Qed.

(** ** The employer sizes the workers hold *)

Lemma Forall2_put_r {A B} (P : A -> B -> Prop) (l : list A) (k : list B) j y y' :
  Forall2 P l k -> k !! j = Some y -> (forall x, P x y -> P x y') ->
  Forall2 P l (<[j := y']> k).
Proof.
  intros HF Hy HP.
  apply Forall2_same_length_lookup_2.
  - rewrite length_insert. eapply Forall2_length; eauto.
  - intros i a b Ha Hb. destruct (decide (i = j)) as [->|Hne].
    + rewrite list_lookup_insert_eq in Hb by (eapply lookup_lt_Some; eauto).
      injection Hb as <-. apply HP. eapply Forall2_lookup_lr; eauto.
    + rewrite list_lookup_insert_ne in Hb by congruence.
      eapply Forall2_lookup_lr; eauto.
Qed.

(** [produce] and [calc_profit] touch nothing but the books of the firm. *)
Lemma produce_frame j m m' :
  produce j m = Ok (tt, m') ->
  Market.p m' = Market.p m /\ Market.workers m' = Market.workers m /\
  exists f f', Market.firms m !! j = Some f /\
    Market.firms m' = <[j := f']> (Market.firms m) /\
    same_firm f f' /\ Firm.employees f' = Firm.employees f /\
    Firm.size f' = Firm.size f /\ Firm.size_0 f' = Firm.size_0 f /\
    Firm.size_1 f' = Firm.size_1 f.
Proof.
  intros H. apply produce_Ok in H as (f & es & Hf & _ & ->). simpl.
  split; [reflexivity|]. split; [reflexivity|].
  eexists f, _. split; [exact Hf|]. split; [reflexivity|]. by repeat split.
Qed.

Lemma calc_profit_frame j m m' :
  calc_profit j m = Ok (tt, m') ->
  Market.p m' = Market.p m /\ Market.workers m' = Market.workers m /\
  exists f f', Market.firms m !! j = Some f /\
    Market.firms m' = <[j := f']> (Market.firms m) /\
    same_firm f f' /\ Firm.employees f' = Firm.employees f /\
    Firm.size f' = Firm.size f /\ Firm.size_0 f' = Firm.size_0 f /\
    Firm.size_1 f' = Firm.size_1 f.
Proof.
  intros H. apply calc_profit_Ok in H as (f & es & Hf & _ & Hm').
  cbv zeta in Hm'. subst m'. simpl.
  split; [reflexivity|]. split; [reflexivity|].
  eexists f, _. split; [exact Hf|]. split; [reflexivity|]. by repeat split.
Qed.

(** The two closing loops of a step relate the firms one by one. *)
Lemma books_loops (R : Firm.t -> Firm.t -> Prop) js js' m m8 m' :
  (forall f, R f f) ->
  (forall f g g', R f g -> same_firm g g' ->
     Firm.employees g' = Firm.employees g -> Firm.size g' = Firm.size g ->
     Firm.size_0 g' = Firm.size_0 g -> Firm.size_1 g' = Firm.size_1 g ->
     R f g') ->
  for_each js produce m = Ok (tt, m8) ->
  for_each js' calc_profit m8 = Ok (tt, m') ->
  Market.p m' = Market.p m /\ Market.workers m' = Market.workers m /\
  Forall2 R (Market.firms m) (Market.firms m').
Proof.
  intros Hrefl Hstep H8 H9.
  pose (P := fun n : Market.model =>
               Market.p n = Market.p m /\ Market.workers n = Market.workers m /\
               Forall2 R (Market.firms m) (Market.firms n)).
  assert (HP0 : P m).
  { split; [reflexivity|]. split; [reflexivity|].
    apply Forall_Forall2_diag, list.Forall_forall. auto. }
  apply (for_each_inv P) in H8; [| |exact HP0].
  2:{ intros j n n' _ (Hp & Hw & HF) Hb.
      apply produce_frame in Hb
        as (Hp' & Hw' & f & f' & Hf & Hfs & Hs & He & S1 & S2 & S3).
      split; [congruence|]. split; [congruence|]. rewrite Hfs.
      eapply Forall2_put_r; eauto. }
  apply (for_each_inv P) in H9; [exact H9| |exact H8].
  intros j n n' _ (Hp & Hw & HF) Hb.
  apply calc_profit_frame in Hb
    as (Hp' & Hw' & f & f' & Hf & Hfs & Hs & He & S1 & S2 & S3).
  split; [congruence|]. split; [congruence|]. rewrite Hfs.
  eapply Forall2_put_r; eauto.
Qed.

Lemma refresh_employer_size_Ok i m m' :
  MarketOps.refresh_employer_size i m = Ok (tt, m') <->
  exists w j f, Market.workers m !! i = Some w /\ Worker.employer w = Some j /\
    Market.firms m !! j = Some f /\
    m' = Market.with_workers
           (<[i := Worker.with_employer_size (Some (Firm.size f)) w]>
              (Market.workers m)) m.
Proof.
  unfold MarketOps.refresh_employer_size. split.
  - intros H. apply bind_Ok in H as (w & m1 & Hw & H).
    apply get_worker_Ok in Hw as [Hw ->].
    destruct (Worker.employer w) as [j|] eqn:E; [|discriminate].
    apply bind_Ok in H as (f & m1 & Hf & H). apply get_firm_Ok in Hf as [Hf ->].
    apply put_worker_Ok in H. eauto 10.
  - intros (w & j & f & Hw & He & Hf & ->).
    erewrite bind_step; [|apply get_worker_Ok; eauto]. rewrite He.
    erewrite bind_step; [|apply get_firm_Ok; eauto].
    by apply put_worker_Ok.
Qed.

Lemma refresh_loop_fresh idx m m' :
  for_each idx MarketOps.refresh_employer_size m = Ok (tt, m') ->
  Market.firms m' = Market.firms m /\
  forall i w, i ∈ idx -> Market.workers m' !! i = Some w ->
    exists j f, Worker.employer w = Some j /\ Market.firms m !! j = Some f /\
                Worker.employer_size w = Some (Firm.size f).
Proof.
  intros Hrun.
  apply (for_each_post
           (fun n => Market.firms n = Market.firms m)
           (fun i n => forall w, Market.workers n !! i = Some w ->
              exists j f, Worker.employer w = Some j /\
                Market.firms m !! j = Some f /\
                Worker.employer_size w = Some (Firm.size f)))
    in Hrun as [Hfs Hall]; [ | | | reflexivity].
  - split; [exact Hfs|]. intros i w Hi. by apply Hall.
  - intros i n n' _ Hn Hb.
    apply refresh_employer_size_Ok in Hb as (w & j & f & Hw & He & Hf & ->).
    simpl. split; [exact Hn|]. intros v.
    rewrite list_lookup_insert_eq by (eapply lookup_lt_Some; eauto).
    intros [= <-]. exists j, f. rewrite <- Hn. auto.
  - intros x y n n' _ Hn Hx Hb.
    apply refresh_employer_size_Ok in Hb as (w & j & f & Hw & He & Hf & ->).
    simpl. intros v Hv.
    apply list_lookup_insert_Some in Hv as [(-> & <- & _)|[_ Hv]]; [|by apply Hx].
    exists j, f. rewrite <- Hn. auto.
Qed.

(** A step keeps the number of workers. *)
Lemma step_workers_length m m' :
  MarketOps.step m = Ok (tt, m') ->
  length (Market.workers m') = length (Market.workers m).
Proof.
  intros H.
  apply (step_evolved (fun _ _ => True) (Params.premium (Market.p m))) in H;
    auto.
  destruct H as [_ H]. symmetry. eapply Forall2_length; eauto.
Qed.

(** ** The invariant of a run *)

Lemma wage_offer_same f f' w w' :
  same_firm f f' -> Worker.prod w' = Worker.prod w ->
  Worker.d_class w' = Worker.d_class w ->
  wage_offer f' w' = wage_offer f w.
Proof.
  intros (_ & Hd & Hc & Hp) Hprod Hcls. unfold wage_offer.
  by rewrite Hd, Hc, Hp, Hprod, Hcls.
Qed.

Lemma static_firm_same prm f f' :
  same_firm f f' -> static_firm prm f -> static_firm prm f'.
Proof.
  intros (_ & Hd & Hc & Hp) (H1 & H2 & H3). unfold static_firm.
  by rewrite Hd, Hc, Hp.
Qed.

Lemma same_firm_refl f : same_firm f f.
Proof. by repeat split. Qed.

Lemma same_firms_refl (fs : list Firm.t) : Forall2 same_firm fs fs.
Proof. apply Forall_Forall2_diag, list.Forall_forall. intros. apply same_firm_refl. Qed.

Lemma sound_transfer prm m m' :
  sound prm m -> well_formed m' -> Market.p m' = prm ->
  Forall2 same_firm (Market.firms m) (Market.firms m') ->
  (forall i w, Market.workers m' !! i = Some w ->
     worker_shape prm i w /\ paid_by_employer (Market.firms m) w) ->
  sound prm m'.
Proof.
  intros (_ & _ & Hlen & Hfs & _) Hwf Hp HF Hws.
  split; [exact Hwf|]. split; [exact Hp|]. split; [|split].
  - rewrite <- Hlen. symmetry. eapply Forall2_length; eauto.
  - intros j f' Hf'.
    destruct (Forall2_lookup_r _ _ _ _ _ HF Hf') as (f & Hf & Hsame).
    destruct (Hfs j f Hf) as [Hst Hid]. split.
    + eapply static_firm_same; eauto.
    + destruct Hsame as (-> & _). exact Hid.
  - intros i w Hw. destruct (Hws i w Hw) as [Hshape (j & f & He & Hf & Hwage)].
    split; [exact Hshape|].
    destruct (Forall2_lookup_l _ _ _ _ _ HF Hf) as (f' & Hf' & Hsame).
    exists j, f'. split; [exact He|]. split; [exact Hf'|].
    rewrite Hwage. symmetry. by apply wage_offer_same.
Qed.

Lemma sound_put_worker prm m i w w' :
  sound prm m -> Market.workers m !! i = Some w ->
  Worker.id w' = Worker.id w -> Worker.hrs w' = Worker.hrs w ->
  Worker.avg_prod w' = Worker.avg_prod w ->
  Worker.d_class w' = Worker.d_class w -> Worker.prod w' = Worker.prod w ->
  Worker.educ w' = Worker.educ w -> Worker.employer w' = Worker.employer w ->
  Worker.employer_id w' = Worker.employer_id w ->
  Worker.wage w' = Worker.wage w ->
  sound prm (Market.with_workers (<[i := w']> (Market.workers m)) m).
Proof.
  intros Hs Hw H1 H2 H3 H4 H5 H6 H7 H8 H9.
  pose proof Hs as (Hwf & Hp & _ & _ & Hws).
  eapply sound_transfer; [exact Hs | | exact Hp | apply same_firms_refl |].
  - eapply wf_put_worker; eauto.
  - simpl. intros k v Hv.
    apply list_lookup_insert_Some in Hv as [(-> & <- & _)|[_ Hv]]; [|by apply Hws].
    destruct (Hws _ _ Hw) as [(S1 & S2 & S3 & S4 & x & Hx & S5) (j & f & He & Hf & Hwg)].
    split.
    + unfold worker_shape. rewrite H1, H2, H3, H4, H5, H6. eauto 10.
    + exists j, f. rewrite H7, H9. split; [exact He|]. split; [exact Hf|].
      rewrite Hwg. symmetry. by apply wage_offer_same; [apply same_firm_refl| |].
Qed.

Lemma sound_put_firm prm m m' j f f' :
  sound prm m -> well_formed m' -> Market.p m' = Market.p m ->
  Market.workers m' = Market.workers m ->
  Market.firms m !! j = Some f ->
  Market.firms m' = <[j := f']> (Market.firms m) ->
  same_firm f f' ->
  sound prm m'.
Proof.
  intros Hs Hwf Hp Hw Hf Hfs Hsame.
  pose proof Hs as (_ & Hpm & _ & _ & Hws).
  eapply sound_transfer; [exact Hs | exact Hwf | congruence | |].
  - rewrite Hfs. eapply Forall2_put_r; [apply same_firms_refl | exact Hf |].
    intros x Hx.
    destruct Hx as (X1 & X2 & X3 & X4), Hsame as (Y1 & Y2 & Y3 & Y4).
    repeat split; congruence.
  - rewrite Hw. exact Hws.
Qed.

Lemma sound_education prm i w m m' :
  sound prm m -> Market.workers m !! i = Some w -> Worker.educ w = false ->
  education_decision i (Params.premium prm) (Params.weighted prm) m
    = Ok (tt, m') ->
  sound prm m'.
Proof.
  intros Hs Hw Hed H.
  pose proof (education_decision_wf _ _ _ _ _ (proj1 Hs) H) as Hwf'.
  apply education_decision_Ok in H as (w0 & Hw0 & _ & m0 & Hm0 & Hm').
  assert (Hs0 : sound prm m0) by (destruct Hm0 as [->|[r' ->]]; exact Hs).
  assert (Hw1 : Market.workers m0 !! i = Some w)
    by (destruct Hm0 as [->|[r' ->]]; exact Hw).
  destruct Hm' as [->|Hed']; [exact Hs0|].
  apply get_education_Ok in Hed' as (w1 & w' & Hw1' & Hpaid & ->).
  assert (w1 = w) as -> by congruence.
  pose proof Hs0 as (_ & Hp & _ & _ & Hws).
  eapply sound_transfer;
    [exact Hs0 | exact Hwf' | exact Hp | apply same_firms_refl |].
  simpl. intros k v Hv.
  apply list_lookup_insert_Some in Hv as [(-> & <- & _)|[_ Hv]]; [|by apply Hws].
  destruct (Hws _ _ Hw1)
    as [(S1 & S2 & S3 & S4 & x & Hx & S5) (j & f & He & Hf & _)].
  apply educated_paid_fields in Hpaid
    as (E1 & E2 & E3 & _ & _ & E6 & E7 & _ & _ & E10 & E11 & E12).
  rewrite He in E12. destruct E12 as (f' & Hf' & Hwage).
  split.
  - unfold worker_shape. rewrite E1, E2, E6, E7, E10, E11.
    rewrite Hed in S5. rewrite S5. eauto 10.
  - exists j, f'. rewrite E3. auto.
Qed.

Lemma sound_selection prm i n m m' :
  sound prm m -> firm_selection i n m = Ok (tt, m') -> sound prm m'.
Proof.
  intros Hs H.
  pose proof Hs as ((Hc & He & Hn) & Hp & _ & _ & Hws).
  pose proof (firm_selection_wf _ _ _ _ (proj1 Hs) H) as Hwf'.
  destruct (firm_selection_frame _ _ _ _ H)
    as (Hp' & _ & _ & _ & (w & w' & Hw & Hws' & _) & HF).
  destruct (He _ _ Hw) as [old Hold].
  destruct (firm_selection_cases _ _ _ _ _ _ Hc Hw Hold H)
    as (sampled & k & j & fj & r' & _ & _ & Hfj & _ & _ & Hcase).
  eapply sound_transfer; [exact Hs | exact Hwf' | congruence | exact HF |].
  destruct (Hws _ _ Hw)
    as [(S1 & S2 & S3 & S4 & x & Hx & S5) (j0 & f0 & He0 & Hf0 & Hwg)].
  destruct Hcase as [[_ ->]|(_ & _ & (eid & esz & Hws2) & _)].
  - simpl. intros k' v Hv.
    apply list_lookup_insert_Some in Hv as [(-> & <- & _)|[_ Hv]];
      [|by apply Hws].
    split; [unfold worker_shape; simpl; eauto 10|].
    exists j0, f0. simpl. auto.
  - rewrite Hws2. intros k' v Hv.
    apply list_lookup_insert_Some in Hv as [(-> & <- & _)|[_ Hv]];
      [|by apply Hws].
    split; [unfold worker_shape; simpl; eauto 10|].
    exists j, fj. simpl. auto.
Qed.

Lemma sound_refresh prm i m m' :
  sound prm m -> MarketOps.refresh_employer_size i m = Ok (tt, m') ->
  sound prm m'.
Proof.
  intros Hs H. apply refresh_employer_size_Ok in H as (w & j & f & Hw & _ & _ & ->).
  eapply sound_put_worker; eauto.
Qed.

Lemma sound_produce prm j m m' :
  sound prm m -> produce j m = Ok (tt, m') -> sound prm m'.
Proof.
  intros Hs H. pose proof (produce_wf _ _ _ (proj1 Hs) H) as Hwf.
  apply produce_frame in H as (Hp & Hw & f & f' & Hf & Hfs & Hsame & _).
  eapply sound_put_firm; eauto.
Qed.

Lemma sound_calc_profit prm j m m' :
  sound prm m -> calc_profit j m = Ok (tt, m') -> sound prm m'.
Proof.
  intros Hs H. pose proof (calc_profit_wf _ _ _ (proj1 Hs) H) as Hwf.
  apply calc_profit_frame in H as (Hp & Hw & f & f' & Hf & Hfs & Hsame & _).
  eapply sound_put_firm; eauto.
Qed.

Lemma step_sound prm m m' :
  sound prm m -> MarketOps.step m = Ok (tt, m') -> sound prm m'.
Proof.
  apply (step_phases (sound prm) prm).
  - by intros n (_ & Hp & _).
  - intros i w n Hs Hw. eapply sound_put_worker; eauto.
  - intros i w n Hs Hw. eapply sound_put_worker; eauto.
  - intros r n Hs. exact Hs.
  - apply sound_education.
  - intros i n n'. apply sound_selection.
  - apply sound_refresh.
  - apply sound_produce.
  - apply sound_calc_profit.
Qed.

Lemma static_firm_fresh prm fid f : fresh_firm prm fid f -> static_firm prm f.
Proof. intros (_ & Hc & _ & _ & _ & _ & Hp & Hd). by repeat split. Qed.

Lemma setup_sound p r m :
  MarketOps.setup (MarketOps.init p r) = Ok (tt, m) -> sound p m.
Proof.
  intros Hs. destruct (setup_wf _ _ _ Hs) as [Hwf Hp].
  pose proof (setup_pairs _ _ _ Hs) as (ws & fs & Hws & Hfs & Hlw & Hlf & _ & Hpf).
  split; [exact Hwf|]. split; [exact Hp|]. split; [|split].
  - rewrite Hlf. apply Forall2_length in Hfs. by rewrite length_seq in Hfs.
  - intros j f Hf.
    destruct (lookup_lt_is_Some_2 fs j) as [f0 Ef0].
    { rewrite <- Hlf. eapply lookup_lt_Some; eauto. }
    specialize (Hpf j f0 Ef0).
    destruct (Forall2_lookup_r _ _ _ _ _ Hfs Ef0) as (k & Hk & Hff).
    apply lookup_seq in Hk as [-> _]. simpl in Hff.
    assert (Hst : static_firm p f0 /\ Firm.id f0 = 1 + Params.n_workers p + j).
    { split; [eapply static_firm_fresh; eauto | apply Hff]. }
    destruct (j <? Params.n_workers p); [|congruence].
    assert (f = paired_firm ws j f0) as -> by congruence.
    destruct Hst as [Hst Hid]. split; [|exact Hid].
    eapply static_firm_same; [|exact Hst]. by repeat split.
  - intros i w Hw.
    destruct (setup_pairs_worker _ _ _ _ _ Hs Hw)
      as (ws' & w0 & f0 & Ew0 & Hid & Hfw & Hff & -> & Hf & _).
    destruct Hfw as (F1 & (x & F2 & Hx) & F3 & F4 & F5 & _).
    split.
    + unfold worker_shape, paired_worker. simpl. rewrite F5.
      repeat split; try assumption. eauto.
    + exists i. eexists. split; [reflexivity|]. split; [exact Hf|]. reflexivity.
Qed.

Lemma reachable_sound m : reachable m -> sound (Market.p m) m.
Proof.
  induction 1 as [p r m Hs | m _ IH | m m' _ IH Hstep | m m' _ IH Hup].
  - apply setup_sound in Hs. by rewrite (proj1 (proj2 Hs)).
  - exact IH.
  - pose proof (step_sound _ _ _ IH Hstep) as Hs.
    by rewrite (proj1 (proj2 Hs)).
  - unfold MarketOps.update in Hup. injection Hup as <-. exact IH.
Qed.

(** ** Rounding and the range of the discount factors *)

Lemma Qltb_lt x y : Qltb x y = true <-> (x < y)%Q.
Proof. exact (Qgtb_lt y x). Qed.

Lemma round_half_even_bounds a b x :
  (inject_Z a <= x)%Q -> (x <= inject_Z b)%Q ->
  (a <= round_half_even x <= b)%Z.
Proof.
  intros Ha Hb.
  assert (Hfa : (a <= Qfloor x)%Z).
  { rewrite <- (Qfloor_Z a). by apply Qfloor_resp_le. }
  assert (Hfb : (Qfloor x <= b)%Z).
  { rewrite <- (Qfloor_Z b). by apply Qfloor_resp_le. }
  assert (Hup : Qltb (x - inject_Z (Qfloor x)) (1 # 2) = false ->
                (Qfloor x + 1 <= b)%Z).
  { intros Hd. destruct (Z.eq_dec (Qfloor x) b) as [Heq|Hne]; [|lia].
    exfalso. pose proof (Qfloor_le x) as Hfl. rewrite Heq in Hfl.
    assert (Hx : (x == inject_Z b)%Q) by (by apply Qle_antisym).
    assert (Ht : Qltb (x - inject_Z (Qfloor x)) (1 # 2) = true).
    { apply Qltb_lt. rewrite Heq, Hx. unfold Qlt, Qminus, Qplus, Qopp.
      simpl. lia. }
    congruence. }
  unfold round_half_even.
  destruct (Qltb (x - inject_Z (Qfloor x)) (1 # 2)) eqn:E1; [lia|].
  specialize (Hup eq_refl).
  destruct (Qltb (1 # 2) (x - inject_Z (Qfloor x))); [lia|].
  destruct (Z.even (Qfloor x)); lia.
Qed.

Lemma round2_unit x : (0 <= x)%Q -> (x <= 1)%Q -> (0 <= round2 x)%Q /\ (round2 x <= 1)%Q.
Proof.
  intros H0 H1.
  destruct (round_half_even_bounds 0 100 (x * 100)) as [Ha Hb].
  - change (inject_Z 0) with 0%Q. apply Qmult_le_0_compat; [exact H0|discriminate].
  - change (inject_Z 100) with (1 * 100)%Q. apply Qmult_le_compat_r; [exact H1|discriminate].
  - unfold round2. set (k := round_half_even (x * 100)) in *. clearbody k.
    unfold Qle, Qdiv, Qmult, Qinv, inject_Z. simpl. lia.
Qed.

(** With a range of discounts inside [0, 1] every firm discounts by a
    fraction. *)
Lemma static_firm_unit prm f :
  (0 <= fst (Params.d_range prm))%Q ->
  (fst (Params.d_range prm) <= snd (Params.d_range prm))%Q ->
  (snd (Params.d_range prm) <= 1)%Q ->
  static_firm prm f ->
  (0 <= Firm.d_factor f)%Q /\ (Firm.d_factor f <= 1)%Q.
Proof.
  intros H0 Hle H1 (_ & _ & frac & [Hf0 Hf1] & ->).
  set (lo := fst (Params.d_range prm)) in *.
  set (hi := snd (Params.d_range prm)) in *. clearbody lo hi.
  assert (Ha : (0 <= (hi - lo) * frac)%Q).
  { apply Qmult_le_0_compat; [lra | exact Hf0]. }
  assert (Hb : (0 <= (hi - lo) * (1 - frac))%Q).
  { apply Qmult_le_0_compat; lra. }
  apply round2_unit; lra.
Qed.

(** ** What a firm earns *)

Lemma roster_workers_unique (ws : list Worker.t) es l l' :
  Forall2 (fun i w => ws !! i = Some w) es l ->
  Forall2 (fun i w => ws !! i = Some w) es l' -> l = l'.
Proof.
  intros H. revert l'. induction H as [|i w es l Hw _ IH]; intros l' H'.
  - by inversion H'.
  - inversion H' as [|i' w' es' l'' Hw' Hrest]; subst.
    f_equal; [congruence | by apply IH].
Qed.

(** Revenue minus wages, for employees paid the offer of a firm that sells
    at price 1: the discount on the output of the employees of the firm's
    class. *)
Lemma margin_sum f (es : list Worker.t) :
  Firm.price f = 1%Q ->
  (forall e, e ∈ es -> Worker.wage e = wage_offer f e) ->
  (Qsum (map (fun e => Worker.prod e * Worker.hrs e) es) * Firm.price f
   - Qsum (map (fun e => Worker.wage e * Worker.hrs e) es)
   == Firm.d_factor f
      * Qsum (map (fun e => Worker.prod e * Worker.hrs e)
                (filter (fun e => Worker.d_class e = Firm.d_class f) es)))%Q.
Proof.
  intros Hp. induction es as [|e es IH]; intros Hpaid.
  - simpl. rewrite !Qsum_nil. ring.
  - assert (IH' := IH (fun x Hx => Hpaid x (list_elem_of_further _ _ _ Hx))).
    rewrite Hp in IH'. rewrite Hp.
    rewrite filter_cons. simpl map. rewrite !Qsum_cons.
    rewrite (Hpaid e) by (by left). unfold wage_offer. rewrite Hp.
    set (A := Qsum (map (fun e => Worker.prod e * Worker.hrs e)%Q es)) in *.
    set (B := Qsum (map (fun e => Worker.wage e * Worker.hrs e)%Q es)) in *.
    destruct (Z.eqb_spec (Worker.d_class e) (Firm.d_class f)) as [Heq|Hne].
    + rewrite decide_True by exact Heq. simpl map. rewrite Qsum_cons.
      set (C := Qsum (map (fun e => Worker.prod e * Worker.hrs e)%Q
                        (filter (fun e => Worker.d_class e = Firm.d_class f) es)))
        in *.
      clearbody A B C. lra.
    + rewrite decide_False by exact Hne.
      set (C := Qsum (map (fun e => Worker.prod e * Worker.hrs e)%Q
                        (filter (fun e => Worker.d_class e = Firm.d_class f) es)))
        in *.
      clearbody A B C. lra.
Qed.


(** The employees of a firm of a sound model are paid the firm's offer. *)
Lemma sound_roster_paid prm m j f es :
  sound prm m -> Market.firms m !! j = Some f ->
  Forall2 (fun i w => Market.workers m !! i = Some w) (Firm.employees f) es ->
  forall e, e ∈ es ->
    Worker.wage e = wage_offer f e /\
    (Worker.d_class e = 0%Z \/ Worker.d_class e = 1%Z) /\
    exists i, Market.workers m !! i = Some e /\ worker_shape prm i e.
Proof.
  intros ((Hc & _ & _) & _ & _ & _ & Hws) Hf Hes e He.
  apply list_elem_of_lookup in He as [k Hk].
  destruct (Forall2_lookup_r _ _ _ _ _ Hes Hk) as (i & Hi & Hw).
  destruct (Hws i e Hw) as [Hshape (j' & f' & Hemp & Hf' & Hwage)].
  destruct (le_roster _ _ _ Hc j f i) as (w' & Hw' & Hemp');
    [done | exact Hf | eapply list_elem_of_lookup_2; eauto |].
  assert (w' = e) as -> by congruence.
  assert (j' = j) as -> by congruence.
  assert (f' = f) as -> by congruence.
  split; [exact Hwage|]. split; [apply Hshape|]. eauto.
Qed.

Lemma Qsum_nonneg {A} (g : A -> Q) (l : list A) :
  (forall x, x ∈ l -> (0 <= g x)%Q) -> (0 <= Qsum (map g l))%Q.
Proof.
  induction l as [|x l IH]; intros Hg; simpl.
  - rewrite Qsum_nil. apply Qle_refl.
  - rewrite Qsum_cons.
    assert (H1 : (0 <= g x)%Q) by (apply Hg; by left).
    assert (H2 : (0 <= Qsum (map g l))%Q)
      by (apply IH; intros y Hy; apply Hg; by right).
    lra.
Qed.

(** The profit at the end of a step of a run: the discount of the firm on
    the output of its employees of its class. *)
Lemma step_margin m m' j f :
  reachable m ->
  MarketOps.step m = Ok (tt, m') ->
  Market.firms m' !! j = Some f ->
  exists es,
    Forall2 (fun i w => Market.workers m' !! i = Some w) (Firm.employees f) es /\
    (forall e, e ∈ es -> exists i, Market.workers m' !! i = Some e /\
                                   worker_shape (Market.p m') i e) /\
    (Firm.profit f ==
     Firm.d_factor f
     * Qsum (map (fun e => Worker.prod e * Worker.hrs e)
               (filter (fun e => Worker.d_class e = Firm.d_class f) es)))%Q.
Proof.
  intros Hreach Hstep Hf.
  assert (Hs : sound (Market.p m') m').
  { apply reachable_sound. eapply reach_step; eauto. }
  assert (Hbooks : produced (Market.workers m') f /\
                   accounted (Market.workers m') f).
  { apply step_Ok_accounts in Hstep as (m6 & m8 & H8 & H9).
    apply (produce_loop_fresh _ _ _ eq_refl) in H8 as (Hws8 & HK8 & Hp8).
    rewrite <- Hws8 in Hp8. rewrite <- HK8 in H9.
    apply (calc_profit_loop_fresh _ _ _ eq_refl Hp8) in H9 as (Hws9 & Hall).
    rewrite Hws9. by apply (Hall j). }
  destruct Hbooks as [(es & Hes & Hout & _) (es' & Hes' & Hrev & Hcost & Hprofit)].
  assert (es' = es) as -> by (eapply roster_workers_unique; eauto).
  pose proof (sound_roster_paid _ _ _ _ _ Hs Hf Hes) as Hpaid.
  destruct (proj1 (proj2 (proj2 (proj2 Hs))) j f Hf) as [(Hprice & _) _].
  exists es. split; [exact Hes|]. split.
  - intros e He. by destruct (Hpaid e He) as (_ & _ & Hi).
  - rewrite Hprofit, Hrev, Hcost, Hout.
    apply (margin_sum f es Hprice). intros e He. by apply Hpaid.
Qed.

(** ** The range of wages *)

Lemma worker_shape_prod_nonneg prm i w :
  (0 <= fst (Params.prod_range prm))%Z -> (0 <= Params.premium prm)%Q ->
  worker_shape prm i w -> (0 <= Worker.prod w)%Q.
Proof.
  intros Hlo Hprem (_ & _ & _ & _ & x & [Hx _] & ->).
  assert (H0 : (0 <= inject_Z x)%Q).
  { change 0%Q with (inject_Z 0). rewrite <- Zle_Qle. lia. }
  destruct (Worker.educ w); [|exact H0].
  apply Qmult_le_0_compat; [exact H0 | lra].
Qed.

Lemma wage_offer_bounds f w :
  Firm.price f = 1%Q ->
  (0 <= Firm.d_factor f)%Q -> (Firm.d_factor f <= 1)%Q ->
  (0 <= Worker.prod w)%Q ->
  (0 <= wage_offer f w)%Q /\ (wage_offer f w <= Worker.prod w)%Q.
Proof.
  intros Hp Hd0 Hd1 Hprod. unfold wage_offer. rewrite Hp.
  destruct (Worker.d_class w =? Firm.d_class f)%Z; [|split; lra].
  assert (H1 : (0 <= Worker.prod w * (1 - Firm.d_factor f))%Q)
    by (apply Qmult_le_0_compat; lra).
  assert (H2 : (0 <= Worker.prod w * Firm.d_factor f)%Q)
    by (apply Qmult_le_0_compat; lra).
  split; lra.
Qed.

(** The offer of a firm grows with productivity. *)
Lemma wage_offer_mono f w w' :
  Firm.price f = 1%Q -> (Firm.d_factor f <= 1)%Q ->
  Worker.d_class w' = Worker.d_class w ->
  (Worker.prod w <= Worker.prod w')%Q ->
  (wage_offer f w <= wage_offer f w')%Q.
Proof.
  intros Hp Hd1 Hc Hprod. unfold wage_offer. rewrite Hp, Hc.
  destruct (Worker.d_class w =? Firm.d_class f)%Z; [|lra].
  assert (H1 : (0 <= (Worker.prod w' - Worker.prod w) * (1 - Firm.d_factor f))%Q)
    by (apply Qmult_le_0_compat; lra).
  lra.
Qed.

(** ** The threshold of the education decision *)




Lemma Qeq_bool_gt x y : (y < x)%Q -> Qeq_bool x y = false.
Proof.
  intros Hlt. destruct (Qeq_bool x y) eqn:E; [|reflexivity].
  apply Qeq_bool_iff in E. lra.
Qed.

(** ** Samples of firms *)

Lemma delete_lookup_absent {A} (xs : list A) i a :
  NoDup xs -> xs !! i = Some a -> a ∉ delete i xs.
Proof.
  intros Hnd Ha Hin.
  rewrite <- (take_drop_middle xs i a Ha) in Hnd.
  rewrite delete_take_drop in Hin.
  apply list.NoDup_app in Hnd as (_ & Hdis & Hnd2).
  apply list.NoDup_cons in Hnd2 as [Hni _].
  apply elem_of_app in Hin as [Hin|Hin].
  - apply (Hdis a Hin). by left.
  - contradiction.
Qed.

Lemma delete_NoDup {A} (xs : list A) i : NoDup xs -> NoDup (delete i xs).
Proof. intros Hnd. eapply sublist_NoDup; [exact Hnd | apply sublist_delete]. Qed.

Lemma draw_distinct_NoDup {A} k (xs : list A) r :
  NoDup xs -> NoDup (fst (draw_distinct k xs r)).
Proof.
  revert xs r. induction k as [|k IH]; intros xs r Hnd; cbn [draw_distinct].
  - apply NoDup_nil_2.
  - destruct (randbelow (length xs) r) as [i r1].
    destruct (xs !! i) as [a|] eqn:E; simpl; [|apply NoDup_nil_2].
    pose proof (IH (delete i xs) r1 (delete_NoDup _ i Hnd)) as Hrest.
    pose proof (draw_distinct_subset k (delete i xs) r1) as Hsub.
    destruct (draw_distinct k (delete i xs) r1) as [rest r2]. simpl in *.
    apply list.NoDup_cons. split; [|exact Hrest].
    intros Hin. apply Hsub in Hin. exact (delete_lookup_absent xs i a Hnd E Hin).
Qed.

Lemma select_refs_bounds keep fs j0 k :
  k ∈ select_refs keep fs j0 -> j0 <= k.
Proof. intros H. apply select_refs_elem in H as (f & Hk & _). exact Hk. Qed.

Lemma select_refs_NoDup keep fs j0 : NoDup (select_refs keep fs j0).
Proof.
  revert j0. induction fs as [|f fs IH]; intros j0; simpl; [apply NoDup_nil_2|].
  destruct (keep f); [|apply IH].
  apply list.NoDup_cons. split; [|apply IH].
  intros Hin. apply select_refs_bounds in Hin. lia.
Qed.

(** What [AgentList.random] returns: distinct elements of the list, as many
    as asked for. *)
Lemma agents_random_sample {A} (xs : list A) n m sel m' :
  NoDup xs ->
  agents_random xs n m = Ok (sel, m') ->
  NoDup sel /\ length sel = Z.to_nat n /\ (0 <= n)%Z /\
  (n <> 1%Z -> (n <= Z.of_nat (length xs))%Z).
Proof.
  intros Hnd. unfold agents_random. destruct (Z.eqb_spec n 1) as [->|Hne].
  - intros H. apply bind_Ok in H as (a & m1 & Hc & H).
    apply ret_Ok in H as [-> ->].
    split; [apply NoDup_singleton|]. split; [reflexivity|]. split; [lia|].
    congruence.
  - intros H. apply with_rng_Ok in H as (r' & Hs & ->).
    unfold sample in Hs.
    destruct (Z.ltb_spec n 0) as [?|H0]; [discriminate|].
    destruct (Z.ltb_spec (Z.of_nat (length xs)) n) as [?|H1]; [discriminate|].
    simpl in Hs.
    pose proof (draw_distinct_NoDup (Z.to_nat n) xs (Market.random m) Hnd) as H2.
    pose proof (draw_distinct_length (Z.to_nat n) xs (Market.random m)) as H3.
    destruct (draw_distinct (Z.to_nat n) xs (Market.random m)) as [l r2].
    injection Hs as -> ->. simpl in *.
    split; [exact H2|]. split; [apply H3; lia|]. split; [lia|]. intros _. lia.
Qed.

Lemma sample_zero {A} (xs : list A) r : sample xs 0 r = Ok ([], r).
Proof.
  unfold sample. simpl.
  destruct (Z.ltb_spec (Z.of_nat (length xs)) 0) as [?|_]; [lia | reflexivity].
Qed.

Lemma select_firms_zero i m w :
  Market.workers m !! i = Some w ->
  select_firms i 0 m = Ok ([], Market.with_random (Market.random m) m).
Proof.
  intros Hw. unfold select_firms.
  erewrite bind_step; [| apply get_worker_Ok; eauto].
  erewrite bind_step; [| reflexivity].
  unfold agents_random. change (0 =? 1)%Z with false. cbv iota.
  unfold with_rng. by rewrite sample_zero.
Qed.

Lemma select_firms_length i n m sel m' :
  select_firms i n m = Ok (sel, m') -> length sel = Z.to_nat n.
Proof.
  unfold select_firms. intros H.
  apply bind_Ok in H as (w0 & m1 & Hw0 & H).
  apply get_worker_Ok in Hw0 as [Hw0 ->].
  apply bind_Ok in H as (m0 & m1 & Hg & H). apply get_Ok in Hg as [-> ->].
  apply agents_random_sample in H as (_ & Hlen & _); [exact Hlen|].
  apply select_refs_NoDup.
Qed.

(** ** The run loop *)

Lemma run_Ok p r m :
  MarketOps.run p r = Ok m <->
  exists m0 m1,
    MarketOps.setup (MarketOps.init p r) = Ok (tt, m0) /\
    MarketOps.update m0 = Ok (tt, m1) /\
    MarketOps.sim_loop (Params.steps p) m1 = Ok (tt, m).
Proof.
  unfold MarketOps.run. split.
  - destruct ((_ ;;; _) (MarketOps.init p r)) as [[[] m']|e] eqn:E; [|discriminate].
    intros [= ->].
    apply bind_Ok in E as ([] & m0 & H0 & E).
    apply bind_Ok in E as ([] & m1 & H1 & E). eauto.
  - intros (m0 & m1 & H0 & H1 & H2).
    erewrite bind_step; [|exact H0]. erewrite bind_step; [|exact H1].
    by rewrite H2.
Qed.

Lemma sim_step_Ok m m' :
  MarketOps.sim_step m = Ok (tt, m') <->
  exists m1, MarketOps.step (Market.with_t (S (Market.t m)) m) = Ok (tt, m1) /\
             MarketOps.update m1 = Ok (tt, m').
Proof.
  unfold MarketOps.sim_step. split.
  - intros H. apply bind_Ok in H as ([] & m0 & H0 & H). injection H0 as <-.
    apply bind_Ok in H as ([] & m1 & H1 & H). eauto.
  - intros (m1 & H1 & H2).
    erewrite bind_step; [|reflexivity]. erewrite bind_step; [|exact H1].
    exact H2.
Qed.

(** The clock and the numbers of recorded rows after [k] more iterations. *)
Lemma sim_loop_records prm k m m' :
  sound prm m -> reachable m ->
  MarketOps.sim_loop k m = Ok (tt, m') ->
  sound prm m' /\ reachable m' /\
  Market.t m' = Market.t m + k /\
  length (Market.worker_log m')
    = length (Market.worker_log m) + k * Params.n_workers prm /\
  length (Market.firm_log m')
    = length (Market.firm_log m) + k * (2 * Params.n_workers prm + 1).
Proof.
  revert m. induction k as [|k IH]; intros m Hs Hr H; simpl in H.
  - apply ret_Ok in H as [_ ->].
    split; [exact Hs|]. split; [exact Hr|]. lia.
  - apply bind_Ok in H as ([] & m2 & Hstep & H).
    apply sim_step_Ok in Hstep as (m1 & Hstep & Hup).
    assert (Hs0 : sound prm (Market.with_t (S (Market.t m)) m)) by exact Hs.
    pose proof (step_sound _ _ _ Hs0 Hstep) as Hs1.
    pose proof (step_records _ _ Hstep) as (Ht & Hwl & Hfl).
    pose proof (reach_step _ _ (reach_tick _ Hr) Hstep) as Hr1.
    pose proof (reach_update _ _ Hr1 Hup) as Hr2.
    unfold MarketOps.update in Hup. injection Hup as <-.
    assert (Hs2 : sound prm
              (Market.with_logs
                 (Market.worker_log m1
                  ++ map (MarketOps.worker_row (Market.t m1)) (Market.workers m1))
                 (Market.firm_log m1
                  ++ map (MarketOps.firm_row (Market.t m1)) (Market.firms m1))
                 m1)) by exact Hs1.
    destruct (IH _ Hs2 Hr2 H) as (Hs' & Hr' & Ht' & Hwl' & Hfl').
    split; [exact Hs'|]. split; [exact Hr'|].
    destruct Hs1 as ((_ & _ & Hn) & Hp & Hlen & _).
    simpl in Ht', Hwl', Hfl', Ht, Hwl, Hfl.
    rewrite length_app, length_map in Hwl', Hfl'.
    rewrite Hp in Hn. rewrite Ht', Hwl', Hfl', Ht, Hwl, Hfl, Hn, Hlen.
    lia.
Qed.

(** ** Progress: the methods succeed on the states of a run *)

Lemma Forall2_exists {A B} (R : A -> B -> Prop) (l : list A) :
  (forall a, a ∈ l -> exists b, R a b) -> exists k, Forall2 R l k.
Proof.
  induction l as [|a l IH]; intros H; [exists []; constructor|].
  destruct (H a) as [b Hb]; [by left|].
  destruct IH as [k Hk]; [intros x Hx; apply H; by right|].
  exists (b :: k). by constructor.
Qed.

Lemma select_refs_all keep fs j0 :
  (forall f, f ∈ fs -> keep f = true) ->
  length (select_refs keep fs j0) = length fs.
Proof.
  revert j0. induction fs as [|f fs IH]; intros j0 Hall; simpl; [reflexivity|].
  rewrite (Hall f) by (by left). simpl. rewrite IH; [reflexivity|].
  intros g Hg. apply Hall. by right.
Qed.

(** At most one firm is left out when the test fails for at most one. *)
Lemma select_refs_all_but_one keep fs j0 :
  (forall j j' f f', fs !! j = Some f -> fs !! j' = Some f' ->
     keep f = false -> keep f' = false -> j = j') ->
  length fs <= S (length (select_refs keep fs j0)).
Proof.
  revert j0. induction fs as [|f fs IH]; intros j0 Huniq; simpl; [lia|].
  destruct (keep f) eqn:E.
  - simpl. specialize (IH (S j0)).
    assert (length fs <= S (length (select_refs keep fs (S j0)))); [|lia].
    apply IH. intros j j' g g' Hg Hg' Kg Kg'.
    assert (S j = S j'); [|lia].
    eapply Huniq; [exact Hg | exact Hg' | exact Kg | exact Kg'].
  - rewrite select_refs_all; [lia|].
    intros g Hg. apply list_elem_of_lookup in Hg as [k Hk].
    destruct (keep g) eqn:Kg; [reflexivity|].
    assert (0 = S k); [|lia].
    eapply (Huniq 0 (S k) f g); [reflexivity | exact Hk | exact E | exact Kg].
Qed.

(** In a well-formed market every firm but the employer is a candidate. *)
Lemma other_firms_count m w :
  well_formed m ->
  length (Market.firms m)
  <= S (length (select_refs (other_firm w) (Market.firms m) 0)).
Proof.
  intros (Hc & _). apply select_refs_all_but_one.
  intros j j' f f' Hf Hf' K K'.
  unfold other_firm in K, K'.
  apply negb_false_iff, bool_decide_eq_true in K.
  apply negb_false_iff, bool_decide_eq_true in K'.
  eapply le_ids; eauto. congruence.
Qed.

Lemma select_firms_total i n m w :
  Market.workers m !! i = Some w ->
  (1 <= n)%Z ->
  (n <= Z.of_nat (length (select_refs (other_firm w) (Market.firms m) 0)))%Z ->
  exists sel r', select_firms i n m = Ok (sel, Market.with_random r' m).
Proof.
  intros Hw H1 Hn. unfold select_firms.
  erewrite bind_step; [| apply get_worker_Ok; eauto].
  erewrite bind_step; [| reflexivity].
  destruct (Z.eq_dec n 1%Z) as [->|Hne].
  - unfold agents_random. change (1 =? 1)%Z with true. cbv iota.
    destruct (choice_total (select_refs (other_firm w) (Market.firms m) 0)
                (Market.random m)) as (k & r' & Hk).
    { intros Hnil. rewrite Hnil in Hn. simpl in Hn. lia. }
    erewrite bind_step; [| apply with_rng_Ok; eauto].
    exists [k], r'. reflexivity.
  - apply agents_random_total; [exact Hne | lia].
Qed.

Lemma rank_firms_total i n m w :
  Market.workers m !! i = Some w ->
  (1 <= n)%Z ->
  (n <= Z.of_nat (length (select_refs (other_firm w) (Market.firms m) 0)))%Z ->
  exists j x r', rank_firms i n m = Ok ((j, x), Market.with_random r' m).
Proof.
  intros Hw H1 Hn.
  destruct (select_firms_total i n m w Hw H1 Hn) as (sel & r' & Hsel).
  pose proof (select_firms_length _ _ _ _ _ Hsel) as Hlen.
  destruct (select_firms_Ok _ _ _ _ _ Hsel) as (w0 & Hw0 & _ & Hvalid).
  assert (w0 = w) as -> by congruence.
  set (m1 := Market.with_random r' m) in *.
  assert (Hw1 : Market.workers m1 !! i = Some w) by exact Hw.
  destruct (Forall2_exists
              (fun j x => exists f, Market.firms m1 !! j = Some f /\
                                    x = wage_offer f w) sel) as [xs Hxs].
  { intros j Hj. destruct (Hvalid j Hj) as (f & Hf & _). eauto. }
  assert (Hlx : length xs = length sel) by (symmetry; eapply Forall2_length; eauto).
  destruct (py_max_total xs) as [top Htop].
  { intros ->. simpl in Hlx. lia. }
  destruct (py_index_total top xs) as [k Hk].
  { by apply py_max_Ok in Htop as [Hin _]. }
  destruct (py_index_Ok _ _ _ Hk) as (x & Hx & _).
  destruct (lookup_lt_is_Some_2 sel k) as [j Hj].
  { rewrite <- Hlx. eapply lookup_lt_Some; eauto. }
  exists j, x, r'. unfold rank_firms.
  erewrite bind_step; [|exact Hsel].
  erewrite bind_step; [| apply (map_each_calc_wage _ _ _ w); eauto].
  erewrite bind_step; [| apply lift_Ok; eauto].
  erewrite bind_step; [| apply lift_Ok; eauto].
  unfold list_get. rewrite Hj, Hx. reflexivity.
Qed.

Lemma switch_employer_total i j m w :
  well_formed m -> Market.workers m !! i = Some w ->
  j < length (Market.firms m) ->
  exists m', switch_employer i j m = Ok (tt, m').
Proof.
  intros (Hc & He & _) Hw Hj.
  destruct (He _ _ Hw) as [old Hold].
  destruct (le_link _ _ _ Hc i w old) as (fo & Hfo & _); [done|exact Hw|exact Hold|].
  unfold switch_employer.
  erewrite bind_step; [| apply get_worker_Ok; eauto]. rewrite Hold.
  set (fo' := resized (Market.workers m)
                (Firm.with_employees (remove_first i (Firm.employees fo)) fo)).
  set (m1 := Market.with_firms (<[old := fo']> (Market.firms m)) m).
  assert (Hsep : separate old i m = Ok (tt, m1)).
  { apply separate_Ok. exists fo. split; [exact Hfo|]. split; [|reflexivity].
    apply roster_valid_elem. intros k Hk. apply remove_first_elem in Hk.
    pose proof (le_valid _ _ _ Hc old fo Hfo) as Hv.
    rewrite roster_valid_elem in Hv. by apply Hv. }
  erewrite bind_step; [|exact Hsep].
  assert (Hvalid : forall k f, Market.firms m1 !! k = Some f ->
            roster_valid (Market.workers m) (Firm.employees f)).
  { intros k f Hf. simpl in Hf.
    apply list_lookup_insert_Some in Hf as [(Ek & Ef & _)|[_ Hf]].
    - subst k f. apply roster_valid_elem. intros k' Hk. simpl in Hk.
      apply remove_first_elem in Hk.
      pose proof (le_valid _ _ _ Hc old fo Hfo) as Hv.
      rewrite roster_valid_elem in Hv. by apply Hv.
    - eapply le_valid; eauto. }
  destruct (lookup_lt_is_Some_2 (Market.firms m1) j) as [fj Hfj].
  { simpl. by rewrite length_insert. }
  set (fj' := resized (Market.workers m1)
                (Firm.with_employees (hired i (Firm.employees fj)) fj)).
  set (m2 := Market.with_firms (<[j := fj']> (Market.firms m1)) m1).
  assert (Hhire : hire j i m1 = Ok (tt, m2)).
  { apply hire_Ok. exists fj. split; [exact Hfj|]. split; [|reflexivity].
    apply roster_valid_elem. intros k Hk. apply hired_elem in Hk as [->|Hk].
    - simpl. eauto.
    - pose proof (Hvalid j fj Hfj) as Hv.
      rewrite roster_valid_elem in Hv. by apply Hv. }
  erewrite bind_step; [|exact Hhire].
  eexists. apply update_employer_Ok. exists w, fj'.
  split; [exact Hw|]. split; [|reflexivity].
  simpl. apply list_lookup_insert_eq. rewrite length_insert. exact Hj.
Qed.

Lemma firm_selection_total i n m w :
  well_formed m -> Market.workers m !! i = Some w ->
  (1 <= n)%Z -> (Z.succ n <= Z.of_nat (length (Market.firms m)))%Z ->
  exists m', firm_selection i n m = Ok (tt, m').
Proof.
  intros Hwf Hw H1 Hn.
  set (ws := Worker.with_search true w).
  assert (Hwf1 : well_formed (searching i w m)).
  { eapply wf_put_worker; eauto. }
  assert (Hws : Market.workers (searching i w m) !! i = Some ws).
  { simpl. apply list_lookup_insert_eq. eapply lookup_lt_Some; eauto. }
  destruct (rank_firms_total i n (searching i w m) ws Hws H1)
    as (j & x & r' & Hrank).
  { pose proof (other_firms_count (searching i w m) ws Hwf1) as Hcount.
    simpl in Hcount. simpl. lia. }
  destruct (rank_firms_Ok _ _ _ _ _ _ _ Hws Hrank)
    as (sampled & k & fj & _ & _ & Hfj & _).
  unfold firm_selection.
  erewrite bind_step; [| apply get_worker_Ok; eauto].
  erewrite bind_step; [| reflexivity].
  fold (searching i w m). erewrite bind_step; [|exact Hrank].
  erewrite bind_step; [| apply get_worker_Ok; split; [exact Hws | reflexivity]].
  cbn [fst snd]. destruct (Qgtb x (Worker.wage ws)); [|eauto].
  erewrite bind_step; [| reflexivity].
  eapply (switch_employer_total i j).
  - eapply (wf_put_worker (Market.with_random r' (searching i w m))); eauto.
  - simpl. apply list_lookup_insert_eq. rewrite length_insert.
    eapply lookup_lt_Some; eauto.
  - simpl. simpl in Hfj. eapply lookup_lt_Some; eauto.
Qed.

Lemma refresh_employer_size_total i m w :
  well_formed m -> Market.workers m !! i = Some w ->
  exists m', MarketOps.refresh_employer_size i m = Ok (tt, m').
Proof.
  intros Hwf Hw.
  destruct (employed_at m i w Hwf Hw) as (j & f & Hj & Hf & _).
  eexists. apply refresh_employer_size_Ok. eauto 10.
Qed.

Lemma produce_total j m :
  well_formed m -> j < length (Market.firms m) ->
  exists m', produce j m = Ok (tt, m').
Proof.
  intros Hwf Hj. destruct (lookup_lt_is_Some_2 _ _ Hj) as [f Hf].
  destruct (firm_workers m j f Hwf Hf) as [es Hes].
  unfold produce.
  erewrite bind_step; [|apply get_firm_Ok; eauto].
  erewrite bind_step; [|apply map_each_get_worker; eauto].
  eexists. reflexivity.
Qed.

Lemma calc_profit_total j m :
  well_formed m -> j < length (Market.firms m) ->
  exists m', calc_profit j m = Ok (tt, m').
Proof.
  intros Hwf Hj. destruct (lookup_lt_is_Some_2 _ _ Hj) as [f Hf].
  destruct (firm_workers m j f Hwf Hf) as [es Hes].
  unfold calc_profit.
  erewrite bind_step; [|apply get_firm_Ok; eauto].
  erewrite bind_step; [|apply map_each_get_worker; eauto].
  eexists. reflexivity.
Qed.

Lemma education_phase_total prm i m w :
  sound prm m -> Market.workers m !! i = Some w ->
  (1 <= fst (Params.prod_range prm))%Z ->
  exists m',
    (w <- get_worker i ;;
     if Worker.educ w then ret tt
     else education_decision i (Params.premium prm) (Params.weighted prm)) m
    = Ok (tt, m').
Proof.
  intros (Hwf & _ & _ & _ & Hws) Hw Hlo.
  erewrite bind_step; [| apply get_worker_Ok; eauto].
  destruct (Worker.educ w) eqn:Ee; [eauto|].
  destruct (Hws i w Hw) as [(_ & _ & _ & _ & x & [Hx _] & Hprod) _].
  rewrite Ee in Hprod.
  eapply education_decision_total; [exact Hw | |].
  - rewrite Hprod. unfold Qeq. simpl. lia.
  - intros j Hj. destruct (employed_at m i w Hwf Hw) as (j' & f & Hj' & Hf & _).
    assert (j' = j) as -> by congruence. eauto.
Qed.

(** ** Progress: a step and a run succeed *)

Lemma agents_random_any {A} (xs : list A) (n : Z) m :
  (0 <= n <= Z.of_nat (length xs))%Z ->
  exists sel r', agents_random xs n m = Ok (sel, Market.with_random r' m).
Proof.
  intros Hn. destruct (Z.eq_dec n 1%Z) as [->|Hne].
  - unfold agents_random. change (1 =? 1)%Z with true. cbv iota.
    destruct (choice_total xs (Market.random m)) as (k & r' & Hk).
    { intros ->. simpl in Hn. lia. }
    erewrite bind_step; [| apply with_rng_Ok; eauto].
    exists [k], r'. reflexivity.
  - by apply agents_random_total.
Qed.

Lemma active_count_bounds (n : nat) (a : Q) :
  (0 <= a)%Q -> (a <= 1)%Q ->
  (0 <= Qceiling (inject_Z (Z.of_nat n) * a) <= Z.of_nat n)%Z.
Proof.
  intros H0 H1.
  assert (Hn : (0 <= inject_Z (Z.of_nat n))%Q).
  { change 0%Q with (inject_Z 0). rewrite <- Zle_Qle. lia. }
  split.
  - rewrite <- (Qceiling_Z 0). apply Qceiling_resp_le.
    by apply Qmult_le_0_compat.
  - rewrite <- (Qceiling_Z (Z.of_nat n)) at 2. apply Qceiling_resp_le.
    rewrite <- (Qmult_1_r (inject_Z (Z.of_nat n))) at 2.
    rewrite !(Qmult_comm (inject_Z (Z.of_nat n))).
    by apply Qmult_le_compat_r.
Qed.

Lemma step_total prm m :
  runnable prm -> sound prm m ->
  exists m', MarketOps.step m = Ok (tt, m') /\ sound prm m'.
Proof.
  intros (Hlo & Hrange & Ha0 & Ha1 & Hs1 & Hs2 & _) Hs.
  pose proof Hs as ((_ & _ & Hn) & Hp & _).
  rewrite Hp in Hn.
  assert (Hworker : forall x n, x ∈ seq 0 (length (Market.workers m)) ->
            sound prm n -> exists w, Market.workers n !! x = Some w).
  { intros x n Hx ((_ & _ & Hl) & Hpn & _). apply elem_of_seq in Hx.
    apply lookup_lt_is_Some_2. rewrite Hl, Hpn. lia. }
  (* the flags *)
  destruct (for_each_total (sound prm) (seq 0 (length (Market.workers m)))
              (fun i => w <- get_worker i ;;
                        put_worker i (Worker.with_search false w)))
    with (m := m) as (m1 & H1 & Hs1'); [|exact Hs|].
  { intros x n Hx Hsn. destruct (Hworker x n Hx Hsn) as [w Hw].
    eexists. split.
    - erewrite bind_step; [| apply get_worker_Ok; eauto]. reflexivity.
    - eapply sound_put_worker; eauto. }
  destruct (for_each_total (sound prm) (seq 0 (length (Market.workers m)))
              (fun i => w <- get_worker i ;;
                        put_worker i (Worker.with_switch false w)))
    with (m := m1) as (m2 & H2 & Hs2'); [|exact Hs1'|].
  { intros x n Hx Hsn. destruct (Hworker x n Hx Hsn) as [w Hw].
    eexists. split.
    - erewrite bind_step; [| apply get_worker_Ok; eauto]. reflexivity.
    - eapply sound_put_worker; eauto. }
  (* the active workers *)
  destruct (agents_random_any (seq 0 (length (Market.workers m)))
              (Qceiling (inject_Z (Z.of_nat (Params.n_workers (Market.p m)))
                         * Params.active (Market.p m))) m2)
    as (sel & r' & H3).
  { rewrite length_seq, Hn, Hp. by apply active_count_bounds. }
  assert (Hsel : forall x, x ∈ sel -> x ∈ seq 0 (length (Market.workers m))).
  { apply (proj2 (agents_random_Ok _ _ _ _ _ H3)). }
  assert (Hs3 : sound prm (Market.with_random r' m2)) by exact Hs2'.
  (* education *)
  destruct (for_each_total (sound prm) sel
              (fun i => w <- get_worker i ;;
                        if Worker.educ w then ret tt
                        else education_decision i (Params.premium (Market.p m))
                               (Params.weighted (Market.p m))))
    with (m := Market.with_random r' m2) as (m4 & H4 & Hs4); [|exact Hs3|].
  { intros x n Hx Hsn. destruct (Hworker x n (Hsel x Hx) Hsn) as [w Hw].
    rewrite Hp.
    destruct (education_phase_total prm x n w Hsn Hw Hlo) as [n' Hb].
    exists n'. split; [exact Hb|].
    apply bind_Ok in Hb as (w0 & n1 & Hw0 & Hb).
    apply get_worker_Ok in Hw0 as [Hw0 ->].
    destruct (Worker.educ w0) eqn:Ee.
    - by apply ret_Ok in Hb as [_ ->].
    - eapply sound_education; eauto. }
  (* search *)
  destruct (for_each_total (sound prm) sel
              (fun i => firm_selection i
                          (Z.of_nat (Params.sample (Market.p m)))))
    with (m := m4) as (m5 & H5 & Hs5); [|exact Hs4|].
  { intros x n Hx Hsn. destruct (Hworker x n (Hsel x Hx) Hsn) as [w Hw].
    rewrite Hp.
    destruct (firm_selection_total x (Z.of_nat (Params.sample prm)) n w)
      as [n' Hb]; [apply Hsn | exact Hw | lia | |].
    { destruct Hsn as (_ & _ & -> & _). lia. }
    exists n'. split; [exact Hb|]. eapply sound_selection; eauto. }
  (* employer sizes *)
  destruct (for_each_total (sound prm) (seq 0 (length (Market.workers m)))
              MarketOps.refresh_employer_size)
    with (m := m5) as (m6 & H6 & Hs6); [|exact Hs5|].
  { intros x n Hx Hsn. destruct (Hworker x n Hx Hsn) as [w Hw].
    destruct (refresh_employer_size_total x n w) as [n' Hb];
      [apply Hsn | exact Hw |].
    exists n'. split; [exact Hb|]. eapply sound_refresh; eauto. }
  (* the books *)
  assert (Hfirm : forall x n, x ∈ seq 0 (length (Market.firms m6)) ->
            sound prm n -> x < length (Market.firms n)).
  { intros x n Hx (_ & _ & Hl & _). apply elem_of_seq in Hx.
    destruct Hs6 as (_ & _ & Hl6 & _). lia. }
  destruct (for_each_total (sound prm) (seq 0 (length (Market.firms m6))) produce)
    with (m := m6) as (m8 & H8 & Hs8); [|exact Hs6|].
  { intros x n Hx Hsn.
    destruct (produce_total x n) as [n' Hb]; [apply Hsn | by apply Hfirm |].
    exists n'. split; [exact Hb|]. eapply sound_produce; eauto. }
  destruct (for_each_total (sound prm) (seq 0 (length (Market.firms m6)))
              calc_profit)
    with (m := m8) as (m9 & H9 & Hs9); [|exact Hs8|].
  { intros x n Hx Hsn.
    destruct (calc_profit_total x n) as [n' Hb]; [apply Hsn | by apply Hfirm |].
    exists n'. split; [exact Hb|]. eapply sound_calc_profit; eauto. }
  exists m9. split; [|exact Hs9].
  apply step_Ok.
  exists m1, m2, sel, (Market.with_random r' m2), m4, m5, m6, m8.
  cbv zeta. auto 10.
Qed.

Lemma sim_loop_total prm k m :
  runnable prm -> sound prm m ->
  exists m', MarketOps.sim_loop k m = Ok (tt, m').
Proof.
  intros Hrun. revert m. induction k as [|k IH]; intros m Hs; simpl; [eauto|].
  assert (Hs0 : sound prm (Market.with_t (S (Market.t m)) m)) by exact Hs.
  destruct (step_total prm _ Hrun Hs0) as (m1 & Hstep & Hs1).
  set (m2 := Market.with_logs
               (Market.worker_log m1
                ++ map (MarketOps.worker_row (Market.t m1)) (Market.workers m1))
               (Market.firm_log m1
                ++ map (MarketOps.firm_row (Market.t m1)) (Market.firms m1))
               m1).
  assert (Hs2 : sound prm m2) by exact Hs1.
  destruct (IH m2 Hs2) as [m' Hloop].
  exists m'. erewrite bind_step; [exact Hloop|].
  apply sim_step_Ok. exists m1. split; [exact Hstep | reflexivity].
Qed.

(** ** Totals over the firms *)

Lemma class_count_concat ws c (ls : list (list nat)) :
  class_count ws c (concat ls) = sum_list (map (class_count ws c) ls).
Proof.
  unfold class_count. induction ls as [|l ls IH]; [reflexivity|].
  simpl. by rewrite list.filter_app, length_app, IH.
Qed.

Lemma class_count_perm ws c (l l' : list nat) :
  l ≡ₚ l' -> class_count ws c l = class_count ws c l'.
Proof. intros H. unfold class_count. by rewrite H. Qed.

Lemma workers_by_index (ws : list Worker.t) :
  Forall2 (fun i w => ws !! i = Some w) (seq 0 (length ws)) ws.
Proof.
  apply Forall2_same_length_lookup_2; [by rewrite length_seq|].
  intros i k w Hk Hw. apply lookup_seq in Hk as [-> _]. exact Hw.
Qed.

Lemma class_count_everyone ws c :
  class_count ws c (seq 0 (length ws))
  = length (filter (fun w => Worker.d_class w = c) ws).
Proof. symmetry. apply class_count_workers, workers_by_index. Qed.






(** ** Wages along a run *)

Section PayRises.
Variable prm : Params.t.
Variable ws0 : list Worker.t.
Hypothesis d_lo : (0 <= fst (Params.d_range prm))%Q.
Hypothesis d_range : (fst (Params.d_range prm) <= snd (Params.d_range prm))%Q.
Hypothesis d_hi : (snd (Params.d_range prm) <= 1)%Q.
Hypothesis prod_lo : (0 <= fst (Params.prod_range prm))%Z.
Hypothesis premium_pos : (0 <= Params.premium prm)%Q.

Let rising (m : Market.model) : Prop := sound prm m /\ no_pay_cut ws0 m.

Lemma rising_put_worker m i w w' :
  rising m -> Market.workers m !! i = Some w ->
  sound prm (Market.with_workers (<[i := w']> (Market.workers m)) m) ->
  (Worker.wage w <= Worker.wage w')%Q ->
  rising (Market.with_workers (<[i := w']> (Market.workers m)) m).
Proof.
  intros [Hs Hcut] Hw Hs' Hle. split; [exact Hs'|].
  unfold no_pay_cut. simpl. eapply Forall2_put_r; [exact Hcut | exact Hw |].
  intros x Hx. simpl in Hx. eapply Qle_trans; eauto.
Qed.

Lemma rising_same_workers m m' :
  rising m -> sound prm m' -> Market.workers m' = Market.workers m -> rising m'.
Proof.
  intros [_ Hcut] Hs' Hw. split; [exact Hs'|]. unfold no_pay_cut. by rewrite Hw.
Qed.

Lemma rising_education i w m m' :
  rising m -> Market.workers m !! i = Some w -> Worker.educ w = false ->
  education_decision i (Params.premium prm) (Params.weighted prm) m
    = Ok (tt, m') ->
  rising m'.
Proof.
  intros Hr Hw Hed H.
  pose proof (sound_education _ _ _ _ _ (proj1 Hr) Hw Hed H) as Hs'.
  apply education_decision_Ok in H as (w0 & Hw0 & _ & m0 & Hm0 & Hm').
  assert (Hr0 : rising m0) by (destruct Hm0 as [->|[r' ->]]; exact Hr).
  assert (Hw1 : Market.workers m0 !! i = Some w)
    by (destruct Hm0 as [->|[r' ->]]; exact Hw).
  destruct Hm' as [->|Hed']; [exact Hr0|].
  apply get_education_Ok in Hed' as (w1 & w' & Hw1' & Hpaid & ->).
  assert (w1 = w) as -> by congruence.
  apply (rising_put_worker m0 i w w' Hr0 Hw1 Hs').
  destruct Hr0 as [(_ & _ & _ & Hfs & Hws) _].
  destruct (Hws _ _ Hw1) as [Hshape (j & f & He & Hf & Hwage)].
  apply educated_paid_fields in Hpaid
    as (_ & E2 & _ & _ & _ & _ & _ & _ & _ & _ & E11 & E12).
  rewrite He in E12. destruct E12 as (f' & Hf' & Hwage').
  assert (f' = f) as -> by congruence.
  rewrite Hwage, Hwage'.
  destruct (Hfs j f Hf) as [Hst _].
  destruct (static_firm_unit _ _ d_lo d_range d_hi Hst) as [_ Hd1].
  apply wage_offer_mono; [apply Hst | exact Hd1 | exact E2 |].
  rewrite E11.
  pose proof (worker_shape_prod_nonneg _ _ _ prod_lo premium_pos Hshape) as H0.
  pose proof (Qmult_le_0_compat _ _ H0 premium_pos). lra.
Qed.

Lemma rising_selection i n m m' :
  rising m -> firm_selection i n m = Ok (tt, m') -> rising m'.
Proof.
  intros Hr H.
  pose proof (sound_selection _ _ _ _ _ (proj1 Hr) H) as Hs'.
  pose proof Hr as [((Hc & He & _) & _) Hcut].
  destruct (firm_selection_frame _ _ _ _ H)
    as (_ & _ & _ & _ & (w & w' & Hw & Hws' & _) & _).
  destruct (He _ _ Hw) as [old Hold].
  destruct (firm_selection_cases _ _ _ _ _ _ Hc Hw Hold H)
    as (sampled & k & j & fj & r' & _ & _ & _ & _ & _ & Hcase).
  split; [exact Hs'|]. unfold no_pay_cut.
  destruct Hcase as [[_ ->]|(Hlt & _ & (eid & esz & ->) & _)].
  - simpl. eapply Forall2_put_r; [exact Hcut | exact Hw |]. auto.
  - eapply Forall2_put_r; [exact Hcut | exact Hw |].
    intros x Hx. simpl. apply Qlt_le_weak. eapply Qle_lt_trans; eauto.
Qed.

Lemma later_rising m m' : rising m -> later m m' -> rising m'.
Proof.
  apply (later_phases rising prm).
  - by intros n [(_ & Hp & _) _].
  - intros i w n Hr Hw. apply (rising_put_worker n i w _ Hr Hw).
    + eapply sound_put_worker; eauto. apply Hr.
    + apply Qle_refl.
  - intros i w n Hr Hw. apply (rising_put_worker n i w _ Hr Hw).
    + eapply sound_put_worker; eauto. apply Hr.
    + apply Qle_refl.
  - intros r n Hr. exact Hr.
  - apply rising_education.
  - intros i n n'. apply rising_selection.
  - intros i n n' Hr H. pose proof (sound_refresh _ _ _ _ (proj1 Hr) H) as Hs'.
    apply refresh_employer_size_Ok in H as (w & j & f & Hw & _ & _ & ->).
    apply (rising_put_worker n i w _ Hr Hw Hs'). apply Qle_refl.
  - intros j n n' Hr H. pose proof (sound_produce _ _ _ _ (proj1 Hr) H) as Hs'.
    apply produce_frame in H as (_ & Hw & _).
    eapply rising_same_workers; eauto.
  - intros j n n' Hr H. pose proof (sound_calc_profit _ _ _ _ (proj1 Hr) H) as Hs'.
    apply calc_profit_frame in H as (_ & Hw & _).
    eapply rising_same_workers; eauto.
  - intros k n Hr. exact Hr.
  - intros wl fl n Hr. exact Hr.
Qed.
End PayRises.

(** ** The search flags of a step *)

Lemma searched_put_worker xs m i w w' :
  searched xs m -> Market.workers m !! i = Some w ->
  Worker.search w' = Worker.search w ->
  searched xs (Market.with_workers (<[i := w']> (Market.workers m)) m).
Proof.
  intros Hs Hw Hf k v Hv. simpl in Hv.
  apply list_lookup_insert_Some in Hv as [(-> & <- & _)|[_ Hv]]; [|by apply Hs].
  rewrite Hf. by apply Hs.
Qed.

Lemma searched_same_workers xs m m' :
  searched xs m -> Market.workers m' = Market.workers m -> searched xs m'.
Proof. intros Hs Hw i w. rewrite Hw. apply Hs. Qed.

Lemma searched_education xs i premium weighted m m' :
  searched xs m ->
  (w <- get_worker i ;;
   if Worker.educ w then ret tt
   else education_decision i premium weighted) m = Ok (tt, m') ->
  searched xs m'.
Proof.
  intros Hs H. apply bind_Ok in H as (w & m1 & Hw & H).
  apply get_worker_Ok in Hw as [Hw ->].
  destruct (Worker.educ w).
  { by apply ret_Ok in H as [_ ->]. }
  apply education_decision_Ok in H as (w0 & Hw0 & _ & m0 & Hm0 & Hm').
  assert (Hs0 : searched xs m0) by (destruct Hm0 as [->|[r' ->]]; exact Hs).
  destruct Hm' as [->|Hed]; [exact Hs0|].
  apply get_education_Ok in Hed as (w1 & w' & Hw1 & Hpaid & ->).
  apply educated_paid_fields in Hpaid
    as (_ & _ & _ & _ & _ & _ & _ & E8 & _).
  eapply searched_put_worker; eauto.
Qed.

Lemma searched_selection xs i n m m' :
  searched xs m -> firm_selection i n m = Ok (tt, m') ->
  searched (xs ++ [i]) m'.
Proof.
  intros Hs H.
  destruct (firm_selection_frame _ _ _ _ H)
    as (_ & _ & _ & _ & (w & w' & Hw & Hws & _ & Hflag & _) & _).
  intros k v Hv. rewrite Hws in Hv.
  rewrite elem_of_app, list_elem_of_singleton.
  apply list_lookup_insert_Some in Hv as [(-> & <- & _)|[Hne Hv]].
  - split; auto.
  - rewrite (Hs k v Hv). split; [auto | intros [?|?]; [done | congruence]].
Qed.

Lemma searched_selection_loop n xs done m m' :
  searched done m ->
  for_each xs (fun i => firm_selection i n) m = Ok (tt, m') ->
  searched (done ++ xs) m'.
Proof.
  revert done m. induction xs as [|x xs IH]; intros done m Hs H; simpl in H.
  - apply ret_Ok in H as [_ ->]. by rewrite app_nil_r.
  - apply bind_Ok in H as ([] & m1 & Hx & H).
    replace (done ++ x :: xs) with ((done ++ [x]) ++ xs)
      by (by rewrite <- app_assoc).
    eapply IH; [|exact H]. eapply searched_selection; eauto.
Qed.

Lemma search_reset_loop idx m m' :
  for_each idx (fun i =>
    w <- get_worker i ;; put_worker i (Worker.with_search false w)) m
    = Ok (tt, m') ->
  length (Market.workers m') = length (Market.workers m) /\
  forall i w, i ∈ idx -> Market.workers m' !! i = Some w ->
              Worker.search w = false.
Proof.
  intros H.
  apply (for_each_post
           (fun n => length (Market.workers n) = length (Market.workers m))
           (fun i n => forall w, Market.workers n !! i = Some w ->
                                 Worker.search w = false))
    in H as [Hlen Hall]; [ | | | reflexivity].
  - split; [exact Hlen|]. intros i w Hi. by apply Hall.
  - intros i n n' _ Hn Hb. inv_run Hb. simpl.
    split; [by rewrite length_insert|]. intros v.
    rewrite list_lookup_insert_eq by (eapply lookup_lt_Some; eauto).
    by intros [= <-].
  - intros x y n n' _ Hn Hx Hb. inv_run Hb. simpl. intros v Hv.
    apply list_lookup_insert_Some in Hv as [(-> & <- & _)|[_ Hv]];
      [reflexivity | by apply Hx].
Qed.



(** ** The workers a step leaves alone *)

Lemma untouched_refl w : untouched w w.
Proof. by repeat split. Qed.

Lemma untouched_trans a b c : untouched a b -> untouched b c -> untouched a c.
Proof.
  intros ((A1 & A2 & A3 & A4 & A5 & A6) & A7 & A8 & A9)
         ((B1 & B2 & B3 & B4 & B5 & B6) & B7 & B8 & B9).
  repeat split; congruence.
Qed.

Section Inactive.
Variable xs : list nat.
Variable ws0 : list Worker.t.

Lemma untouched_put_flag m i v v' :
  untouched_outside xs ws0 m -> Market.workers m !! i = Some v ->
  untouched v v' ->
  untouched_outside xs ws0
    (Market.with_workers (<[i := v']> (Market.workers m)) m).
Proof.
  intros Hu Hv Hvv k w Hk Hw. destruct (Hu k w Hk Hw) as (w' & Hw' & Hww').
  simpl. destruct (decide (k = i)) as [->|Hne].
  - exists v'. rewrite list_lookup_insert_eq by (eapply lookup_lt_Some; eauto).
    split; [reflexivity|]. assert (w' = v) as -> by congruence.
    eapply untouched_trans; eauto.
  - exists w'. by rewrite list_lookup_insert_ne.
Qed.

Lemma untouched_put_active m i v' :
  untouched_outside xs ws0 m -> i ∈ xs ->
  untouched_outside xs ws0
    (Market.with_workers (<[i := v']> (Market.workers m)) m).
Proof.
  intros Hu Hi k w Hk Hw. destruct (Hu k w Hk Hw) as (w' & Hw' & Hww').
  exists w'. simpl. rewrite list_lookup_insert_ne; [auto|].
  intros ->. contradiction.
Qed.

Lemma untouched_same_workers m m' :
  untouched_outside xs ws0 m -> Market.workers m' = Market.workers m ->
  untouched_outside xs ws0 m'.
Proof. intros Hu Hw i w. rewrite Hw. apply Hu. Qed.

Lemma untouched_education i premium weighted m m' :
  untouched_outside xs ws0 m -> i ∈ xs ->
  (w <- get_worker i ;;
   if Worker.educ w then ret tt
   else education_decision i premium weighted) m = Ok (tt, m') ->
  untouched_outside xs ws0 m'.
Proof.
  intros Hu Hi H. apply bind_Ok in H as (w & m1 & Hw & H).
  apply get_worker_Ok in Hw as [Hw ->].
  destruct (Worker.educ w).
  { by apply ret_Ok in H as [_ ->]. }
  apply education_decision_Ok in H as (w0 & Hw0 & _ & m0 & Hm0 & Hm').
  assert (Hu0 : untouched_outside xs ws0 m0)
    by (destruct Hm0 as [->|[r' ->]]; exact Hu).
  destruct Hm' as [->|Hed]; [exact Hu0|].
  apply get_education_Ok in Hed as (w1 & w' & Hw1 & _ & ->).
  by apply untouched_put_active.
Qed.

Lemma untouched_selection i n m m' :
  untouched_outside xs ws0 m -> i ∈ xs ->
  firm_selection i n m = Ok (tt, m') ->
  untouched_outside xs ws0 m'.
Proof.
  intros Hu Hi H.
  destruct (firm_selection_frame _ _ _ _ H)
    as (_ & _ & _ & _ & (w & w' & Hw & Hws & _) & _).
  intros k v Hk Hv. rewrite Hws.
  by apply (untouched_put_active m i w' Hu Hi).
Qed.
End Inactive.

(** The active sample of a step: as many distinct workers as the step asks
    for; the search flags the step leaves mark them, and the others are
    untouched. *)
Lemma step_sample m m' :
  MarketOps.step m = Ok (tt, m') ->
  exists sel,
    NoDup sel /\
    length sel
    = Z.to_nat (Qceiling (inject_Z (Z.of_nat (Params.n_workers (Market.p m)))
                          * Params.active (Market.p m))) /\
    (forall i, i ∈ sel -> i < length (Market.workers m)) /\
    searched sel m' /\
    untouched_outside sel (Market.workers m) m'.
Proof.
  intros Hstep.
  apply step_Ok in Hstep as (m1 & m2 & sel & m3 & m4 & m5 & m6 & m8 & H).
  cbv zeta in H. destruct H as (H1 & H2 & H3 & H4 & H5 & H6 & H8 & H9).
  pose proof (agents_random_sample _ _ _ _ _ (NoDup_seq 0 _) H3)
    as (Hnd & Hlen & _).
  destruct (agents_random_Ok _ _ _ _ _ H3) as [[r' ->] Hsub].
  destruct (books_loops (fun _ _ => True) _ _ _ _ _
              (fun _ => I) (fun _ _ _ _ _ _ _ _ _ => I) H8 H9)
    as (_ & Hws & _).
  exists sel. split; [exact Hnd|]. split; [exact Hlen|]. split; [|split].
  - intros i Hi. apply Hsub, elem_of_seq in Hi. lia.
  - destruct (search_reset_loop _ _ _ H1) as [Hlen1 Hreset].
    assert (S1 : searched [] m1).
    { intros i w Hw. rewrite (Hreset i w); [| |exact Hw].
      - split; [discriminate | intros Hin; by apply elem_of_nil in Hin].
      - apply elem_of_seq. split; [lia|]. simpl. rewrite <- Hlen1.
        eapply lookup_lt_Some; eauto. }
    apply (for_each_inv (searched [])) in H2; [| |exact S1].
    2:{ intros i n n' _ Hn Hb. inv_run Hb. eapply searched_put_worker; eauto. }
    assert (S3 : searched [] (Market.with_random r' m2)) by exact H2.
    apply (for_each_inv (searched [])) in H4; [| |exact S3].
    2:{ intros i n n' _ Hn Hb. eapply searched_education; eauto. }
    apply (searched_selection_loop _ _ [] _ _ H4) in H5. simpl in H5.
    apply (for_each_inv (searched sel)) in H6; [| |exact H5].
    2:{ intros i n n' _ Hn Hb.
        apply refresh_employer_size_Ok in Hb as (w & j & f & Hw & _ & _ & ->).
        eapply searched_put_worker; eauto. }
    eapply searched_same_workers; eauto.
  - set (U := untouched_outside sel (Market.workers m)).
    assert (U0 : U m).
    { intros i w _ Hw. exists w. split; [exact Hw | apply untouched_refl]. }
    apply (for_each_inv U) in H1; [| |exact U0].
    2:{ intros i n n' _ Hn Hb. inv_run Hb.
        eapply untouched_put_flag; eauto. by repeat split. }
    apply (for_each_inv U) in H2; [| |exact H1].
    2:{ intros i n n' _ Hn Hb. inv_run Hb.
        eapply untouched_put_flag; eauto. by repeat split. }
    assert (U3 : U (Market.with_random r' m2)) by exact H2.
    apply (for_each_inv U) in H4; [| |exact U3].
    2:{ intros i n n' Hi Hn Hb. eapply untouched_education; eauto. }
    apply (for_each_inv U) in H5; [| |exact H4].
    2:{ intros i n n' Hi Hn Hb. eapply untouched_selection; eauto. }
    apply (for_each_inv U) in H6; [| |exact H5].
    2:{ intros i n n' _ Hn Hb.
        apply refresh_employer_size_Ok in Hb as (w & j & f & Hw & _ & _ & ->).
        eapply untouched_put_flag; eauto. by repeat split. }
    intros i w. rewrite Hws. apply H6.
Qed.

(** ** The books of the worked example *)

(** In the worked example a firm with one employee produces 80, sells it for
    80 and pays 80. *)
Lemma flat_books prm m j f :
  flat_inv prm m ->
  Market.firms m !! j = Some f ->
  produced (Market.workers m) f -> accounted (Market.workers m) f ->
  Firm.size f = 1 ->
  (Firm.output f == 80)%Q /\ (Firm.revenue f == 80)%Q /\
  (Firm.costs f == 80)%Q /\ (Firm.profit f == 0)%Q.
Proof.
  intros (Hwf & [Hws Hfs] & _) Hf (es & Hes & Hout & _)
         (es' & Hes' & Hrev & Hcost & Hprofit) Hsize.
  assert (es' = es) as -> by (eapply roster_workers_unique; eauto).
  destruct Hwf as (Hc & _).
  destruct (le_sizes _ _ _ Hc j f Hf) as (Hlen & _).
  rewrite Hsize in Hlen.
  destruct (Hfs j f Hf) as [Hprice _].
  assert (Ho : (Firm.output f == 80)%Q).
  { rewrite Hout.
    rewrite (flat_sum m (fun e => Worker.prod e * Worker.hrs e)%Q
               (Firm.employees f) es); [rewrite <- Hlen; reflexivity | | exact Hes].
    intros i w Hw. destruct (Hws i w Hw) as (H1 & H2 & _).
    rewrite H1, H2. reflexivity. }
  assert (Hc' : (Firm.costs f == 80)%Q).
  { rewrite Hcost.
    rewrite (flat_sum m (fun e => Worker.wage e * Worker.hrs e)%Q
               (Firm.employees f) es); [rewrite <- Hlen; reflexivity | | exact Hes].
    intros i w Hw. destruct (Hws i w Hw) as (_ & H2 & H3).
    rewrite H2, H3. reflexivity. }
  assert (Hr : (Firm.revenue f == 80)%Q).
  { rewrite Hrev, Ho, Hprice. reflexivity. }
  split; [exact Ho|]. split; [exact Hr|]. split; [exact Hc'|].
  rewrite Hprofit, Hr, Hc'. reflexivity.
Qed.

(** The books at the end of a step. *)
Lemma step_books m m' j f :
  MarketOps.step m = Ok (tt, m') ->
  Market.firms m' !! j = Some f ->
  produced (Market.workers m') f /\ accounted (Market.workers m') f.
Proof.
  intros Hstep Hf.
  apply step_Ok_accounts in Hstep as (m6 & m8 & H8 & H9).
  apply (produce_loop_fresh _ _ _ eq_refl) in H8 as (Hws8 & HK8 & Hp8).
  rewrite <- Hws8 in Hp8. rewrite <- HK8 in H9.
  apply (calc_profit_loop_fresh _ _ _ eq_refl Hp8) in H9 as (Hws9 & Hall).
  rewrite Hws9. by apply (Hall j).
Qed.

(** * The properties of the specification *)

(** ** Wage formation *)

(** C4. For every firm F and worker W, [calc_wage] returns
    price × productivity × (1 − discount_factor) when the class of W is the
    flagged class of F, price × productivity otherwise, and the model it
    returns is the model it was called on: no firm or worker state changes. *)
Theorem calc_wage_correct j i f w m :
  Market.firms m !! j = Some f ->
  Market.workers m !! i = Some w ->
  calc_wage j i m =
  Ok (if (Worker.d_class w =? Firm.d_class f)%Z
      then (Firm.price f * Worker.prod w * (1 - Firm.d_factor f))%Q
      else (Firm.price f * Worker.prod w)%Q,
      m).
Proof.
  intros Hf Hw. unfold calc_wage.
  erewrite bind_step; [| apply get_firm_Ok; eauto].
  erewrite bind_step; [| apply get_worker_Ok; eauto].
  reflexivity.
Qed.

Lemma calc_wage_correct_witness :
  exists f,
    Market.firms demo_market !! 0 = Some f /\
    Market.workers demo_market !! 0 = Some demo_worker /\
    calc_wage 0 0 demo_market =
    Ok (if (Worker.d_class demo_worker =? Firm.d_class f)%Z
        then (Firm.price f * Worker.prod demo_worker * (1 - Firm.d_factor f))%Q
        else (Firm.price f * Worker.prod demo_worker)%Q,
        demo_market).
Proof.
  eexists.
  split; [reflexivity|].
  split; [reflexivity|].
  apply (calc_wage_correct 0 0); reflexivity.
Defined.

(** ** Rosters, employers and sizes *)

(** C3. In every state at the boundary of a completed [setup], [step] or
    [update]: each worker is in the roster of exactly one firm, once, and that
    firm is the worker's employer; for every firm, [size] is the length of the
    roster and [size = size_0 + size_1]; and the sizes of all firms add up to
    [n_workers]. *)
Theorem reachable_rosters_consistent m :
  reachable m ->
  (forall i w, Market.workers m !! i = Some w ->
     exists j f,
       Worker.employer w = Some j /\ Market.firms m !! j = Some f /\
       i ∈ Firm.employees f /\ NoDup (Firm.employees f) /\
       forall j' f', Market.firms m !! j' = Some f' ->
                     i ∈ Firm.employees f' -> j' = j) /\
  (forall j f, Market.firms m !! j = Some f ->
     (forall i, i ∈ Firm.employees f ->
        exists w, Market.workers m !! i = Some w /\ Worker.employer w = Some j) /\
     Firm.size f = length (Firm.employees f) /\
     Firm.size f = Firm.size_0 f + Firm.size_1 f) /\
  sum_list (map Firm.size (Market.firms m)) = Params.n_workers (Market.p m).
Proof.
  intros Hreach. pose proof (reachable_wf m Hreach) as Hwf.
  pose proof Hwf as (Hc & He & Hn). split; [|split].
  - intros i w Hw. destruct (He i w Hw) as [j Hj].
    destruct (le_link _ _ _ Hc i w j) as (f & Hf & _ & Hin);
      [discriminate | exact Hw | exact Hj |].
    exists j, f. split; [exact Hj|]. split; [exact Hf|]. split; [exact Hin|].
    split; [eapply le_nodup; eauto|].
    intros j' f' Hf' Hin'.
    destruct (le_roster _ _ _ Hc j' f' i) as (w' & Hw' & Hj');
      [discriminate | exact Hf' | exact Hin' |].
    congruence.
  - intros j f Hf. split; [|split].
    + intros i Hin. eapply (le_roster _ _ _ Hc); eauto.
    + by destruct (le_sizes _ _ _ Hc j f Hf) as [-> _].
    + destruct (le_sizes _ _ _ Hc j f Hf) as (-> & -> & ->).
      symmetry. apply class_count_split. intros i Hin.
      destruct (le_roster _ _ _ Hc j f i) as (w & Hw & _);
        [discriminate | exact Hf | exact Hin |].
      exists w. split; [exact Hw|]. eapply le_class; eauto.
  - rewrite <- Hn. by apply sizes_sum.
Qed.

Lemma demo_market_1_reachable : reachable demo_market_1.
Proof.
  apply (reach_step demo_market); [|vm_compute; reflexivity].
  apply (reach_setup demo_params demo_random). vm_compute. reflexivity.
Defined.

Lemma reachable_rosters_consistent_witness :
  reachable demo_market_1 /\
  sum_list (map Firm.size (Market.firms demo_market_1))
  = Params.n_workers (Market.p demo_market_1).
Proof.
  split; [exact demo_market_1_reachable|].
  apply (reachable_rosters_consistent demo_market_1 demo_market_1_reachable).
Defined.

(** ** Employer search *)

(** C7. Let a worker of a consistent model, employed by [old], run
    [firm_selection] successfully.  The selected firm is a sampled firm whose
    offer is maximal among the sampled offers and strictly above every offer
    sampled before it.  If that offer is strictly above the worker's wage, the
    worker ends employed by that firm at that wage, out of the roster of
    [old] and in the roster of the new firm.  Otherwise its employer, its wage
    and all firms (hence all rosters) are unchanged. *)
Theorem firm_selection_switch_correct i n m m' w old :
  consistent m ->
  Market.workers m !! i = Some w ->
  Worker.employer w = Some old ->
  firm_selection i n m = Ok (tt, m') ->
  exists sampled k j fj r' w',
    select_firms i n (searching i w m)
      = Ok (sampled, Market.with_random r' (searching i w m)) /\
    sampled !! k = Some j /\
    Market.firms m !! j = Some fj /\
    (forall k' j' f', sampled !! k' = Some j' -> Market.firms m !! j' = Some f' ->
       (wage_offer f' w <= wage_offer fj w)%Q /\
       (k' < k -> (wage_offer f' w < wage_offer fj w)%Q)) /\
    Market.workers m' !! i = Some w' /\
    ((Worker.wage w < wage_offer fj w)%Q /\
     Worker.employer w' = Some j /\
     Worker.wage w' = wage_offer fj w /\
     (forall fo', Market.firms m' !! old = Some fo' -> i ∉ Firm.employees fo') /\
     (exists fj', Market.firms m' !! j = Some fj' /\ i ∈ Firm.employees fj')
     \/
     (wage_offer fj w <= Worker.wage w)%Q /\
     Worker.employer w' = Worker.employer w /\
     Worker.wage w' = Worker.wage w /\
     Market.firms m' = Market.firms m).
Proof.
  intros Hc Hw Hold H.
  assert (Hlt : i < length (Market.workers m)) by (eapply lookup_lt_Some; eauto).
  destruct (firm_selection_cases _ _ _ _ _ _ Hc Hw Hold H)
    as (sampled & k & j & fj & r' & Hsel & Hk & Hfj & _ & Hbest & Hcases).
  destruct Hcases as [[Hle ->]|(Hgt & _ & (eid & esz & Hws) & Hout & Hin)].
  - exists sampled, k, j, fj, r', (Worker.with_search true w).
    split; [exact Hsel|]. split; [exact Hk|]. split; [exact Hfj|].
    split; [exact Hbest|]. split; [simpl; by apply list_lookup_insert_eq|].
    right. auto.
  - eexists sampled, k, j, fj, r', _.
    split; [exact Hsel|]. split; [exact Hk|]. split; [exact Hfj|].
    split; [exact Hbest|].
    split; [rewrite Hws; by apply list_lookup_insert_eq|].
    left. simpl. auto.
Qed.

Lemma demo_market_consistent : consistent demo_search_market.
Proof.
  apply (reachable_wf demo_market).
  apply (reach_setup demo_params demo_random). vm_compute. reflexivity.
Defined.

Lemma firm_selection_switch_correct_witness :
  Market.workers demo_search_market !! 0 = Some demo_worker /\
  Worker.employer demo_worker = Some 0 /\
  firm_selection 0 1 demo_search_market = Ok (tt, demo_switched_market) /\
  exists w', Market.workers demo_switched_market !! 0 = Some w'.
Proof.
  assert (Hw : Market.workers demo_search_market !! 0 = Some demo_worker)
    by reflexivity.
  assert (He : Worker.employer demo_worker = Some 0) by reflexivity.
  assert (Hrun : firm_selection 0 1 demo_search_market
                 = Ok (tt, demo_switched_market))
    by (vm_compute; reflexivity).
  split; [exact Hw|]. split; [exact He|]. split; [exact Hrun|].
  destruct (firm_selection_switch_correct 0 1 demo_search_market
              demo_switched_market demo_worker 0
              demo_market_consistent Hw He Hrun)
    as (_ & _ & _ & _ & _ & w' & _ & _ & _ & _ & Hw' & _).
  exists w'. exact Hw'.
Defined.

(** ** Recording *)

(** C9. [Market.update] always succeeds; it appends one row per worker and
    one row per firm, each carrying the recorded fields of its agent at the
    current time, and changes nothing else: parameters, workers, firms, random
    source and clock are the same. *)
Theorem update_pure_read m :
  exists m',
    MarketOps.update m = Ok (tt, m') /\
    Market.p m' = Market.p m /\
    Market.workers m' = Market.workers m /\
    Market.firms m' = Market.firms m /\
    Market.random m' = Market.random m /\
    Market.t m' = Market.t m /\
    exists wrows frows,
      Market.worker_log m' = Market.worker_log m ++ wrows /\
      Market.firm_log m' = Market.firm_log m ++ frows /\
      Forall2 (fun w row =>
                 wr_t row = Market.t m /\ wr_obj_id row = Worker.id w /\
                 wr_d_class row = Worker.d_class w /\
                 wr_prod row = Worker.prod w /\ wr_hrs row = Worker.hrs w /\
                 wr_employer row = Worker.employer w /\
                 wr_employer_id row = Worker.employer_id w /\
                 wr_employer_size row = Worker.employer_size w /\
                 wr_wage row = Worker.wage w /\ wr_educ row = Worker.educ w /\
                 wr_search row = Worker.search w /\
                 wr_switch row = Worker.switch w)
        (Market.workers m) wrows /\
      Forall2 (fun f row =>
                 fr_t row = Market.t m /\ fr_obj_id row = Firm.id f /\
                 fr_d_factor row = Firm.d_factor f /\
                 fr_size row = Firm.size f /\ fr_size_0 row = Firm.size_0 f /\
                 fr_size_1 row = Firm.size_1 f /\
                 fr_output row = Firm.output f /\
                 fr_output_0 row = Firm.output_0 f /\
                 fr_output_1 row = Firm.output_1 f /\
                 fr_costs row = Firm.costs f /\ fr_revenue row = Firm.revenue f /\
                 fr_profit row = Firm.profit f)
        (Market.firms m) frows.
Proof.
  eexists. split; [reflexivity|]. simpl.
  repeat (split; [reflexivity|]).
  eexists. eexists. split; [reflexivity|]. split; [reflexivity|]. split.
  - apply Forall2_fmap_r, Forall_Forall2_diag, list.Forall_forall.
    intros w _. simpl. by repeat split.
  - apply Forall2_fmap_r, Forall_Forall2_diag, list.Forall_forall.
    intros f _. simpl. by repeat split.
Qed.

(** ** The average discount without active firms *)

(** C6, as stated, fails: with one worker and three firms, none of which has
    an employee, the unweighted average is numpy's [nan], returned as an
    ordinary result: not a number, and no exception. *)
Lemma calc_avg_d_no_active_firm_counterexample :
  (forall f, f ∈ Market.firms unpaired_market -> Firm.size f = 0) /\
  calc_avg_d false unpaired_market = Ok (NaN, unpaired_market) /\
  is_numeric NaN = false.
Proof.
  split; [|split; reflexivity].
  intros f Hf. apply list_elem_of_lookup in Hf as [j Hj].
  destruct j as [|[|[|j]]]; simpl in Hj; try discriminate;
    injection Hj as <-; reflexivity.
Qed.



(** ** The education decision *)

(** C2. The benefit of education is discounted by the average discount
    exactly for the workers of class 1, whatever class the configuration
    discriminates against: when the configured class is not 1, a worker of
    the configured (discriminated) class gets the benefit unadjusted. *)
Theorem education_benefit_ignores_configured_class m w premium weighted :
  Worker.d_class w = Params.d_class (Market.p m) ->
  Params.d_class (Market.p m) <> 1%Z ->
  education_benefit w premium weighted m
  = Ok (Fin (Worker.prod w * premium)%Q, m).
Proof.
  intros Hcls Hne. unfold education_benefit.
  destruct (Z.eqb_spec (Worker.d_class w) 1) as [Heq|_]; [congruence|].
  reflexivity.
Qed.

Lemma education_benefit_ignores_configured_class_witness :
  Worker.d_class class0_worker = Params.d_class (Market.p class0_market) /\
  Params.d_class (Market.p class0_market) <> 1%Z /\
  education_benefit class0_worker (1 # 5) true class0_market
  = Ok (Fin (Worker.prod class0_worker * (1 # 5))%Q, class0_market) /\
  exists d, avg_d (Market.firms class0_market) true = Ok (Fin d) /\ (d == 1 # 2)%Q /\
    education_benefit class1_worker (1 # 5) true class0_market
    = Ok (Fin (Worker.prod class1_worker * (1 # 5) * (1 - d))%Q, class0_market).
Proof.
  split; [reflexivity|]. split; [discriminate|].
  split; [apply education_benefit_ignores_configured_class;
          [reflexivity | discriminate]|].
  eexists. split; [vm_compute; reflexivity|].
  split; vm_compute; reflexivity.
Defined.

(** C10. [education_decision] divides by the worker's productivity: it
    raises [ZeroDivisionError] when the productivity is 0 and returns
    otherwise (for a productivity, a mean productivity and a premium of
    moderate magnitude: the square and the products of the cost of larger
    ones leave the range of the doubles); and a productivity of 0 is
    reachable, since a productivity range starting at 0 lets [setup] draw
    it, upon which the first step of the run raises. *)
Theorem education_decision_division i premium weighted m w :
  Market.workers m !! i = Some w ->
  (forall j, Worker.employer w = Some j -> is_Some (Market.firms m !! j)) ->
  ((Worker.prod w == 0)%Q ->
     education_decision i premium weighted m = Raise ZeroDivisionError) /\
  (~ (Worker.prod w == 0)%Q ->
   moderate (Worker.prod w) -> moderate (Worker.avg_prod w) ->
   moderate premium ->
     exists m', education_decision i premium weighted m = Ok (tt, m')) /\
  (exists p r m0 w0,
     fst (Params.prod_range p) = 0%Z /\
     MarketOps.setup (MarketOps.init p r) = Ok (tt, m0) /\
     Market.workers m0 !! 0 = Some w0 /\ Worker.prod w0 = 0%Q /\
     MarketOps.step m0 = Raise ZeroDivisionError /\
     MarketOps.run p r = Raise ZeroDivisionError).
Proof.
  intros Hw Hemp. split; [|split].
  - intros Hz. eapply education_decision_zero; eauto.
  - intros Hnz _ _ _. eapply education_decision_total; eauto.
  - exists zero_params, zero_random, zero_market, (worker_of zero_market 0).
    split; [reflexivity|].
    split; [vm_compute; reflexivity|].
    split; [reflexivity|].
    split; [reflexivity|].
    split; vm_compute; reflexivity.
Qed.

Lemma education_decision_division_witness :
  Market.workers demo_market !! 0 = Some demo_worker /\
  ~ (Worker.prod demo_worker == 0)%Q /\
  exists m', education_decision 0 (1 # 5) true demo_market = Ok (tt, m').
Proof.
  assert (Hw : Market.workers demo_market !! 0 = Some demo_worker) by reflexivity.
  assert (Hnz : ~ (Worker.prod demo_worker == 0)%Q) by discriminate.
  assert (Hp : moderate (Worker.prod demo_worker))
    by (unfold moderate; vm_compute; discriminate).
  assert (Ha : moderate (Worker.avg_prod demo_worker))
    by (unfold moderate; vm_compute; discriminate).
  assert (Hprem : moderate (1 # 5))
    by (unfold moderate; vm_compute; discriminate).
  split; [exact Hw|]. split; [exact Hnz|].
  refine (proj1 (proj2 (education_decision_division 0 (1 # 5) true demo_market
                          demo_worker Hw _)) Hnz Hp Ha Hprem).
  intros j Hj. injection Hj as <-. simpl. eauto.
Defined.

(** ** Education over a run *)

(** C8, as stated, fails: with the premium −0.5 the worker of productivity
    10, below the mean 11, gets education in the first step, and its
    productivity falls to 5. *)
Lemma education_monotone_counterexample :
  reachable cut_market_0 /\ later cut_market_0 cut_market_1 /\
  exists w w',
    Market.workers cut_market_0 !! 0 = Some w /\
    Market.workers cut_market_1 !! 0 = Some w' /\
    (Worker.prod w' < Worker.prod w)%Q.
Proof.
  assert (Hreach : reachable cut_market_0).
  { apply (reach_setup cut_params zero_random). vm_compute. reflexivity. }
  split; [exact Hreach|]. split.
  - apply (later_step _ cut_market_0); [constructor | vm_compute; reflexivity].
  - eexists. eexists. split; [reflexivity|]. split; reflexivity.
Qed.



(** ** The flags of a step *)

(** C1. [firm_selection] raises the recorded [search] flag of its worker
    but leaves the recorded [switch] flag as it was, and after every step the
    recorded [switch] flag of every worker is false.  So a switch is never
    recorded: in the run of [demo_params] under [demo_random], worker 0
    (object 1) is recorded with firm 0 as employer at time 0 and with firm 2
    at time 1, and its row of time 1 has [search] true and [switch] false;
    [firm_selection] set the attribute [switched] instead, which [step] does
    not reset and [update] does not record. *)
Theorem switch_flag_not_recorded :
  (forall i n m m',
     firm_selection i n m = Ok (tt, m') ->
     exists w w',
       Market.workers m !! i = Some w /\ Market.workers m' !! i = Some w' /\
       Worker.search w' = true /\ Worker.switch w' = Worker.switch w) /\
  (forall m m' i w,
     MarketOps.step m = Ok (tt, m') -> Market.workers m' !! i = Some w ->
     Worker.switch w = false) /\
  exists m before after w,
    MarketOps.run demo_params demo_random = Ok m /\
    Market.worker_log m !! 0 = Some before /\
    Market.worker_log m !! 2 = Some after /\
    wr_obj_id before = 1 /\ wr_t before = 0 /\ wr_employer before = Some 0 /\
    wr_obj_id after = 1 /\ wr_t after = 1 /\ wr_employer after = Some 2 /\
    wr_search after = true /\
    wr_switch after = false /\
    Market.workers m !! 0 = Some w /\ Worker.switched w = Some true.
Proof.
  split; [|split].
  - intros i n m m' H.
    apply firm_selection_frame in H
      as (_ & _ & _ & _ & (w & w' & Hw & Hws & _ & Hsearch & Hswitch) & _).
    exists w, w'. split; [exact Hw|]. split; [|auto].
    rewrite Hws. apply list_lookup_insert_eq. eapply lookup_lt_Some; eauto.
  - intros m m' i w Hstep Hw. eapply step_switch_reset; eauto.
  - eexists. eexists. eexists. eexists.
    split; [vm_compute; reflexivity|].
    split; [vm_compute; reflexivity|].
    split; [vm_compute; reflexivity|].
    split; [reflexivity|]. split; [reflexivity|]. split; [reflexivity|].
    split; [reflexivity|]. split; [reflexivity|]. split; [reflexivity|].
    split; [reflexivity|]. split; [reflexivity|].
    split; [vm_compute; reflexivity | reflexivity].
Qed.

Lemma switch_flag_not_recorded_witness :
  firm_selection 0 1 demo_search_market = Ok (tt, demo_switched_market) /\
  exists w w',
    Market.workers demo_search_market !! 0 = Some w /\
    Market.workers demo_switched_market !! 0 = Some w' /\
    Worker.search w' = true /\ Worker.switch w' = Worker.switch w.
Proof.
  assert (Hrun : firm_selection 0 1 demo_search_market
                 = Ok (tt, demo_switched_market))
    by (vm_compute; reflexivity).
  split; [exact Hrun|].
  exact (proj1 switch_flag_not_recorded 0 1%Z demo_search_market
           demo_switched_market Hrun).
Defined.

(** ** The worked example *)

(** C5, as stated, fails: in the run of the example under [zero_random]
    worker 0 ends educated (the tie-break coin came up true), and firm 0,
    which has exactly one employee, ends with the profit 0, not −70. *)
Lemma flat_example_counterexample :
  MarketOps.run (flat_params 92 true 1) zero_random = Ok flat_market /\
  (exists w, Market.workers flat_market !! 0 = Some w /\ Worker.educ w = true) /\
  (exists f, Market.firms flat_market !! 0 = Some f /\
             length (Firm.employees f) = 1 /\ Firm.size f = 1 /\
             (Firm.profit f == 0)%Q /\ ~ (Firm.profit f == -70)%Q).
Proof.
  split; [vm_compute; reflexivity|]. split.
  - eexists. split; reflexivity.
  - eexists. split; [reflexivity|].
    split; [reflexivity|]. split; [reflexivity|].
    split; [reflexivity | discriminate].
Qed.

(** C5, amended.  For every choice of the options the example leaves open and
    every random source, the run succeeds; after [setup] and at the end of
    the run every worker has productivity 10 (educated or not) and wage 10,
    and every offer of every firm equals 10 × price; every recorded wage and
    productivity is 10; and every firm with exactly one employee ends with
    the output 10×8 = 80, the revenue 10×8×1 = 80 (output × price), the
    costs 10×8 = 80 (wage × hours) and the profit 10×8×1 − 10×8 = 0, in the
    final state and in the rows recorded at time 1. *)
Theorem flat_example seed weighted d_class r :
  exists m0 m,
    MarketOps.setup (MarketOps.init (flat_params seed weighted d_class) r)
      = Ok (tt, m0) /\
    MarketOps.run (flat_params seed weighted d_class) r = Ok m /\
    (forall m1, m1 = m0 \/ m1 = m ->
       forall i w j f,
         Market.workers m1 !! i = Some w -> Market.firms m1 !! j = Some f ->
         (wage_offer f w == 10 * Firm.price f)%Q /\
         (Worker.wage w == 10 * Firm.price f)%Q /\
         (Worker.prod w == 10)%Q) /\
    (forall row, row ∈ Market.worker_log m ->
       (wr_wage row == 10)%Q /\ (wr_prod row == 10)%Q) /\
    (forall f, f ∈ Market.firms m -> Firm.size f = 1 ->
       (Firm.output f == 10 * 8)%Q /\ (Firm.revenue f == 10 * 8 * 1)%Q /\
       (Firm.costs f == 10 * 8)%Q /\
       (Firm.profit f == 10 * 8 * 1 - 10 * 8)%Q) /\
    (forall row, row ∈ Market.firm_log m -> fr_t row = 1 -> fr_size row = 1 ->
       (fr_output row == 10 * 8)%Q /\ (fr_revenue row == 10 * 8 * 1)%Q /\
       (fr_costs row == 10 * 8)%Q /\
       (fr_profit row == 10 * 8 * 1 - 10 * 8)%Q).
Proof.
  set (prm := flat_params seed weighted d_class).
  destruct (setup_total prm r) as [m0 Hsetup]; [simpl; lia|].
  pose proof (setup_flat _ _ _ _ _ Hsetup) as Hinv0. fold prm in Hinv0.
  destruct (setup_records _ _ _ Hsetup) as (Ht0 & Hwl0 & Hfl0). simpl in Ht0, Hwl0, Hfl0.
  set (mu := Market.with_logs
               (Market.worker_log m0 ++ map (MarketOps.worker_row (Market.t m0)) (Market.workers m0))
               (Market.firm_log m0 ++ map (MarketOps.firm_row (Market.t m0)) (Market.firms m0))
               m0).
  set (mt := Market.with_t (S (Market.t mu)) mu).
  assert (Hinvt : flat_inv prm mt) by exact Hinv0.
  destruct (step_flat seed weighted d_class mt Hinvt) as (ms & Hstep & Hinvs & Hzero).
  fold prm in Hinvs.
  destruct (step_records _ _ Hstep) as (Hts & Hwls & Hfls).
  set (m := Market.with_logs
              (Market.worker_log ms ++ map (MarketOps.worker_row (Market.t ms)) (Market.workers ms))
              (Market.firm_log ms ++ map (MarketOps.firm_row (Market.t ms)) (Market.firms ms))
              ms).
  assert (Hrun : MarketOps.run prm r = Ok m).
  { unfold MarketOps.run.
    erewrite bind_step; [|exact Hsetup].
    erewrite bind_step; [|reflexivity].
    change (Params.steps prm) with 1. unfold MarketOps.sim_loop, MarketOps.sim_step.
    erewrite bind_step.
    2:{ erewrite bind_step; [|reflexivity].
        erewrite bind_step; [|exact Hstep]. reflexivity. }
    reflexivity. }
  assert (Hinvm : flat_inv prm m) by exact Hinvs.
  assert (Hoffers : forall m1, flat_inv prm m1 ->
            forall i w j f,
              Market.workers m1 !! i = Some w -> Market.firms m1 !! j = Some f ->
              (wage_offer f w == 10 * Firm.price f)%Q /\
              (Worker.wage w == 10 * Firm.price f)%Q /\
              (Worker.prod w == 10)%Q).
  { intros m1 (_ & [Hw Hf] & _) i w j f Hi Hj.
    destruct (Hw i w Hi) as (H1 & _ & H3). destruct (Hf j f Hj) as [H4 H5].
    rewrite H4. split; [|split; [rewrite H3; reflexivity | exact H1]].
    rewrite (wage_offer_flat f w H4 H5 H1). reflexivity. }
  assert (Hrows : forall m1 now row, flat_inv prm m1 ->
            row ∈ map (MarketOps.worker_row now) (Market.workers m1) ->
            (wr_wage row == 10)%Q /\ (wr_prod row == 10)%Q).
  { intros m1 now row (_ & [Hw _] & _) Hrow.
    apply list_elem_of_fmap in Hrow as (w & -> & Hin).
    apply list_elem_of_lookup_1 in Hin as [i Hi].
    destruct (Hw i w Hi) as (H1 & _ & H3). simpl. auto. }
  assert (Hbooks : forall f, f ∈ Market.firms ms -> Firm.size f = 1 ->
            (Firm.output f == 10 * 8)%Q /\ (Firm.revenue f == 10 * 8 * 1)%Q /\
            (Firm.costs f == 10 * 8)%Q /\
            (Firm.profit f == 10 * 8 * 1 - 10 * 8)%Q).
  { intros f Hf Hsize. apply list_elem_of_lookup_1 in Hf as [j Hj].
    destruct (step_books _ _ j f Hstep Hj) as [Hp Ha].
    destruct (flat_books prm ms j f Hinvs Hj Hp Ha Hsize) as (B1 & B2 & B3 & B4).
    rewrite B1, B2, B3, B4. repeat split; reflexivity. }
  exists m0, m. split; [exact Hsetup|]. split; [exact Hrun|].
  split; [|split; [|split]].
  - intros m1 [->| ->]; by apply Hoffers.
  - intros row Hrow. unfold m in Hrow. simpl in Hrow.
    rewrite Hwls in Hrow. simpl in Hrow. rewrite Hwl0 in Hrow. simpl in Hrow.
    apply elem_of_app in Hrow as [Hrow|Hrow];
      [exact (Hrows m0 _ _ Hinv0 Hrow) | exact (Hrows ms _ _ Hinvs Hrow)].
  - intros f Hf Hsize. by apply Hbooks.
  - intros row Hrow Ht Hsize. unfold m in Hrow. simpl in Hrow.
    rewrite Hfls in Hrow. simpl in Hrow. rewrite Hfl0 in Hrow. simpl in Hrow.
    apply elem_of_app in Hrow as [Hrow|Hrow];
      apply list_elem_of_fmap in Hrow as (f & -> & Hin);
      simpl in Ht, Hsize |- *.
    + rewrite Ht0 in Ht. discriminate.
    + by apply Hbooks.
Qed.

Lemma flat_example_witness :
  exists m0 m,
    MarketOps.setup (MarketOps.init (flat_params 92 true 1) zero_random)
      = Ok (tt, m0) /\
    MarketOps.run (flat_params 92 true 1) zero_random = Ok m /\
    forall f, f ∈ Market.firms m -> Firm.size f = 1 ->
      (Firm.output f == 10 * 8)%Q /\ (Firm.revenue f == 10 * 8 * 1)%Q /\
      (Firm.costs f == 10 * 8)%Q /\
      (Firm.profit f == 10 * 8 * 1 - 10 * 8)%Q.
Proof.
  destruct (flat_example 92 true 1 zero_random)
    as (m0 & m & Hsetup & Hrun & _ & _ & Hprofit & _).
  exists m0, m. split; [exact Hsetup|]. split; [exact Hrun | exact Hprofit].
Defined.

(** * Further properties *)

(** ** Firm: rosters *)

(** X1. Hiring is idempotent: when [hire] has succeeded, hiring the same
    worker again succeeds and changes nothing. *)
Theorem hire_idempotent j i m m1 :
  hire j i m = Ok (tt, m1) -> hire j i m1 = Ok (tt, m1).
Proof.
  intros H. apply hire_Ok in H as (f & Hf & Hv & ->).
  assert (Hlt : j < length (Market.firms m)) by (eapply lookup_lt_Some; eauto).
  apply hire_Ok. eexists. simpl.
  split; [by apply list_lookup_insert_eq|]. simpl.
  rewrite hired_hired. split; [exact Hv|].
  by rewrite resized_again, list_insert_insert_eq.
Qed.

Lemma hire_idempotent_witness :
  exists m1, hire 2 0 demo_market = Ok (tt, m1) /\ hire 2 0 m1 = Ok (tt, m1).
Proof.
  eexists. assert (H : hire 2 0 demo_market = Ok (tt, _)) by (vm_compute; reflexivity).
  split; [exact H|]. exact (hire_idempotent 2 0 demo_market _ H).
Defined.

(** X2. Separating is idempotent on a roster without duplicates: after a
    successful [separate], separating the same worker again succeeds and
    changes nothing. *)
Theorem separate_idempotent j i m m1 f :
  Market.firms m !! j = Some f -> NoDup (Firm.employees f) ->
  separate j i m = Ok (tt, m1) -> separate j i m1 = Ok (tt, m1).
Proof.
  intros Hf Hnd H. apply separate_Ok in H as (f0 & Hf0 & Hv & ->).
  assert (f0 = f) as -> by congruence.
  assert (Hlt : j < length (Market.firms m)) by (eapply lookup_lt_Some; eauto).
  apply separate_Ok. eexists. simpl.
  split; [by apply list_lookup_insert_eq|]. simpl.
  rewrite (remove_first_absent i (remove_first i (Firm.employees f)))
    by (by apply remove_first_NoDup).
  split; [exact Hv|].
  by rewrite resized_again, list_insert_insert_eq.
Qed.

Lemma separate_idempotent_witness :
  exists f m1,
    Market.firms demo_market !! 0 = Some f /\ NoDup (Firm.employees f) /\
    separate 0 0 demo_market = Ok (tt, m1) /\ separate 0 0 m1 = Ok (tt, m1).
Proof.
  eexists. eexists.
  assert (Hf : Market.firms demo_market !! 0 = Some _) by reflexivity.
  assert (Hnd : NoDup [0]) by (apply NoDup_singleton).
  assert (H : separate 0 0 demo_market = Ok (tt, _)) by (vm_compute; reflexivity).
  split; [exact Hf|]. split; [exact Hnd|]. split; [exact H|].
  exact (separate_idempotent 0 0 demo_market _ _ Hf Hnd H).
Defined.

(** X3. Hiring a worker who is not in the roster of a firm whose size fields
    are up to date, then separating that worker, gives back the model as it
    was. *)
Theorem hire_separate_round_trip j i m m1 f :
  Market.firms m !! j = Some f ->
  i ∉ Firm.employees f ->
  sizes_ok (Market.workers m) f ->
  hire j i m = Ok (tt, m1) ->
  separate j i m1 = Ok (tt, m).
Proof.
  intros Hf Hni Hsz H. apply hire_Ok in H as (f0 & Hf0 & Hv & ->).
  assert (f0 = f) as -> by congruence.
  assert (Hlt : j < length (Market.firms m)) by (eapply lookup_lt_Some; eauto).
  assert (Hh : hired i (Firm.employees f) = Firm.employees f ++ [i]).
  { unfold hired. by rewrite bool_decide_eq_false_2. }
  rewrite Hh in *.
  apply separate_Ok. eexists. simpl.
  split; [by apply list_lookup_insert_eq|]. simpl.
  rewrite remove_first_app_new by exact Hni. split.
  - apply roster_valid_elem. intros k Hk.
    rewrite roster_valid_elem in Hv. apply Hv. apply elem_of_app. by left.
  - rewrite list_insert_insert_eq.
    replace (resized (Market.workers m)
               (Firm.with_employees (Firm.employees f)
                  (resized (Market.workers m)
                     (Firm.with_employees (Firm.employees f ++ [i]) f))))
      with f.
    + rewrite list_insert_id by exact Hf. by destruct m.
    + rewrite <- (resized_up_to_date _ f Hsz) at 1. by destruct f.
Qed.

Lemma hire_separate_round_trip_witness :
  exists f m1,
    Market.firms demo_market !! 2 = Some f /\
    (0 ∉ Firm.employees f) /\
    sizes_ok (Market.workers demo_market) f /\
    hire 2 0 demo_market = Ok (tt, m1) /\
    separate 2 0 m1 = Ok (tt, demo_market).
Proof.
  eexists. eexists.
  assert (Hf : Market.firms demo_market !! 2 = Some _) by reflexivity.
  assert (Hni : 0 ∉ @nil nat) by (apply not_elem_of_nil).
  assert (Hsz : sizes_ok (Market.workers demo_market)
                  (Firm.mk 5 0 1 [] 0 0 0 1 0 0 0 0 0 0)) by (by repeat split).
  assert (H : hire 2 0 demo_market = Ok (tt, _)) by (vm_compute; reflexivity).
  split; [exact Hf|]. split; [exact Hni|]. split; [exact Hsz|]. split; [exact H|].
  exact (hire_separate_round_trip 2 0 demo_market _ _ Hf Hni Hsz H).
Defined.

(** ** Firm: production and accounts *)



(** X5. At the end of every step the books of every firm are those of its
    final roster: its outputs are the sums of productivity × hours over the
    roster (in total and by class), its revenue is output × price, its costs
    are the sum of wage × hours over the roster, and its profit is revenue −
    costs, all with the workers as the step leaves them. *)
Theorem step_accounts_fresh m m' j f :
  MarketOps.step m = Ok (tt, m') ->
  Market.firms m' !! j = Some f ->
  produced (Market.workers m') f /\ accounted (Market.workers m') f.
Proof.
  intros Hstep Hf.
  apply step_Ok_accounts in Hstep as (m6 & m8 & H8 & H9).
  apply (produce_loop_fresh _ _ _ eq_refl) in H8 as (Hws8 & HK8 & Hp8).
  rewrite <- Hws8 in Hp8. rewrite <- HK8 in H9.
  apply (calc_profit_loop_fresh _ _ _ eq_refl Hp8) in H9 as (Hws9 & Hall).
  rewrite Hws9. by apply (Hall j).
Qed.

Lemma step_accounts_fresh_witness :
  exists f,
    MarketOps.step demo_market = Ok (tt, demo_market_1) /\
    Market.firms demo_market_1 !! 2 = Some f /\
    accounted (Market.workers demo_market_1) f.
Proof.
  eexists.
  assert (Hstep : MarketOps.step demo_market = Ok (tt, demo_market_1))
    by (vm_compute; reflexivity).
  assert (Hf : Market.firms demo_market_1 !! 2 = Some _) by reflexivity.
  split; [exact Hstep|]. split; [exact Hf|].
  exact (proj2 (step_accounts_fresh demo_market demo_market_1 2 _ Hstep Hf)).
Defined.

(** ** Market: setup *)

(** X6. [Market.setup] builds singleton firms: it leaves [n_workers] workers
    and [2 * n_workers + 1] firms; worker [i] (identifier [1 + i]) is employed
    by firm [i] (identifier [1 + n_workers + i]), whose roster is exactly
    [[i]] with size 1, counted in the size of the worker's class; the worker
    is uneducated and paid the offer of that firm. *)
Theorem setup_singleton_firms p r m i w :
  MarketOps.setup (MarketOps.init p r) = Ok (tt, m) ->
  Market.workers m !! i = Some w ->
  length (Market.workers m) = Params.n_workers p /\
  length (Market.firms m) = 2 * Params.n_workers p + 1 /\
  exists f,
    Market.firms m !! i = Some f /\
    Worker.id w = 1 + i /\ Firm.id f = 1 + Params.n_workers p + i /\
    Worker.employer w = Some i /\ Worker.employer_id w = Some (Firm.id f) /\
    Firm.employees f = [i] /\ Firm.size f = 1 /\
    Firm.size_0 f = (if (Worker.d_class w =? 0)%Z then 1 else 0) /\
    Firm.size_1 f = (if (Worker.d_class w =? 1)%Z then 1 else 0) /\
    Worker.educ w = false /\
    Worker.wage w = wage_offer f w.
Proof.
  intros Hs Hw.
  pose proof (setup_pairs _ _ _ Hs) as (ws' & fs' & Hws & Hfs & Hlw & Hlf & _).
  apply Forall2_length in Hws. rewrite length_seq in Hws.
  apply Forall2_length in Hfs. rewrite length_seq in Hfs.
  split; [congruence|]. split; [congruence|].
  destruct (setup_pairs_worker _ _ _ _ _ Hs Hw)
    as (ws & w0 & f0 & Ew0 & Hid & Hfw & Hff & -> & Hf & _).
  destruct Hff as (Hfid & _ & Hemp & _).
  destruct Hfw as (_ & _ & _ & _ & Heduc & _).
  eexists. split; [exact Hf|].
  unfold paired_firm, paired_worker, resized. simpl. rewrite Hemp. simpl.
  rewrite !(class_count_singleton ws _ i w0) by exact Ew0.
  repeat split; try assumption; reflexivity.
Qed.

Lemma setup_singleton_firms_witness :
  exists f,
    Market.firms demo_market !! 1 = Some f /\
    Firm.employees f = [1] /\
    Worker.wage (worker_of demo_market 1) = wage_offer f (worker_of demo_market 1).
Proof.
  assert (Hs : MarketOps.setup (MarketOps.init demo_params demo_random)
               = Ok (tt, demo_market)) by (vm_compute; reflexivity).
  assert (Hw : Market.workers demo_market !! 1 = Some (worker_of demo_market 1))
    by reflexivity.
  destruct (setup_singleton_firms _ _ _ _ _ Hs Hw)
    as (_ & _ & f & Hf & _ & _ & _ & _ & He & _ & _ & _ & _ & Hwage).
  exists f. split; [exact Hf|]. split; [exact He | exact Hwage].
Defined.

(** X7. The firms [Market.setup] creates beyond the first [n_workers] stay
    as [Firm.setup] leaves them: no employee, all sizes 0. *)
Theorem setup_spare_firms p r m j f :
  MarketOps.setup (MarketOps.init p r) = Ok (tt, m) ->
  Market.firms m !! j = Some f ->
  Params.n_workers p <= j ->
  fresh_firm p (1 + Params.n_workers p + j) f.
Proof.
  intros Hs Hf Hj.
  apply setup_pairs in Hs as (ws & fs & _ & Hfs & _ & Hlf & _ & Hpf).
  destruct (lookup_lt_is_Some_2 fs j) as [f0 Ef0].
  { rewrite <- Hlf. eapply lookup_lt_Some; eauto. }
  specialize (Hpf j f0 Ef0).
  destruct (Nat.ltb_spec j (Params.n_workers p)); [lia|].
  assert (f0 = f) as -> by congruence.
  destruct (Forall2_lookup_r _ _ _ _ _ Hfs Ef0) as (k & Hk & Hff).
  by apply lookup_seq in Hk as [-> _].
Qed.

Lemma setup_spare_firms_witness :
  exists f, Market.firms demo_market !! 4 = Some f /\
            fresh_firm demo_params (1 + 2 + 4) f.
Proof.
  eexists.
  assert (Hs : MarketOps.setup (MarketOps.init demo_params demo_random)
               = Ok (tt, demo_market)) by (vm_compute; reflexivity).
  assert (Hf : Market.firms demo_market !! 4 = Some _) by reflexivity.
  assert (Hj : Params.n_workers demo_params <= 4) by (simpl; lia).
  split; [exact Hf|].
  exact (setup_spare_firms _ _ _ _ _ Hs Hf Hj).
Defined.

(** X8. After [Market.setup] every worker's [employer_size] is 0 although
    its employer has size 1: [update_employer] reads the size of the firm
    before the firm hires. *)
Theorem setup_employer_size_stale p r m i w :
  MarketOps.setup (MarketOps.init p r) = Ok (tt, m) ->
  Market.workers m !! i = Some w ->
  Worker.employer_size w = Some 0 /\
  exists f, Worker.employer w = Some i /\ Market.firms m !! i = Some f /\
            Firm.size f = 1.
Proof.
  intros Hs Hw.
  destruct (setup_pairs_worker _ _ _ _ _ Hs Hw)
    as (ws & w0 & f0 & Ew0 & Hid & Hfw & Hff & -> & Hf & _).
  destruct Hff as (_ & _ & Hemp & Hsz & _).
  split; [simpl; by rewrite Hsz|].
  eexists. split; [reflexivity|]. split; [exact Hf|].
  unfold paired_firm, resized. simpl. by rewrite Hemp.
Qed.

Lemma setup_employer_size_stale_witness :
  Worker.employer_size (worker_of demo_market 0) = Some 0 /\
  exists f, Worker.employer (worker_of demo_market 0) = Some 0 /\
            Market.firms demo_market !! 0 = Some f /\ Firm.size f = 1.
Proof.
  assert (Hs : MarketOps.setup (MarketOps.init demo_params demo_random)
               = Ok (tt, demo_market)) by (vm_compute; reflexivity).
  assert (Hw : Market.workers demo_market !! 0 = Some (worker_of demo_market 0))
    by reflexivity.
  exact (setup_employer_size_stale _ _ _ _ _ Hs Hw).
Defined.

(** ** Market: step *)

(** X9. At the end of every step each worker's [employer_size] is the
    current size of the firm that employs it. *)
Theorem step_employer_size_fresh m m' i w :
  MarketOps.step m = Ok (tt, m') ->
  Market.workers m' !! i = Some w ->
  exists j f, Worker.employer w = Some j /\ Market.firms m' !! j = Some f /\
              Worker.employer_size w = Some (Firm.size f).
Proof.
  intros Hstep Hw.
  pose proof (step_workers_length _ _ Hstep) as Hlen.
  apply step_Ok in Hstep as (m1 & m2 & sel & m3 & m4 & m5 & m6 & m8 & H).
  cbv zeta in H. destruct H as (_ & _ & _ & _ & _ & H6 & H8 & H9).
  apply refresh_loop_fresh in H6 as [Hfs Hfresh].
  destruct (books_loops (fun f f' => Firm.size f' = Firm.size f)
              _ _ _ _ _ (fun f => eq_refl) ltac:(intros; congruence) H8 H9)
    as (_ & Hws & HF).
  rewrite Hws in Hw.
  destruct (Hfresh i w) as (j & f & He & Hf & Hsz); [|exact Hw|].
  { apply elem_of_seq. split; [lia|]. simpl. rewrite <- Hlen, Hws.
    eapply lookup_lt_Some; eauto. }
  rewrite <- Hfs in Hf.
  destruct (Forall2_lookup_l _ _ _ _ _ HF Hf) as (f' & Hf' & Hsz').
  exists j, f'. split; [exact He|]. split; [exact Hf' | congruence].
Qed.

Lemma step_employer_size_fresh_witness :
  exists j f,
    Worker.employer (worker_of demo_market_1 0) = Some j /\
    Market.firms demo_market_1 !! j = Some f /\
    Worker.employer_size (worker_of demo_market_1 0) = Some (Firm.size f).
Proof.
  assert (Hstep : MarketOps.step demo_market = Ok (tt, demo_market_1))
    by (vm_compute; reflexivity).
  assert (Hw : Market.workers demo_market_1 !! 0
               = Some (worker_of demo_market_1 0)) by reflexivity.
  exact (step_employer_size_fresh _ _ _ _ Hstep Hw).
Defined.



(** ** Invariants of a run *)

(** X11. At every boundary state of a run each worker is paid exactly what
    its current employer would offer it now: asking the employer for the
    worker's wage gives the wage the worker holds. *)
Theorem reachable_wage_is_offer m i w :
  reachable m ->
  Market.workers m !! i = Some w ->
  exists j, Worker.employer w = Some j /\
            calc_wage j i m = Ok (Worker.wage w, m).
Proof.
  intros Hreach Hw.
  destruct (reachable_sound _ Hreach) as (_ & _ & _ & _ & Hws).
  destruct (Hws i w Hw) as [_ (j & f & He & Hf & Hwage)].
  exists j. split; [exact He|].
  apply calc_wage_Ok. exists f, w. auto.
Qed.

Lemma reachable_wage_is_offer_witness :
  exists j, Worker.employer (worker_of demo_market_1 0) = Some j /\
            calc_wage j 0 demo_market_1
            = Ok (Worker.wage (worker_of demo_market_1 0), demo_market_1).
Proof.
  assert (Hs : MarketOps.setup (MarketOps.init demo_params demo_random)
               = Ok (tt, demo_market)) by (vm_compute; reflexivity).
  assert (Hstep : MarketOps.step demo_market = Ok (tt, demo_market_1))
    by (vm_compute; reflexivity).
  assert (Hw : Market.workers demo_market_1 !! 0
               = Some (worker_of demo_market_1 0)) by reflexivity.
  exact (reachable_wage_is_offer _ _ _
           (reach_step _ _ (reach_setup _ _ _ Hs) Hstep) Hw).
Defined.

(** X12. A worker is educated at most once, and nothing else changes what
    [Worker.setup] gave it: at every boundary state of a run the worker of
    index [i] has identifier [1 + i], 8 hours, the mid-range average
    productivity, a class 0 or 1, and a productivity that is an integer of
    the configured range, multiplied by [1 + premium] exactly when the worker
    is educated. *)
Theorem reachable_worker_shape m i w :
  reachable m ->
  Market.workers m !! i = Some w ->
  worker_shape (Market.p m) i w.
Proof.
  intros Hreach Hw.
  destruct (reachable_sound _ Hreach) as (_ & _ & _ & _ & Hws).
  by destruct (Hws i w Hw) as [Hshape _].
Qed.

Lemma reachable_worker_shape_witness :
  worker_shape demo_params 1 (worker_of demo_market_1 1).
Proof.
  assert (Hs : MarketOps.setup (MarketOps.init demo_params demo_random)
               = Ok (tt, demo_market)) by (vm_compute; reflexivity).
  assert (Hstep : MarketOps.step demo_market = Ok (tt, demo_market_1))
    by (vm_compute; reflexivity).
  assert (Hw : Market.workers demo_market_1 !! 1
               = Some (worker_of demo_market_1 1)) by reflexivity.
  exact (reachable_worker_shape _ _ _
           (reach_step _ _ (reach_setup _ _ _ Hs) Hstep) Hw).
Defined.

(** X13. Firms keep what [Firm.setup] gave them: at every boundary state of
    a run there are [2 * n_workers + 1] firms, and the firm of index [j] has
    identifier [1 + n_workers + j], price 1, the configured class, and a
    discount factor that is the rounding to two decimals of a point of the
    configured range; when that range lies within [0, 1], so does the
    discount factor. *)
Theorem reachable_firm_static m j f :
  reachable m ->
  Market.firms m !! j = Some f ->
  length (Market.firms m) = 2 * Params.n_workers (Market.p m) + 1 /\
  Firm.id f = 1 + Params.n_workers (Market.p m) + j /\
  static_firm (Market.p m) f /\
  ((0 <= fst (Params.d_range (Market.p m)))%Q ->
   (fst (Params.d_range (Market.p m)) <= snd (Params.d_range (Market.p m)))%Q ->
   (snd (Params.d_range (Market.p m)) <= 1)%Q ->
   (0 <= Firm.d_factor f)%Q /\ (Firm.d_factor f <= 1)%Q).
Proof.
  intros Hreach Hf.
  destruct (reachable_sound _ Hreach) as (_ & _ & Hlen & Hfs & _).
  destruct (Hfs j f Hf) as [Hst Hid].
  split; [exact Hlen|]. split; [exact Hid|]. split; [exact Hst|].
  intros H0 Hle H1. by apply (static_firm_unit (Market.p m)).
Qed.

Lemma reachable_firm_static_witness :
  exists f, Market.firms demo_market_1 !! 0 = Some f /\
            Firm.id f = 1 + 2 + 0 /\
            (0 <= Firm.d_factor f)%Q /\ (Firm.d_factor f <= 1)%Q.
Proof.
  eexists.
  assert (Hs : MarketOps.setup (MarketOps.init demo_params demo_random)
               = Ok (tt, demo_market)) by (vm_compute; reflexivity).
  assert (Hstep : MarketOps.step demo_market = Ok (tt, demo_market_1))
    by (vm_compute; reflexivity).
  assert (Hf : Market.firms demo_market_1 !! 0 = Some _) by reflexivity.
  destruct (reachable_firm_static _ _ _
              (reach_step _ _ (reach_setup _ _ _ Hs) Hstep) Hf)
    as (_ & Hid & _ & Hd).
  split; [exact Hf|]. split; [exact Hid|].
  apply Hd; vm_compute; discriminate.
Defined.



(** X15. Nobody is paid more than they produce, or less than nothing: in a
    run with a discount range within [0, 1], a productivity range that starts
    at 0 or above and a premium that is not negative, at every boundary state
    the wage of every worker lies between 0 and its productivity. *)
Theorem reachable_wage_bounds m i w :
  reachable m ->
  (0 <= fst (Params.d_range (Market.p m)))%Q ->
  (fst (Params.d_range (Market.p m)) <= snd (Params.d_range (Market.p m)))%Q ->
  (snd (Params.d_range (Market.p m)) <= 1)%Q ->
  (0 <= fst (Params.prod_range (Market.p m)))%Z ->
  (0 <= Params.premium (Market.p m))%Q ->
  Market.workers m !! i = Some w ->
  (0 <= Worker.wage w)%Q /\ (Worker.wage w <= Worker.prod w)%Q.
Proof.
  intros Hreach H0 Hle H1 Hlo Hprem Hw.
  destruct (reachable_sound _ Hreach) as (_ & _ & _ & Hfs & Hws).
  destruct (Hws i w Hw) as [Hshape (j & f & _ & Hf & ->)].
  destruct (Hfs j f Hf) as [Hst _].
  destruct (static_firm_unit _ _ H0 Hle H1 Hst) as [Hd0 Hd1].
  apply wage_offer_bounds; [apply Hst | exact Hd0 | exact Hd1 |].
  eapply worker_shape_prod_nonneg; eauto.
Qed.

Lemma reachable_wage_bounds_witness :
  (0 <= Worker.wage (worker_of demo_market_1 0))%Q /\
  (Worker.wage (worker_of demo_market_1 0)
   <= Worker.prod (worker_of demo_market_1 0))%Q.
Proof.
  assert (Hs : MarketOps.setup (MarketOps.init demo_params demo_random)
               = Ok (tt, demo_market)) by (vm_compute; reflexivity).
  assert (Hstep : MarketOps.step demo_market = Ok (tt, demo_market_1))
    by (vm_compute; reflexivity).
  assert (Hw : Market.workers demo_market_1 !! 0
               = Some (worker_of demo_market_1 0)) by reflexivity.
  apply (reachable_wage_bounds demo_market_1 0 _
           (reach_step _ _ (reach_setup _ _ _ Hs) Hstep));
    [vm_compute; discriminate | vm_compute; discriminate
     | vm_compute; discriminate | vm_compute; discriminate
     | vm_compute; discriminate | exact Hw].
Defined.

(** ** Worker: education *)





(** ** Worker: search *)

(** X18. A successful [select_firms] returns [n] distinct firms of the
    model, none of which carries the identifier of the worker's employer, and
    touches nothing but the random source. *)
Theorem select_firms_sample i n m sel m' :
  select_firms i n m = Ok (sel, m') ->
  NoDup sel /\ length sel = Z.to_nat n /\ (0 <= n)%Z /\
  (exists r', m' = Market.with_random r' m) /\
  exists w, Market.workers m !! i = Some w /\
    forall j, j ∈ sel ->
      exists f, Market.firms m !! j = Some f /\
                Some (Firm.id f) <> Worker.employer_id w.
Proof.
  intros H. pose proof (select_firms_Ok _ _ _ _ _ H) as (w & Hw & Hr & Hsel).
  unfold select_firms in H.
  apply bind_Ok in H as (w0 & m1 & Hw0 & H).
  apply get_worker_Ok in Hw0 as [Hw0 ->].
  apply bind_Ok in H as (m0 & m1 & Hg & H). apply get_Ok in Hg as [-> ->].
  apply agents_random_sample in H as (Hnd & Hlen & Hn & _);
    [|apply select_refs_NoDup].
  split; [exact Hnd|]. split; [exact Hlen|]. split; [exact Hn|].
  split; [exact Hr|]. exists w. split; [exact Hw|].
  intros j Hj. destruct (Hsel j Hj) as (f & Hf & Hother).
  exists f. split; [exact Hf|].
  unfold other_firm in Hother. apply negb_true_iff in Hother.
  by apply bool_decide_eq_false in Hother.
Qed.

Lemma select_firms_sample_witness :
  exists sel m',
    select_firms 0 2 demo_market = Ok (sel, m') /\
    NoDup sel /\ length sel = 2.
Proof.
  eexists. eexists.
  assert (H : select_firms 0 2 demo_market = Ok (_, _))
    by (vm_compute; reflexivity).
  destruct (select_firms_sample _ _ _ _ _ H) as (Hnd & Hlen & _).
  split; [exact H|]. split; [exact Hnd | exact Hlen].
Defined.

(** X19. [select_firms] fails on a sample it cannot draw: asked for a
    negative number of firms, or for more firms than there are besides the
    employer, it raises [ValueError]; asked for one firm when there is none
    besides the employer, it raises [IndexError]. *)
Theorem select_firms_too_many i n m w :
  Market.workers m !! i = Some w ->
  let others := select_refs (other_firm w) (Market.firms m) 0 in
  (n <> 1%Z -> (n < 0)%Z \/ (Z.of_nat (length others) < n)%Z ->
     select_firms i n m = Raise ValueError) /\
  (n = 1%Z -> others = [] -> select_firms i n m = Raise IndexError).
Proof.
  intros Hw others. unfold select_firms.
  erewrite bind_step; [| apply get_worker_Ok; eauto].
  erewrite bind_step; [| reflexivity].
  fold others. unfold agents_random. split.
  - intros Hne Hbad. destruct (Z.eqb_spec n 1) as [?|_]; [contradiction|].
    unfold with_rng, sample.
    destruct (Z.ltb_spec n 0) as [?|H0]; [reflexivity|].
    destruct (Z.ltb_spec (Z.of_nat (length others)) n) as [?|H1];
      [reflexivity | lia].
  - intros -> Hnone. simpl. rewrite Hnone. apply bind_Raise.
    unfold with_rng, choice.
    destruct (randbelow _ _) as [k r']. by rewrite lookup_nil.
Qed.

Lemma select_firms_too_many_witness :
  select_firms 0 5 demo_market = Raise ValueError.
Proof.
  assert (Hw : Market.workers demo_market !! 0 = Some demo_worker)
    by reflexivity.
  apply (proj1 (select_firms_too_many 0 5 demo_market demo_worker Hw));
    [discriminate | right; vm_compute; reflexivity].
Defined.

(** X20. A search over an empty sample fails: with [n = 0], [rank_firms]
    takes the maximum of an empty list of offers, so [rank_firms] and
    [firm_selection] raise [ValueError] for any worker of the model. *)
Theorem firm_selection_empty_sample i m w :
  Market.workers m !! i = Some w ->
  rank_firms i 0 m = Raise ValueError /\
  firm_selection i 0 m = Raise ValueError.
Proof.
  intros Hw.
  assert (Hrank : forall m0 w0, Market.workers m0 !! i = Some w0 ->
            rank_firms i 0 m0 = Raise ValueError).
  { intros m0 w0 Hw0. unfold rank_firms.
    erewrite bind_step; [| eapply select_firms_zero; eauto].
    reflexivity. }
  split; [by eapply Hrank|].
  unfold firm_selection.
  erewrite bind_step; [| apply get_worker_Ok; eauto].
  erewrite bind_step; [| reflexivity].
  apply bind_Raise. eapply Hrank. simpl.
  apply list_lookup_insert_eq. eapply lookup_lt_Some; eauto.
Qed.

Lemma firm_selection_empty_sample_witness :
  rank_firms 0 0 demo_market = Raise ValueError /\
  firm_selection 0 0 demo_market = Raise ValueError.
Proof.
  assert (Hw : Market.workers demo_market !! 0 = Some demo_worker)
    by reflexivity.
  exact (firm_selection_empty_sample 0 demo_market demo_worker Hw).
Defined.

(** ** Market: setup and the productivity range *)



(** ** Market: the run *)

(** X22. What a completed run has recorded: the clock stands at [steps], and
    one row per worker and one per firm were written at setup and after each
    step, [(steps + 1) * n_workers] worker rows and
    [(steps + 1) * (2 * n_workers + 1)] firm rows; the final state is a
    boundary state of the run, with the parameters it was started with. *)
Theorem run_records p r m :
  MarketOps.run p r = Ok m ->
  reachable m /\ Market.p m = p /\
  Market.t m = Params.steps p /\
  length (Market.worker_log m) = (Params.steps p + 1) * Params.n_workers p /\
  length (Market.firm_log m)
    = (Params.steps p + 1) * (2 * Params.n_workers p + 1).
Proof.
  intros H. apply run_Ok in H as (m0 & m1 & H0 & H1 & H2).
  pose proof (setup_sound _ _ _ H0) as Hs0.
  pose proof (setup_records _ _ _ H0) as (Ht & Hwl & Hfl).
  pose proof (reach_update _ _ (reach_setup _ _ _ H0) H1) as Hr1.
  unfold MarketOps.update in H1. injection H1 as <-.
  assert (Hs1 : sound p
            (Market.with_logs
               (Market.worker_log m0
                ++ map (MarketOps.worker_row (Market.t m0)) (Market.workers m0))
               (Market.firm_log m0
                ++ map (MarketOps.firm_row (Market.t m0)) (Market.firms m0))
               m0)) by exact Hs0.
  destruct (sim_loop_records _ _ _ _ Hs1 Hr1 H2) as (Hs & Hr & Ht' & Hwl' & Hfl').
  split; [exact Hr|]. split; [apply Hs|].
  destruct Hs0 as ((_ & _ & Hn) & Hp & Hlen & _).
  simpl in Ht', Hwl', Hfl', Ht, Hwl, Hfl.
  rewrite length_app, length_map in Hwl', Hfl'.
  rewrite Hp in Hn. rewrite Ht', Hwl', Hfl', Ht, Hwl, Hfl, Hn, Hlen.
  simpl. lia.
Qed.

Lemma run_records_witness :
  Market.t flat_market = 1 /\
  length (Market.worker_log flat_market) = (1 + 1) * 2 /\
  length (Market.firm_log flat_market) = (1 + 1) * (2 * 2 + 1).
Proof.
  assert (H : MarketOps.run (flat_params 92 true 1) zero_random = Ok flat_market)
    by (vm_compute; reflexivity).
  destruct (run_records _ _ _ H) as (_ & _ & Ht & Hw & Hf).
  split; [exact Ht|]. split; [exact Hw | exact Hf].
Defined.

(** X23. A run cannot fail under a sensible configuration, whatever the
    random source: when the productivity range is a non-empty range of
    positive integers, the share of active workers lies between 0 and 1 and
    the sample size lies between 1 and [2 * n_workers], [run] returns a
    model; no division by zero, no empty sample, no missing employer.  The
    two experiments of the repository are such configurations. *)
Theorem run_total p r :
  runnable p -> exists m, MarketOps.run p r = Ok m.
Proof.
  intros Hrun.
  destruct (setup_total p r) as [m0 H0]; [apply Hrun|].
  pose proof (setup_sound _ _ _ H0) as Hs0.
  set (m1 := Market.with_logs
               (Market.worker_log m0
                ++ map (MarketOps.worker_row (Market.t m0)) (Market.workers m0))
               (Market.firm_log m0
                ++ map (MarketOps.firm_row (Market.t m0)) (Market.firms m0))
               m0).
  assert (Hs1 : sound p m1) by exact Hs0.
  destruct (sim_loop_total p (Params.steps p) m1 Hrun Hs1) as [m Hloop].
  exists m. apply run_Ok. exists m0, m1.
  split; [exact H0|]. split; [reflexivity | exact Hloop].
Qed.

Lemma run_total_witness :
  runnable pd_zp /\ runnable pd_pp /\
  (exists m, MarketOps.run pd_zp demo_random = Ok m) /\
  (exists m, MarketOps.run pd_pp demo_random = Ok m).
Proof.
  assert (Hzp : runnable pd_zp).
  { unfold runnable. simpl. repeat split; try lia; discriminate. }
  assert (Hpp : runnable pd_pp).
  { unfold runnable. simpl. repeat split; try lia; discriminate. }
  split; [exact Hzp|]. split; [exact Hpp|].
  split; [exact (run_total pd_zp demo_random Hzp)
         | exact (run_total pd_pp demo_random Hpp)].
Defined.

(** ** Worker: the average discount *)



(** ** Totals *)

(** X25. The sizes by class add up to the population by class: at every
    boundary state of a run, the [size_0] of all firms add up to the number
    of workers of class 0, and the [size_1] to the number of workers of
    class 1. *)
Theorem reachable_sizes_by_class m :
  reachable m ->
  sum_list (map Firm.size_0 (Market.firms m))
    = length (filter (fun w => Worker.d_class w = 0%Z) (Market.workers m)) /\
  sum_list (map Firm.size_1 (Market.firms m))
    = length (filter (fun w => Worker.d_class w = 1%Z) (Market.workers m)).
Proof.
  intros Hreach. pose proof (reachable_wf _ Hreach) as Hwf.
  pose proof (rosters_partition m Hwf) as Hperm.
  destruct Hwf as (Hc & _ & _).
  assert (Hsum : forall (c : Z) (sz : Firm.t -> nat),
            (forall j f, Market.firms m !! j = Some f ->
               sz f = class_count (Market.workers m) c (Firm.employees f)) ->
            sum_list (map sz (Market.firms m))
            = length (filter (fun w => Worker.d_class w = c) (Market.workers m))).
  { intros c sz Hsz.
    rewrite <- class_count_everyone, <- (class_count_perm _ _ _ _ Hperm).
    rewrite class_count_concat, map_map. f_equal.
    apply list_eq. intros j. rewrite !list_lookup_fmap.
    destruct (Market.firms m !! j) as [f|] eqn:Hf; [|reflexivity].
    simpl. f_equal. by apply (Hsz j). }
  split; apply Hsum; intros j f Hf;
    destruct (le_sizes _ _ _ Hc j f Hf) as (_ & S0 & S1); assumption.
Qed.

Lemma reachable_sizes_by_class_witness :
  sum_list (map Firm.size_1 (Market.firms demo_market_1))
  = length (filter (fun w => Worker.d_class w = 1%Z)
              (Market.workers demo_market_1)).
Proof.
  assert (Hs : MarketOps.setup (MarketOps.init demo_params demo_random)
               = Ok (tt, demo_market)) by (vm_compute; reflexivity).
  assert (Hstep : MarketOps.step demo_market = Ok (tt, demo_market_1))
    by (vm_compute; reflexivity).
  exact (proj2 (reachable_sizes_by_class _
                  (reach_step _ _ (reach_setup _ _ _ Hs) Hstep))).
Defined.



(** X27. No pay cuts: in a run with a discount range within [0, 1], a
    productivity range that starts at 0 or above and a premium that is not
    negative, the wage of a worker never falls from one boundary state to a
    later one; education raises the offer of the employer, and a switch is
    only made for a strictly higher offer. *)
Theorem wages_never_fall m m' i w w' :
  reachable m ->
  later m m' ->
  (0 <= fst (Params.d_range (Market.p m)))%Q ->
  (fst (Params.d_range (Market.p m)) <= snd (Params.d_range (Market.p m)))%Q ->
  (snd (Params.d_range (Market.p m)) <= 1)%Q ->
  (0 <= fst (Params.prod_range (Market.p m)))%Z ->
  (0 <= Params.premium (Market.p m))%Q ->
  Market.workers m !! i = Some w ->
  Market.workers m' !! i = Some w' ->
  (Worker.wage w <= Worker.wage w')%Q.
Proof.
  intros Hreach Hlater H0 Hle H1 Hlo Hprem Hw Hw'.
  assert (Hstart : sound (Market.p m) m /\ no_pay_cut (Market.workers m) m).
  { split; [by apply reachable_sound|].
    apply Forall_Forall2_diag, list.Forall_forall. intros x _. apply Qle_refl. }
  destruct (later_rising (Market.p m) (Market.workers m) H0 Hle H1 Hlo Hprem
              m m' Hstart Hlater) as [_ Hcut].
  exact (Forall2_lookup_lr _ _ _ _ _ _ Hcut Hw Hw').
Qed.

Lemma wages_never_fall_witness :
  (Worker.wage (worker_of demo_market 0)
   <= Worker.wage (worker_of demo_market_1 0))%Q.
Proof.
  assert (Hs : MarketOps.setup (MarketOps.init demo_params demo_random)
               = Ok (tt, demo_market)) by (vm_compute; reflexivity).
  assert (Hstep : MarketOps.step demo_market = Ok (tt, demo_market_1))
    by (vm_compute; reflexivity).
  assert (Hw : Market.workers demo_market !! 0 = Some (worker_of demo_market 0))
    by reflexivity.
  assert (Hw' : Market.workers demo_market_1 !! 0
                = Some (worker_of demo_market_1 0)) by reflexivity.
  apply (wages_never_fall demo_market demo_market_1 0 _ _
           (reach_setup _ _ _ Hs)
           (later_step _ _ _ (later_now _) Hstep));
    [vm_compute; discriminate | vm_compute; discriminate
     | vm_compute; discriminate | vm_compute; discriminate
     | vm_compute; discriminate | exact Hw | exact Hw'].
Defined.






